(** * Coaster track drawing: geometry of [trackDrawing.ts]

    A shallow embedding of
    [src/components/coaster/tracks/trackDrawing.ts]: the isometric
    projector, the edge-midpoint anchors, the straight, curved, sloped and
    loop renderers and the chain-lift overlay.

    Number model.  A JavaScript [number] is embedded as a real ([R]):
    additions, subtractions and multiplications are the exact ones, so
    rounding is left out and an equality proved here is the equality the
    code reaches up to rounding.  A division whose divisor is computed
    from data ([Math.hypot], [Math.sqrt]) is kept partial ([fdiv]): JS
    answers [NaN] or an infinity there, which is [None] here.
    [Math.hypot a b] is [sqrt (a*a + b*b)], [Math.floor] is [Zfloor],
    [Math.sin], [Math.cos] and [Math.PI] are [sin], [cos] and [PI].

    Canvas model.  A renderer returns the list of calls it makes on the
    2D context, in order ([canvasOp]); a renderer that would hand a
    non-finite coordinate to the context returns [None].

    Doubles.  Where a property is about what rounding does, the degenerate
    case of the curved track's perpendicular, the renderer is embedded a
    second time on binary64 numbers (module [Double]). *)

From Stdlib Require Import Reals Lra Lia ZArith List String.
Import ListNotations.

Open Scope R_scope.

(** ** Numbers *)

(** [a / b] for a divisor that comes from data: [None] where JS yields a
    non-finite number. *)
Definition fdiv (a b : R) : option R :=
  if Req_dec_T b 0 then None else Some (a / b).

(** [Math.hypot(a, b)]. *)
Definition hypot (a b : R) : R := sqrt (a * a + b * b).

(** [Math.floor]. *)
Definition floor (x : R) : Z := Zfloor x.

(** [Math.trunc], which the remainder operator rounds its quotient with. *)
Definition trunc (x : R) : Z :=
  if Rlt_dec x 0 then (- Zfloor (- x))%Z else Zfloor x.

(** [a % b] on numbers: the remainder has the sign of the dividend. *)
Definition jsrem (a b : R) : R := a - b * IZR (trunc (a / b)).

Definition obind {A B : Type} (m : option A) (k : A -> option B) : option B :=
  match m with
  | Some a => k a
  | None => None
  end.

Notation "x <- m ;; k" := (obind m (fun x => k))
  (at level 61, m at next level, right associativity).

(** ** Constants (lines 13-25) *)

Definition TILE_WIDTH : R := 64.
Definition HEIGHT_RATIO : R := 60 / 100.
Definition TILE_HEIGHT : R := TILE_WIDTH * HEIGHT_RATIO.

Definition TRACK_WIDTH : R := 8.
Definition RAIL_WIDTH : R := 2.
Definition TIE_LENGTH : R := 12.
Definition TIE_SPACING : R := 8.
Definition HEIGHT_UNIT : R := 20.

(** The entries of [COLORS] (lines 28-44) the embedded renderers use. *)
Definition COLORS_rail : string := "#4b5563".
Definition COLORS_tie : string := "#78350f".

(** ** Data *)

Record Point : Type := mkPoint { px : R; py : R }.

Inductive TrackDirection : Type := north | east | south | west.

Inductive StrutStyle : Type := wood | metal.

Inductive LineCap : Type := butt | round | square.

Record Vec : Type := mkVec { dx : R; dy : R }.

(** [DIRECTIONS] (lines 64-69). *)
Definition DIRECTIONS (d : TrackDirection) : Vec :=
  match d with
  | north => mkVec (- (7071 / 10000)) (- (4243 / 10000))
  | east => mkVec (7071 / 10000) (- (4243 / 10000))
  | south => mkVec (7071 / 10000) (4243 / 10000)
  | west => mkVec (- (7071 / 10000)) (4243 / 10000)
  end.

(** ** Isometric projector (lines 51-61) *)

Definition gridToScreen (gridX gridY : R) : Point :=
  let x := (gridX - gridY) * (TILE_WIDTH / 2) in
  let y := (gridX + gridY) * (TILE_HEIGHT / 2) in
  mkPoint x y.

Definition gridToScreen3D (gridX gridY height : R) : Point :=
  let p := gridToScreen gridX gridY in
  mkPoint (px p) (py p - height * HEIGHT_UNIT).

(** ** Edge midpoints *)

(** The five anchors every renderer computes at its top. *)
Record Anchors : Type := mkAnchors {
  northEdge : Point;
  eastEdge : Point;
  southEdge : Point;
  westEdge : Point;
  center : Point
}.

Definition edge (a : Anchors) (d : TrackDirection) : Point :=
  match d with
  | north => northEdge a
  | east => eastEdge a
  | south => southEdge a
  | west => westEdge a
  end.

(** [drawStraightTrack], lines 133-142. *)
Definition straightAnchors (startX startY height : R) : Anchors :=
  let w := TILE_WIDTH in
  let h := TILE_HEIGHT in
  let heightOffset := height * HEIGHT_UNIT in
  mkAnchors
    (mkPoint (startX + w * (25 / 100)) (startY + h * (25 / 100) - heightOffset))
    (mkPoint (startX + w * (75 / 100)) (startY + h * (25 / 100) - heightOffset))
    (mkPoint (startX + w * (75 / 100)) (startY + h * (75 / 100) - heightOffset))
    (mkPoint (startX + w * (25 / 100)) (startY + h * (75 / 100) - heightOffset))
    (mkPoint (startX + w / 2) (startY + h / 2 - heightOffset)).

(** [drawCurvedTrack], lines 226-235. *)
Definition curvedAnchors (startX startY height : R) : Anchors :=
  let w := TILE_WIDTH in
  let h := TILE_HEIGHT in
  let heightOffset := height * HEIGHT_UNIT in
  mkAnchors
    (mkPoint (startX + w * (25 / 100)) (startY + h * (25 / 100) - heightOffset))
    (mkPoint (startX + w * (75 / 100)) (startY + h * (25 / 100) - heightOffset))
    (mkPoint (startX + w * (75 / 100)) (startY + h * (75 / 100) - heightOffset))
    (mkPoint (startX + w * (25 / 100)) (startY + h * (75 / 100) - heightOffset))
    (mkPoint (startX + w / 2) (startY + h / 2 - heightOffset)).

(** [drawSlopeTrack], lines 353-361: the anchors on the ground; the
    heights are subtracted later, per end (lines 409-415). *)
Definition slopeAnchors (startX startY : R) : Anchors :=
  let w := TILE_WIDTH in
  let h := TILE_HEIGHT in
  mkAnchors
    (mkPoint (startX + w * (25 / 100)) (startY + h * (25 / 100)))
    (mkPoint (startX + w * (75 / 100)) (startY + h * (25 / 100)))
    (mkPoint (startX + w * (75 / 100)) (startY + h * (75 / 100)))
    (mkPoint (startX + w * (25 / 100)) (startY + h * (75 / 100)))
    (mkPoint (startX + w / 2) (startY + h / 2)).

(** ** Canvas *)

(** The calls a renderer makes on the 2D context.  [supportFrame] stands
    for the strokes and fills of one support lattice ([drawWoodSupport],
    lines 487-625, or [drawMetalSupport], lines 641-801) past its height
    guard, with the perpendicular already resolved. *)
Inductive canvasOp : Type :=
| setStrokeStyle (c : string)
| setFillStyle (c : string)
| setLineWidth (w : R)
| setLineCap (c : LineCap)
| beginPath
| moveTo (x y : R)
| lineTo (x y : R)
| arc (x y r a0 a1 : R)
| closePath
| stroke
| fill
| supportFrame (s : StrutStyle) (x groundY height perpX perpY : R).

(** A [for] loop over the indices in [l] whose body may meet a
    non-finite number. *)
Fixpoint forEach (body : nat -> option (list canvasOp)) (l : list nat)
  : option (list canvasOp) :=
  match l with
  | [] => Some []
  | i :: l' =>
      ops <- body i ;;
      rest <- forEach body l' ;;
      Some (ops ++ rest)
  end.

(** ** Support structures (lines 478-490, 632-644, 807-820) *)

(** [perp?.x ?? 1] and [perp?.y ?? 0]. *)
Definition perpOrDefault (perp : option Point) : Point :=
  match perp with
  | Some p => p
  | None => mkPoint 1 0
  end.

Definition drawWoodSupport (x groundY height : R) (perp : option Point)
  : list canvasOp :=
  if Rle_dec height 0 then []
  else
    let perpX := px (perpOrDefault perp) in
    let perpY := py (perpOrDefault perp) in
    [supportFrame wood x groundY height perpX perpY].

Definition drawMetalSupport (x groundY height : R) (perp : option Point)
  : list canvasOp :=
  if Rle_dec height 0 then []
  else
    let perpX := px (perpOrDefault perp) in
    let perpY := py (perpOrDefault perp) in
    [supportFrame metal x groundY height perpX perpY].

Definition drawSupport (x groundY height : R) (perp : option Point)
  (strutStyle : StrutStyle) : list canvasOp :=
  match strutStyle with
  | wood => drawWoodSupport x groundY height perp
  | metal => drawMetalSupport x groundY height perp
  end.

(** ** Straight track (lines 124-210) *)

(** [(a - b) / Math.hypot(a.x - b.x, a.y - b.y)], componentwise: the
    expression of lines 156-157 and 163-164. *)
Definition axisPerp (a b : Point) : option Point :=
  perpX <- fdiv (px a - px b) (hypot (px a - px b) (py a - py b)) ;;
  perpY <- fdiv (py a - py b) (hypot (px a - px b) (py a - py b)) ;;
  Some (mkPoint perpX perpY).

(** Lines 151-165: [fromEdge], [toEdge] and the perpendicular. *)
Definition straightEnds (a : Anchors) (direction : TrackDirection)
  : Point * Point * option Point :=
  match direction with
  | north | south =>
      (northEdge a, southEdge a, axisPerp (eastEdge a) (westEdge a))
  | east | west =>
      (eastEdge a, westEdge a, axisPerp (southEdge a) (northEdge a))
  end.

(** One crosstie (lines 186-189, 289-292, 447-450). *)
Definition tieStroke (tieX tieY perpX perpY : R) : list canvasOp :=
  [ beginPath;
    moveTo (tieX - perpX * TIE_LENGTH / 2) (tieY - perpY * TIE_LENGTH / 2);
    lineTo (tieX + perpX * TIE_LENGTH / 2) (tieY + perpY * TIE_LENGTH / 2);
    stroke ].

(** Lines 173-174. *)
Definition straightNumTies (fromEdge toEdge : Point) : nat :=
  let length := hypot (px toEdge - px fromEdge) (py toEdge - py fromEdge) in
  Z.to_nat (Z.max 3 (floor (length / TIE_SPACING))).

(** Lines 176-190. *)
Definition straightTies (fromEdge toEdge perp : Point) : list canvasOp :=
  let numTies := straightNumTies fromEdge toEdge in
  [setStrokeStyle COLORS_tie; setLineWidth 3; setLineCap butt]
  ++ flat_map
       (fun i =>
          let t := INR i / INR numTies in
          let tieX := px fromEdge + (px toEdge - px fromEdge) * t in
          let tieY := py fromEdge + (py toEdge - py fromEdge) * t in
          tieStroke tieX tieY (px perp) (py perp))
       (seq 0 (S numTies)).

(** Lines 193-209, and 455-471 for a slope: the left rail, then the right
    rail. *)
Definition straightRails (fromEdge toEdge perp : Point) (trackColor : string)
  : list canvasOp :=
  let railOffset := TRACK_WIDTH / 2 in
  [ setStrokeStyle trackColor; setLineWidth RAIL_WIDTH; setLineCap round;
    beginPath;
    moveTo (px fromEdge - px perp * railOffset)
           (py fromEdge - py perp * railOffset);
    lineTo (px toEdge - px perp * railOffset)
           (py toEdge - py perp * railOffset);
    stroke;
    beginPath;
    moveTo (px fromEdge + px perp * railOffset)
           (py fromEdge + py perp * railOffset);
    lineTo (px toEdge + px perp * railOffset)
           (py toEdge + py perp * railOffset);
    stroke ].

Definition drawStraightTrack (startX startY : R) (direction : TrackDirection)
  (height : R) (trackColor : string) (strutStyle : StrutStyle)
  : option (list canvasOp) :=
  let heightOffset := height * HEIGHT_UNIT in
  let a := straightAnchors startX startY height in
  let '(fromEdge, toEdge, perp) := straightEnds a direction in
  perp <- perp ;;
  Some
    ((if Rgt_dec height 0
      then drawSupport (px (center a)) (py (center a) + heightOffset) height
             (Some perp) strutStyle
      else [])
     ++ straightTies fromEdge toEdge perp
     ++ straightRails fromEdge toEdge perp trackColor).

(** ** Curved track (lines 216-338) *)

(** Lines 242-254: the direction by turn lookup. *)
Definition curvedEnds (a : Anchors) (startDir : TrackDirection)
  (turnRight : bool) : Point * Point :=
  match startDir with
  | north => (northEdge a, if turnRight then eastEdge a else westEdge a)
  | south => (southEdge a, if turnRight then westEdge a else eastEdge a)
  | east => (eastEdge a, if turnRight then southEdge a else northEdge a)
  | west => (westEdge a, if turnRight then northEdge a else southEdge a)
  end.

(** The quadratic Bezier point of lines 260-263, 275-279 and 309-315. *)
Definition quadraticPoint (fromEdge ctrl toEdge : Point) (t : R) : Point :=
  let u := 1 - t in
  mkPoint
    (u * u * px fromEdge + 2 * u * t * px ctrl + t * t * px toEdge)
    (u * u * py fromEdge + 2 * u * t * py ctrl + t * t * py toEdge).

(** The tangent of lines 281-284 and 318-321. *)
Definition quadraticTangent (fromEdge ctrl toEdge : Point) (t : R) : Point :=
  mkPoint
    (2 * (1 - t) * (px ctrl - px fromEdge) + 2 * t * (px toEdge - px ctrl))
    (2 * (1 - t) * (py ctrl - py fromEdge) + 2 * t * (py toEdge - py ctrl)).

(** Lines 285-287 and 322-324: the perpendicular at parameter [t]. *)
Definition quadraticPerp (fromEdge ctrl toEdge : Point) (t : R)
  : option Point :=
  let tangent := quadraticTangent fromEdge ctrl toEdge t in
  let len := sqrt (px tangent * px tangent + py tangent * py tangent) in
  perpX <- fdiv (- py tangent) len ;;
  perpY <- fdiv (px tangent) len ;;
  Some (mkPoint perpX perpY).

(** Lines 256-265. *)
Definition curvedSupport (fromEdge ctrl toEdge : Point) (height : R)
  (strutStyle : StrutStyle) : list canvasOp :=
  let heightOffset := height * HEIGHT_UNIT in
  if Rgt_dec height 0
  then
    let midT := 5 / 10 in
    let curveMid := quadraticPoint fromEdge ctrl toEdge midT in
    drawSupport (px curveMid) (py curveMid + heightOffset) height None
      strutStyle
  else [].

(** Lines 267-293. *)
Definition curvedTies (fromEdge ctrl toEdge : Point)
  : option (list canvasOp) :=
  let numTies := 4%nat in
  ties <- forEach
            (fun i =>
               let t := INR i / INR numTies in
               let pt := quadraticPoint fromEdge ctrl toEdge t in
               perp <- quadraticPerp fromEdge ctrl toEdge t ;;
               Some (tieStroke (px pt) (py pt) (px perp) (py perp)))
            (seq 0 (S numTies)) ;;
  Some ([setStrokeStyle COLORS_tie; setLineWidth 3] ++ ties).

(** Lines 305-336: one rail, [side] being [-1] or [1]. *)
Definition curvedRail (fromEdge ctrl toEdge : Point) (side : R)
  : option (list canvasOp) :=
  let railOffset := TRACK_WIDTH / 2 in
  let segments := 16%nat in
  path <- forEach
            (fun i =>
               let t := INR i / INR segments in
               let pt := quadraticPoint fromEdge ctrl toEdge t in
               perp <- quadraticPerp fromEdge ctrl toEdge t ;;
               let rx := px pt + px perp * railOffset * side in
               let ry := py pt + py perp * railOffset * side in
               Some [if Nat.eqb i 0 then moveTo rx ry else lineTo rx ry])
            (seq 0 (S segments)) ;;
  Some ([beginPath] ++ path ++ [stroke]).

Definition drawCurvedTrack (startX startY : R) (startDir : TrackDirection)
  (turnRight : bool) (height : R) (trackColor : string)
  (strutStyle : StrutStyle) : option (list canvasOp) :=
  let a := curvedAnchors startX startY height in
  let '(fromEdge, toEdge) := curvedEnds a startDir turnRight in
  ties <- curvedTies fromEdge (center a) toEdge ;;
  left <- curvedRail fromEdge (center a) toEdge (-1) ;;
  right <- curvedRail fromEdge (center a) toEdge 1 ;;
  Some
    (curvedSupport fromEdge (center a) toEdge height strutStyle
     ++ ties
     ++ [setStrokeStyle trackColor; setLineWidth RAIL_WIDTH; setLineCap round]
     ++ left ++ right).

(** ** Sloped track (lines 343-472) *)

(** Lines 374-406: [fromEdge], [toEdge] and the ground perpendicular. *)
Definition slopeEnds (a : Anchors) (direction : TrackDirection)
  : Point * Point * option Point :=
  match direction with
  | south => (northEdge a, southEdge a, axisPerp (eastEdge a) (westEdge a))
  | north => (southEdge a, northEdge a, axisPerp (eastEdge a) (westEdge a))
  | west => (eastEdge a, westEdge a, axisPerp (southEdge a) (northEdge a))
  | east => (westEdge a, eastEdge a, axisPerp (southEdge a) (northEdge a))
  end.

(** Lines 436-451. *)
Definition slopeTies (x1 y1 x2 y2 : R) (perp : Point) : list canvasOp :=
  let trackDirX := x2 - x1 in
  let trackDirY := y2 - y1 in
  let trackLen := hypot trackDirX trackDirY in
  let numTies := Z.to_nat (Z.max 3 (floor (trackLen / TIE_SPACING))) in
  [setStrokeStyle COLORS_tie; setLineWidth 3; setLineCap butt]
  ++ flat_map
       (fun i =>
          let t := INR i / INR numTies in
          let tieX := x1 + trackDirX * t in
          let tieY := y1 + trackDirY * t in
          tieStroke tieX tieY (px perp) (py perp))
       (seq 0 (S numTies)).

Definition drawSlopeTrack (startX startY : R) (direction : TrackDirection)
  (startHeight endHeight : R) (trackColor : string) (strutStyle : StrutStyle)
  : option (list canvasOp) :=
  let a := slopeAnchors startX startY in
  let '(fromEdge, toEdge, groundPerp) := slopeEnds a direction in
  let fromHeight := startHeight in
  let toHeight := endHeight in
  groundPerp <- groundPerp ;;
  let fromHeightOffset := fromHeight * HEIGHT_UNIT in
  let toHeightOffset := toHeight * HEIGHT_UNIT in
  let x1 := px fromEdge in
  let y1 := py fromEdge - fromHeightOffset in
  let x2 := px toEdge in
  let y2 := py toEdge - toHeightOffset in
  let perp := groundPerp in
  Some
    ((if Rgt_dec fromHeight 0
      then drawSupport x1 (py fromEdge) fromHeight (Some perp) strutStyle
      else [])
     ++ (if Rgt_dec toHeight 0
         then drawSupport x2 (py toEdge) toHeight (Some perp) strutStyle
         else [])
     ++ slopeTies x1 y1 x2 y2 perp
     ++ straightRails (mkPoint x1 y1) (mkPoint x2 y2) groundPerp trackColor).

(** ** Vertical loop: the rails (lines 835-877 and 985-1006) *)

(** Line 841. *)
Definition loopRadius (loopHeight : R) : R :=
  Rmax 28 (loopHeight * HEIGHT_UNIT * (4 / 10)).

(** Lines 857-877; [centerX], [centerY], [radius] and [dir] are the
    variables the closure captures. *)
Definition getLoopPoint (centerX centerY radius : R) (dir : Vec)
  (angle railSide : R) : Point :=
  let railOffset := TRACK_WIDTH / 2 in
  let forwardOffset := sin angle * radius in
  let heightOffset := (1 - cos angle) * radius in
  let baseX := centerX + dx dir * forwardOffset in
  let baseY := centerY + dy dir * forwardOffset - heightOffset in
  let perpX := - dy dir in
  let perpY := dx dir in
  mkPoint (baseX + perpX * railOffset * railSide)
          (baseY + perpY * railOffset * railSide).

(** Lines 994-995: the point of index [i] on one rail. *)
Definition loopRailPoint (startX startY : R) (direction : TrackDirection)
  (loopHeight railSide : R) (i : nat) : Point :=
  let centerX := startX + TILE_WIDTH / 2 in
  let centerY := startY + TILE_HEIGHT / 2 in
  let numSegments := 32%nat in
  let angle := INR i / INR numSegments * PI * 2 in
  getLoopPoint centerX centerY (loopRadius loopHeight) (DIRECTIONS direction)
    angle railSide.

(** Lines 991-1005: one rail of [drawLoopTrack]. *)
Definition loopRail (startX startY : R) (direction : TrackDirection)
  (loopHeight railSide : R) : list canvasOp :=
  let numSegments := 32%nat in
  [beginPath]
  ++ map
       (fun i =>
          let pt := loopRailPoint startX startY direction loopHeight railSide i in
          if Nat.eqb i 0 then moveTo (px pt) (py pt)
          else lineTo (px pt) (py pt))
       (seq 0 (S numSegments))
  ++ [closePath; stroke].

(** Lines 986-1006. *)
Definition loopRails (startX startY : R) (direction : TrackDirection)
  (loopHeight : R) (trackColor : string) : list canvasOp :=
  [setStrokeStyle trackColor; setLineWidth RAIL_WIDTH; setLineCap round]
  ++ loopRail startX startY direction loopHeight (-1)
  ++ loopRail startX startY direction loopHeight 1.

(** ** Chain lift (lines 1017-1058) *)

Definition linkSpacing : R := 4.

(** Line 1027. *)
Definition chainLength : R := TILE_WIDTH * (7 / 10).

(** Lines 1029-1036: the start of the chain. *)
Definition chainStart (startX startY : R) (direction : TrackDirection)
  (startHeight : R) : Point :=
  let dir := DIRECTIONS direction in
  let centerX := startX + TILE_WIDTH / 2 in
  let centerY := startY + TILE_HEIGHT / 2 in
  let halfLen := chainLength / 2 in
  mkPoint (centerX - dx dir * halfLen)
          (centerY - dy dir * halfLen - startHeight * HEIGHT_UNIT).

(** Lines 1037-1038: the end of the chain. *)
Definition chainEnd (startX startY : R) (direction : TrackDirection)
  (endHeight : R) : Point :=
  let dir := DIRECTIONS direction in
  let centerX := startX + TILE_WIDTH / 2 in
  let centerY := startY + TILE_HEIGHT / 2 in
  let halfLen := chainLength / 2 in
  mkPoint (centerX + dx dir * halfLen)
          (centerY + dy dir * halfLen - endHeight * HEIGHT_UNIT).

(** Line 1048: the parameter of link [i]. *)
Definition linkParam (tickOffset : R) (i : nat) : R :=
  let animOffset := jsrem tickOffset linkSpacing in
  (INR i * linkSpacing + animOffset) / chainLength.

Definition drawChainLift (startX startY : R) (direction : TrackDirection)
  (startHeight endHeight tickOffset : R) : list canvasOp :=
  let p1 := chainStart startX startY direction startHeight in
  let p2 := chainEnd startX startY direction endHeight in
  let numLinks := Z.to_nat (floor (chainLength / linkSpacing)) in
  [setFillStyle "#1f2937"]
  ++ flat_map
       (fun i =>
          let t := linkParam tickOffset i in
          if Rgt_dec t 1 then []
          else
            let linkX := px p1 + (px p2 - px p1) * t in
            let linkY := py p1 + (py p2 - py p1) * t in
            [beginPath; arc linkX linkY (75 / 100) 0 (PI * 2); fill])
       (seq 0 (S numLinks)).

(** The centres of the link marks, in drawing order. *)
Fixpoint linkPositions (ops : list canvasOp) : list Point :=
  match ops with
  | [] => []
  | arc x y _ _ _ :: ops' => mkPoint x y :: linkPositions ops'
  | _ :: ops' => linkPositions ops'
  end.

(** ** Reading a trace *)

(** The vertices of the paths of a trace, in order. *)
Fixpoint pathPoints (ops : list canvasOp) : list Point :=
  match ops with
  | [] => []
  | moveTo x y :: ops' => mkPoint x y :: pathPoints ops'
  | lineTo x y :: ops' => mkPoint x y :: pathPoints ops'
  | _ :: ops' => pathPoints ops'
  end.

(** The stroke style a support lattice leaves behind (lines 614 and 761:
    [COLORS.woodMain], [COLORS.metalMain]). *)
Definition supportLeaves (s : StrutStyle) : string :=
  match s with
  | wood => "#8B4513"
  | metal => "#4A5568"
  end.

(** The paths stroked while the stroke style is [style], each as the list
    of its vertices; [cur] is the style and [path] the current path on
    entry.  A support lattice begins paths of its own. *)
Fixpoint strokedPaths (style cur : string) (path : list Point)
  (ops : list canvasOp) : list (list Point) :=
  match ops with
  | [] => []
  | setStrokeStyle c :: ops' => strokedPaths style c path ops'
  | beginPath :: ops' => strokedPaths style cur [] ops'
  | moveTo x y :: ops' => strokedPaths style cur (path ++ [mkPoint x y]) ops'
  | lineTo x y :: ops' => strokedPaths style cur (path ++ [mkPoint x y]) ops'
  | stroke :: ops' =>
      (if String.eqb cur style then [path] else [])
      ++ strokedPaths style cur path ops'
  | supportFrame s _ _ _ _ _ :: ops' =>
      strokedPaths style (supportLeaves s) [] ops'
  | _ :: ops' => strokedPaths style cur path ops'
  end.

(** The number of [stroke] calls made while the stroke style is [style]. *)
Definition strokesIn (style cur : string) (ops : list canvasOp) : nat :=
  List.length (strokedPaths style cur [] ops).

(** The support lattices of a trace. *)
Fixpoint supports (ops : list canvasOp) : list canvasOp :=
  match ops with
  | [] => []
  | supportFrame s x g h qx qy :: ops' =>
      supportFrame s x g h qx qy :: supports ops'
  | _ :: ops' => supports ops'
  end.

(** ** Adjoining segments *)

Definition opposite (d : TrackDirection) : TrackDirection :=
  match d with
  | north => south
  | east => west
  | south => north
  | west => east
  end.

(** Modelled from the spec: the table from a direction to the next grid
    cell is not under src/.  The next cell in direction [d] is the unit
    grid step whose displacement on screen, under [gridToScreen], points
    into the quadrant of [DIRECTIONS d] (lemma [step_along_DIRECTIONS]). *)
Definition step (d : TrackDirection) (gridX gridY : R) : R * R :=
  match d with
  | north => (gridX - 1, gridY)
  | east => (gridX, gridY - 1)
  | south => (gridX + 1, gridY)
  | west => (gridX, gridY + 1)
  end.

(** A segment as one of the three edge-to-edge renderers draws it. *)
Inductive Segment : Type :=
| Straight (direction : TrackDirection)
| Curved (startDir : TrackDirection) (turnRight : bool)
| Slope (direction : TrackDirection).

(** The side of the tile a segment leaves through. *)
Definition exitSide (s : Segment) : TrackDirection :=
  match s with
  | Straight direction => direction
  | Curved north turnRight => if turnRight then east else west
  | Curved south turnRight => if turnRight then west else east
  | Curved east turnRight => if turnRight then south else north
  | Curved west turnRight => if turnRight then north else south
  | Slope direction => direction
  end.

(** The side of the tile a segment comes in through. *)
Definition entrySide (s : Segment) : TrackDirection :=
  match s with
  | Straight direction => opposite direction
  | Curved startDir _ => startDir
  | Slope direction => opposite direction
  end.

(** The two rail end points the renderer of [s] computes for the tile at
    [(startX, startY)], entry first: [fromEdge] and [toEdge] of
    [drawCurvedTrack]; [(x1, y1)] and [(x2, y2)] of [drawSlopeTrack] with
    both heights equal to [height]; [fromEdge] and [toEdge] of
    [drawStraightTrack], which draws a track leaving north or east from
    its exit to its entry. *)
Definition segmentEnds (s : Segment) (startX startY height : R)
  : Point * Point :=
  match s with
  | Straight direction =>
      let '(fromEdge, toEdge, _) :=
        straightEnds (straightAnchors startX startY height) direction in
      match direction with
      | north | east => (toEdge, fromEdge)
      | south | west => (fromEdge, toEdge)
      end
  | Curved startDir turnRight =>
      curvedEnds (curvedAnchors startX startY height) startDir turnRight
  | Slope direction =>
      let '(fromEdge, toEdge, _) :=
        slopeEnds (slopeAnchors startX startY) direction in
      (mkPoint (px fromEdge) (py fromEdge - height * HEIGHT_UNIT),
       mkPoint (px toEdge) (py toEdge - height * HEIGHT_UNIT))
  end.

Definition entryAnchor (s : Segment) (startX startY height : R) : Point :=
  fst (segmentEnds s startX startY height).

Definition exitAnchor (s : Segment) (startX startY height : R) : Point :=
  snd (segmentEnds s startX startY height).

(** ** The tile at the origin *)

(** The value lines 156-157 reach for a track running north-south:
    [eastEdge - westEdge], which is [(32, -19.2)] on every tile, over its
    length. *)
Definition originPerp : Point :=
  mkPoint (32 / hypot 32 (96 / 5)) (- (96 / 5) / hypot 32 (96 / 5)).

(** * The curved renderer in double arithmetic *)

From Stdlib Require PrimFloat FloatOps FloatAxioms Uint63.

(** The degenerate case of the perpendicular is a matter of the numbers
    the code really computes with, so [drawCurvedTrack] is embedded a
    second time, on binary64 numbers: [float] with its [+], [-], [*], [/]
    and [sqrt] is the IEEE 754 arithmetic of a JavaScript [number] and of
    [Math.sqrt], and a decimal literal denotes the nearest double in both.
    The expressions keep the source's order of evaluation.  A division by
    zero is total here: it yields [nan] or an infinity. *)
Module Double.

Import PrimFloat.
#[local] Set Warnings "-inexact-float".

Definition TILE_WIDTH : float := 64.
Definition HEIGHT_RATIO : float := 0.60.
Definition TILE_HEIGHT : float := (TILE_WIDTH * HEIGHT_RATIO)%float.
Definition TRACK_WIDTH : float := 8.
Definition RAIL_WIDTH : float := 2.
Definition TIE_LENGTH : float := 12.
Definition HEIGHT_UNIT : float := 20.

Record Point : Type := mkPoint { px : float; py : float }.

Record Anchors : Type := mkAnchors {
  northEdge : Point;
  eastEdge : Point;
  southEdge : Point;
  westEdge : Point;
  center : Point
}.

(** The calls on the 2D context; [drawSupport] is the call of line 264,
    with its arguments ([undefined] for the perpendicular left out). *)
Inductive canvasOp : Type :=
| setStrokeStyle (c : string)
| setLineWidth (w : float)
| setLineCap (c : LineCap)
| beginPath
| moveTo (x y : float)
| lineTo (x y : float)
| stroke
| drawSupport (x groundY height : float) (strutStyle : StrutStyle).

(** The number of a loop index. *)
Definition index (i : nat) : float := of_uint63 (Uint63.of_Z (Z.of_nat i)).

(** Lines 51-55. *)
Definition gridToScreen (gridX gridY : float) : Point :=
  let x := ((gridX - gridY) * (TILE_WIDTH / 2))%float in
  let y := ((gridX + gridY) * (TILE_HEIGHT / 2))%float in
  mkPoint x y.

(** Lines 226-235. *)
Definition curvedAnchors (startX startY height : float) : Anchors :=
  let w := TILE_WIDTH in
  let h := TILE_HEIGHT in
  let heightOffset := (height * HEIGHT_UNIT)%float in
  mkAnchors
    (mkPoint (startX + w * 0.25) (startY + h * 0.25 - heightOffset))
    (mkPoint (startX + w * 0.75) (startY + h * 0.25 - heightOffset))
    (mkPoint (startX + w * 0.75) (startY + h * 0.75 - heightOffset))
    (mkPoint (startX + w * 0.25) (startY + h * 0.75 - heightOffset))
    (mkPoint (startX + w / 2) (startY + h / 2 - heightOffset)).

(** Lines 242-254. *)
Definition curvedEnds (a : Anchors) (startDir : TrackDirection)
  (turnRight : bool) : Point * Point :=
  match startDir with
  | north => (northEdge a, if turnRight then eastEdge a else westEdge a)
  | south => (southEdge a, if turnRight then westEdge a else eastEdge a)
  | east => (eastEdge a, if turnRight then southEdge a else northEdge a)
  | west => (westEdge a, if turnRight then northEdge a else southEdge a)
  end.

(** Lines 260-263, 275-279 and 309-315. *)
Definition quadraticPoint (fromEdge ctrl toEdge : Point) (t : float) : Point :=
  let u := (1 - t)%float in
  mkPoint
    (u * u * px fromEdge + 2 * u * t * px ctrl + t * t * px toEdge)
    (u * u * py fromEdge + 2 * u * t * py ctrl + t * t * py toEdge).

(** Lines 281-284 and 318-321. *)
Definition quadraticTangent (fromEdge ctrl toEdge : Point) (t : float)
  : Point :=
  mkPoint
    (2 * (1 - t) * (px ctrl - px fromEdge) + 2 * t * (px toEdge - px ctrl))
    (2 * (1 - t) * (py ctrl - py fromEdge) + 2 * t * (py toEdge - py ctrl)).

(** Lines 285-287 and 322-324: no test on [len]. *)
Definition quadraticPerp (fromEdge ctrl toEdge : Point) (t : float) : Point :=
  let tangent := quadraticTangent fromEdge ctrl toEdge t in
  let len := sqrt (px tangent * px tangent + py tangent * py tangent) in
  let perpX := (- py tangent / len)%float in
  let perpY := (px tangent / len)%float in
  mkPoint perpX perpY.

(** Lines 256-265. *)
Definition curvedSupport (fromEdge ctrl toEdge : Point) (height : float)
  (strutStyle : StrutStyle) : list canvasOp :=
  let heightOffset := (height * HEIGHT_UNIT)%float in
  if ltb 0 height
  then
    let midT := 0.5%float in
    let curveMid := quadraticPoint fromEdge ctrl toEdge midT in
    [drawSupport (px curveMid) (py curveMid + heightOffset) height strutStyle]
  else [].

(** Lines 267-293. *)
Definition curvedTies (fromEdge ctrl toEdge : Point) : list canvasOp :=
  let numTies := 4%nat in
  [setStrokeStyle COLORS_tie; setLineWidth 3]
  ++ flat_map
       (fun i =>
          let t := (index i / index numTies)%float in
          let pt := quadraticPoint fromEdge ctrl toEdge t in
          let perp := quadraticPerp fromEdge ctrl toEdge t in
          [ beginPath;
            moveTo (px pt - px perp * TIE_LENGTH / 2)
                   (py pt - py perp * TIE_LENGTH / 2);
            lineTo (px pt + px perp * TIE_LENGTH / 2)
                   (py pt + py perp * TIE_LENGTH / 2);
            stroke ])
       (seq 0 (S numTies)).

(** Lines 304-337: one rail, [side] being [-1] or [1]. *)
Definition curvedRail (fromEdge ctrl toEdge : Point) (side : float)
  : list canvasOp :=
  let railOffset := (TRACK_WIDTH / 2)%float in
  let segments := 16%nat in
  [beginPath]
  ++ map
       (fun i =>
          let t := (index i / index segments)%float in
          let pt := quadraticPoint fromEdge ctrl toEdge t in
          let perp := quadraticPerp fromEdge ctrl toEdge t in
          let rx := (px pt + px perp * railOffset * side)%float in
          let ry := (py pt + py perp * railOffset * side)%float in
          if Nat.eqb i 0 then moveTo rx ry else lineTo rx ry)
       (seq 0 (S segments))
  ++ [stroke].

Definition drawCurvedTrack (startX startY : float) (startDir : TrackDirection)
  (turnRight : bool) (height : float) (trackColor : string)
  (strutStyle : StrutStyle) : list canvasOp :=
  let a := curvedAnchors startX startY height in
  let '(fromEdge, toEdge) := curvedEnds a startDir turnRight in
  curvedSupport fromEdge (center a) toEdge height strutStyle
  ++ curvedTies fromEdge (center a) toEdge
  ++ [setStrokeStyle trackColor; setLineWidth RAIL_WIDTH; setLineCap round]
  ++ curvedRail fromEdge (center a) toEdge (-1)
  ++ curvedRail fromEdge (center a) toEdge 1.

(** The coordinates handed to [moveTo] and [lineTo]. *)
Fixpoint coordinates (ops : list canvasOp) : list float :=
  match ops with
  | [] => []
  | moveTo x y :: ops' => x :: y :: coordinates ops'
  | lineTo x y :: ops' => x :: y :: coordinates ops'
  | _ :: ops' => coordinates ops'
  end.

End Double.

(** * The rest of [trackDrawing.ts] *)

(** [Math.ceil]. *)
Definition ceil (x : R) : Z := (- Zfloor (- x))%Z.

(** ** Cubic Bezier helpers (lines 77-99) *)

Definition bezierPoint (p0 p1 p2 p3 : Point) (t : R) : Point :=
  let u := 1 - t in
  let tt := t * t in
  let uu := u * u in
  let uuu := uu * u in
  let ttt := tt * t in
  mkPoint
    (uuu * px p0 + 3 * uu * t * px p1 + 3 * u * tt * px p2 + ttt * px p3)
    (uuu * py p0 + 3 * uu * t * py p1 + 3 * u * tt * py p2 + ttt * py p3).

Definition bezierTangent (p0 p1 p2 p3 : Point) (t : R) : Point :=
  let u := 1 - t in
  let tt := t * t in
  let uu := u * u in
  mkPoint
    (3 * uu * (px p1 - px p0) + 6 * u * t * (px p2 - px p1)
     + 3 * tt * (px p3 - px p2))
    (3 * uu * (py p1 - py p0) + 6 * u * t * (py p2 - py p1)
     + 3 * tt * (py p3 - py p2)).

(** ** The support lattices in full *)

(** The other entries of [COLORS] (lines 34-43). *)
Definition COLORS_woodMain : string := "#8B4513".
Definition COLORS_woodDark : string := "#5D3A1A".
Definition COLORS_woodLight : string := "#A0522D".
Definition COLORS_woodAccent : string := "#654321".
Definition COLORS_metalMain : string := "#4A5568".
Definition COLORS_metalDark : string := "#2D3748".
Definition COLORS_metalLight : string := "#718096".
Definition COLORS_metalRivet : string := "#1A202C".

(** The corners of the two columns of a lattice. *)
Record Frame : Type := mkFrame {
  leftBaseX : R;
  leftBaseY : R;
  leftTopX : R;
  leftTopY : R;
  rightBaseX : R;
  rightBaseY : R;
  rightTopX : R;
  rightTopY : R
}.

(** One straight stroke. *)
Definition strokeLine (x1 y1 x2 y2 : R) : list canvasOp :=
  [beginPath; moveTo x1 y1; lineTo x2 y2; stroke].

(** *** Metal (lines 641-801) *)

(** Lines 642-658: the columns are upright, so the top of a column has
    the [x] of its base. *)
Definition metalFrame (x groundY height perpX perpY : R) : Frame :=
  let columnSpacing := 5 in
  let offsetX := perpX * columnSpacing in
  let offsetY := perpY * columnSpacing in
  let supportHeight := height * HEIGHT_UNIT in
  let leftBaseX := x - offsetX in
  let leftBaseY := groundY - offsetY in
  let leftTopY := leftBaseY - supportHeight in
  let rightBaseX := x + offsetX in
  let rightBaseY := groundY + offsetY in
  let rightTopY := rightBaseY - supportHeight in
  mkFrame leftBaseX leftBaseY leftBaseX leftTopY
          rightBaseX rightBaseY rightBaseX rightTopY.

(** Line 704. *)
Definition metalNumBraces (height : R) : nat :=
  Z.to_nat (Z.max 1 (floor (height / (15 / 10)))).

(** Lines 707-709 and 728-730: the height of brace [i] on each column. *)
Definition metalBraceY (f : Frame) (numBraces i : nat) : R * R :=
  let t := INR i / INR (numBraces + 1) in
  (leftTopY f + (leftBaseY f - leftTopY f) * t,
   rightTopY f + (rightBaseY f - rightTopY f) * t).

(** Lines 706-751: the body of the loop, for brace [i]. *)
Definition metalBrace (f : Frame) (numBraces i : nat) : list canvasOp :=
  let '(leftBraceY, rightBraceY) := metalBraceY f numBraces i in
  [setStrokeStyle COLORS_metalDark; setLineWidth 2]
  ++ strokeLine (leftBaseX f) leftBraceY (rightBaseX f) rightBraceY
  ++ [setStrokeStyle COLORS_metalMain; setLineWidth (15 / 10)]
  ++ strokeLine (leftBaseX f) leftBraceY (rightBaseX f) rightBraceY
  ++ (if Nat.ltb i numBraces
      then
        let '(nextLeftBraceY, nextRightBraceY) :=
          metalBraceY f numBraces (i + 1) in
        let midX := (leftBaseX f + rightBaseX f) / 2 in
        let midY := (leftBraceY + rightBraceY) / 2 in
        [setStrokeStyle COLORS_metalMain; setLineWidth 1]
        ++ strokeLine midX midY (leftBaseX f) nextLeftBraceY
        ++ strokeLine midX midY (rightBaseX f) nextRightBraceY
      else []).

(** Lines 769-789: one base plate. *)
Definition metalPlate (baseX baseY : R) : list canvasOp :=
  let plateSize := 4 in
  let plateHeight := 2 in
  [ beginPath;
    moveTo baseX baseY;
    lineTo (baseX - plateSize * (5 / 10)) (baseY + plateSize * (3 / 10));
    lineTo baseX (baseY + plateHeight);
    lineTo (baseX + plateSize * (5 / 10)) (baseY + plateSize * (3 / 10));
    closePath;
    fill ].

(** Lines 660-801: what [drawMetalSupport] draws past its guard. *)
Definition metalSupportOps (x groundY height perpX perpY : R)
  : list canvasOp :=
  let f := metalFrame x groundY height perpX perpY in
  let beamWidth := 25 / 10 in
  let numBraces := metalNumBraces height in
  let rivetSize := 1 in
  [setStrokeStyle COLORS_metalDark; setLineWidth (beamWidth + 1);
   setLineCap butt]
  ++ strokeLine (leftBaseX f + 5 / 10) (leftBaseY f + 5 / 10)
       (leftBaseX f + 5 / 10) (leftTopY f + 5 / 10)
  ++ strokeLine (rightBaseX f + 5 / 10) (rightBaseY f + 5 / 10)
       (rightBaseX f + 5 / 10) (rightTopY f + 5 / 10)
  ++ [setStrokeStyle COLORS_metalMain; setLineWidth beamWidth]
  ++ strokeLine (leftBaseX f) (leftBaseY f) (leftBaseX f) (leftTopY f)
  ++ strokeLine (rightBaseX f) (rightBaseY f) (rightBaseX f) (rightTopY f)
  ++ [setStrokeStyle COLORS_metalLight; setLineWidth (8 / 10)]
  ++ strokeLine (leftBaseX f - 8 / 10) (leftBaseY f)
       (leftBaseX f - 8 / 10) (leftTopY f)
  ++ strokeLine (rightBaseX f - 8 / 10) (rightBaseY f)
       (rightBaseX f - 8 / 10) (rightTopY f)
  ++ flat_map (metalBrace f numBraces) (seq 1 numBraces)
  ++ [setStrokeStyle COLORS_metalDark; setLineWidth (25 / 10)]
  ++ strokeLine (leftBaseX f) (leftTopY f) (rightBaseX f) (rightTopY f)
  ++ [setStrokeStyle COLORS_metalMain; setLineWidth 2]
  ++ strokeLine (leftBaseX f) (leftTopY f) (rightBaseX f) (rightTopY f)
  ++ [setFillStyle COLORS_metalDark]
  ++ metalPlate (leftBaseX f) (leftBaseY f)
  ++ metalPlate (rightBaseX f) (rightBaseY f)
  ++ [setFillStyle COLORS_metalRivet;
      beginPath; arc (leftBaseX f) (leftTopY f) rivetSize 0 (PI * 2); fill;
      beginPath; arc (rightBaseX f) (rightTopY f) rivetSize 0 (PI * 2); fill].

(** *** Wood (lines 487-625) *)

(** Lines 488-511: the beams lean inwards, by 0.15 of the offset at the
    top ([leftTopYOffset] and [rightTopYOffset] are the top heights). *)
Definition woodFrame (x groundY height perpX perpY : R) : Frame :=
  let columnSpacing := 6 in
  let offsetX := perpX * columnSpacing in
  let offsetY := perpY * columnSpacing in
  let supportHeight := height * HEIGHT_UNIT in
  let leftBaseX := x - offsetX in
  let leftBaseY := groundY - offsetY in
  let leftTopY := leftBaseY - supportHeight in
  let rightBaseX := x + offsetX in
  let rightBaseY := groundY + offsetY in
  let rightTopY := rightBaseY - supportHeight in
  let leanFactor := 15 / 100 in
  let leftTopX := leftBaseX + offsetX * leanFactor in
  let rightTopX := rightBaseX - offsetX * leanFactor in
  let leftTopYOffset := leftTopY + offsetY * leanFactor in
  let rightTopYOffset := rightTopY - offsetY * leanFactor in
  mkFrame leftBaseX leftBaseY leftTopX leftTopYOffset
          rightBaseX rightBaseY rightTopX rightTopYOffset.

(** Line 559. *)
Definition woodNumSections (height : R) : nat :=
  Z.to_nat (Z.max 2 (ceil (height * (15 / 10)))).

(** Lines 568-576: the point of each beam at parameter [t], left then
    right. *)
Definition woodLevel (f : Frame) (t : R) : Point * Point :=
  (mkPoint (leftBaseX f + (leftTopX f - leftBaseX f) * t)
           (leftBaseY f + (leftTopY f - leftBaseY f) * t),
   mkPoint (rightBaseX f + (rightTopX f - rightBaseX f) * t)
           (rightBaseY f + (rightTopY f - rightBaseY f) * t)).

(** Lines 563-603: the body of the loop, for section [i]. *)
Definition woodSection (f : Frame) (numSections i : nat) : list canvasOp :=
  let t1 := INR i / INR numSections in
  let t2 := INR (i + 1) / INR numSections in
  let '(topLeft, topRight) := woodLevel f t2 in
  let '(bottomLeft, bottomRight) := woodLevel f t1 in
  (if Nat.ltb 0 i
   then
     [setStrokeStyle COLORS_woodAccent; setLineWidth 2]
     ++ strokeLine (px bottomLeft) (py bottomLeft)
          (px bottomRight) (py bottomRight)
   else [])
  ++ [setStrokeStyle COLORS_woodAccent; setLineWidth (15 / 10)]
  ++ strokeLine (px bottomLeft) (py bottomLeft) (px topRight) (py topRight)
  ++ strokeLine (px bottomRight) (py bottomRight) (px topLeft) (py topLeft).

(** Lines 513-620: the strokes of [drawWoodSupport] past its guard, up to
    the fill style of the foundation blocks. *)
Definition woodSupportOps (x groundY height perpX perpY : R)
  : list canvasOp :=
  let f := woodFrame x groundY height perpX perpY in
  let woodWidth := 3 in
  let numSections := woodNumSections height in
  [setStrokeStyle COLORS_woodDark; setLineWidth (woodWidth + 15 / 10);
   setLineCap square]
  ++ strokeLine (leftBaseX f + 5 / 10) (leftBaseY f + 5 / 10)
       (leftTopX f + 5 / 10) (leftTopY f + 5 / 10)
  ++ strokeLine (rightBaseX f + 5 / 10) (rightBaseY f + 5 / 10)
       (rightTopX f + 5 / 10) (rightTopY f + 5 / 10)
  ++ [setStrokeStyle COLORS_woodMain; setLineWidth woodWidth]
  ++ strokeLine (leftBaseX f) (leftBaseY f) (leftTopX f) (leftTopY f)
  ++ strokeLine (rightBaseX f) (rightBaseY f) (rightTopX f) (rightTopY f)
  ++ [setStrokeStyle COLORS_woodLight; setLineWidth 1]
  ++ strokeLine (leftBaseX f - 5 / 10) (leftBaseY f)
       (leftTopX f - 5 / 10) (leftTopY f)
  ++ strokeLine (rightBaseX f - 5 / 10) (rightBaseY f)
       (rightTopX f - 5 / 10) (rightTopY f)
  ++ flat_map (woodSection f numSections) (seq 0 numSections)
  ++ [setStrokeStyle COLORS_woodDark; setLineWidth 3]
  ++ strokeLine (leftTopX f) (leftTopY f) (rightTopX f) (rightTopY f)
  ++ [setStrokeStyle COLORS_woodMain; setLineWidth (25 / 10)]
  ++ strokeLine (leftTopX f) (leftTopY f) (rightTopX f) (rightTopY f)
  ++ [setFillStyle COLORS_woodDark].

(** *** The whole trace *)

(** A call on the context: one of [canvasOp], or [fillRect], which only
    the wooden lattice makes. *)
Inductive ctxCall : Type :=
| call (op : canvasOp)
| fillRect (x y w h : R).

(** Lines 620-624: the two foundation blocks. *)
Definition woodFoundation (f : Frame) : list ctxCall :=
  let blockSize := 3 in
  [ fillRect (leftBaseX f - blockSize / 2) (leftBaseY f - 1) blockSize 3;
    fillRect (rightBaseX f - blockSize / 2) (rightBaseY f - 1) blockSize 3 ].

(** The calls one [supportFrame] stands for. *)
Definition supportCalls (s : StrutStyle) (x groundY height perpX perpY : R)
  : list ctxCall :=
  match s with
  | wood =>
      map call (woodSupportOps x groundY height perpX perpY)
      ++ woodFoundation (woodFrame x groundY height perpX perpY)
  | metal => map call (metalSupportOps x groundY height perpX perpY)
  end.

(** A trace with every lattice written out. *)
Fixpoint expand (ops : list canvasOp) : list ctxCall :=
  match ops with
  | [] => []
  | supportFrame s x groundY height perpX perpY :: ops' =>
      supportCalls s x groundY height perpX perpY ++ expand ops'
  | op :: ops' => call op :: expand ops'
  end.

(** The number of [stroke] calls of a written-out trace. *)
Fixpoint strokeCalls (calls : list ctxCall) : nat :=
  match calls with
  | [] => 0
  | call stroke :: calls' => S (strokeCalls calls')
  | _ :: calls' => strokeCalls calls'
  end.

(** The number of [fill] and [fillRect] calls of a written-out trace. *)
Fixpoint fillCalls (calls : list ctxCall) : nat :=
  match calls with
  | [] => 0
  | call fill :: calls' => S (fillCalls calls')
  | fillRect _ _ _ _ :: calls' => S (fillCalls calls')
  | _ :: calls' => fillCalls calls'
  end.

(** ** The vertical loop in full (lines 826-1007) *)

(** Lines 881-956: the column behind the loop and its braces. *)
Definition loopBrace (centerX centerY radius supportHeight supportWidth : R)
  (isWood : bool) (numBraces i : nat) : list canvasOp :=
  let accentColor := if isWood then COLORS_woodAccent else COLORS_metalMain in
  let braceY := centerY - supportHeight * INR i / INR (numBraces + 1) in
  let braceWidth := radius * (if isWood then 5 / 10 else 4 / 10) in
  [setStrokeStyle accentColor; setLineWidth (if isWood then 2 else 15 / 10)]
  ++ strokeLine (centerX - braceWidth) braceY (centerX + braceWidth) braceY
  ++ (if andb isWood (Nat.ltb i numBraces)
      then
        let nextBraceY :=
          centerY - supportHeight * INR (i + 1) / INR (numBraces + 1) in
        [setStrokeStyle COLORS_woodAccent; setLineWidth (15 / 10)]
        ++ strokeLine (centerX - braceWidth) braceY
             (centerX - supportWidth / 2) nextBraceY
        ++ strokeLine (centerX - supportWidth / 2) braceY
             (centerX - braceWidth) nextBraceY
        ++ strokeLine (centerX + braceWidth) braceY
             (centerX + supportWidth / 2) nextBraceY
        ++ strokeLine (centerX + supportWidth / 2) braceY
             (centerX + braceWidth) nextBraceY
      else []).

Definition loopSupport (centerX centerY radius : R) (strutStyle : StrutStyle)
  : list canvasOp :=
  let isWood := match strutStyle with wood => true | metal => false end in
  let mainColor := if isWood then COLORS_woodMain else COLORS_metalMain in
  let darkColor := if isWood then COLORS_woodDark else COLORS_metalDark in
  let lightColor := if isWood then COLORS_woodLight else COLORS_metalLight in
  let supportWidth := if isWood then 5 else 4 in
  let supportHeight := radius * 2 + 5 in
  let numBraces := if isWood then 5%nat else 3%nat in
  [ setFillStyle mainColor; setStrokeStyle lightColor; setLineWidth 1;
    setFillStyle darkColor;
    beginPath;
    moveTo (centerX - supportWidth / 2 + 5 / 10) (centerY + 5 / 10);
    lineTo (centerX - supportWidth / 2 + 5 / 10)
           (centerY - supportHeight + 5 / 10);
    lineTo (centerX + supportWidth / 2 + 5 / 10)
           (centerY - supportHeight + 5 / 10);
    lineTo (centerX + supportWidth / 2 + 5 / 10) (centerY + 5 / 10);
    closePath;
    fill;
    setFillStyle mainColor;
    beginPath;
    moveTo (centerX - supportWidth / 2) centerY;
    lineTo (centerX - supportWidth / 2) (centerY - supportHeight);
    lineTo (centerX + supportWidth / 2) (centerY - supportHeight);
    lineTo (centerX + supportWidth / 2) centerY;
    closePath;
    fill;
    setStrokeStyle lightColor;
    stroke ]
  ++ flat_map
       (loopBrace centerX centerY radius supportHeight supportWidth isWood
          numBraces)
       (seq 1 numBraces).

(** Lines 963-971: the chord from the loop point of angle [angle] to the
    one [0.05] further. *)
Definition loopChord (centerX centerY radius : R) (dir : Vec) (angle : R)
  : Vec :=
  let pt := getLoopPoint centerX centerY radius dir angle 0 in
  let nextAngle := angle + 5 / 100 in
  let nextPt := getLoopPoint centerX centerY radius dir nextAngle 0 in
  mkVec (px nextPt - px pt) (py nextPt - py pt).

(** Lines 962-983: the crosstie of index [i], drawn when the chord is
    longer than [0.001]. *)
Definition loopTie (centerX centerY radius : R) (dir : Vec) (i : nat)
  : list canvasOp :=
  let numSegments := 32%nat in
  let angle := INR i / INR numSegments * PI * 2 in
  let pt := getLoopPoint centerX centerY radius dir angle 0 in
  let tangent := loopChord centerX centerY radius dir angle in
  let tangentLen := hypot (dx tangent) (dy tangent) in
  if Rgt_dec tangentLen (1 / 1000)
  then
    let tieX := - dy tangent / tangentLen in
    let tieY := dx tangent / tangentLen in
    strokeLine (px pt - tieX * TIE_LENGTH * (4 / 10))
               (py pt - tieY * TIE_LENGTH * (4 / 10))
               (px pt + tieX * TIE_LENGTH * (4 / 10))
               (py pt + tieY * TIE_LENGTH * (4 / 10))
  else [].

(** Lines 959-983: [i] runs over the even indices below 32. *)
Definition loopTies (centerX centerY radius : R) (dir : Vec)
  : list canvasOp :=
  [setStrokeStyle COLORS_tie; setLineWidth 2]
  ++ flat_map (loopTie centerX centerY radius dir)
       (map (fun k => (2 * k)%nat) (seq 0 16)).

Definition drawLoopTrack (startX startY : R) (direction : TrackDirection)
  (loopHeight : R) (trackColor : string) (strutStyle : StrutStyle)
  : list canvasOp :=
  let centerX := startX + TILE_WIDTH / 2 in
  let centerY := startY + TILE_HEIGHT / 2 in
  let radius := loopRadius loopHeight in
  let dir := DIRECTIONS direction in
  loopSupport centerX centerY radius strutStyle
  ++ loopTies centerX centerY radius dir
  ++ loopRails startX startY direction loopHeight trackColor.

(** ** Reading geometry *)

(** A point inside the box with corners [lo] and [hi]. *)
Definition inBox (lo hi p : Point) : Prop :=
  px lo <= px p <= px hi /\ py lo <= py p <= py hi.

(** The perpendicular of the curve at [t] where it is defined. *)
Definition perpAt (fromEdge ctrl toEdge : Point) (t : R) : Point :=
  match quadraticPerp fromEdge ctrl toEdge t with
  | Some p => p
  | None => mkPoint 0 0
  end.

(** The square of the distance between two points. *)
Definition dist2 (p q : Point) : R :=
  (px q - px p) * (px q - px p) + (py q - py p) * (py q - py p).

(** A trace without its support lattices. *)
Fixpoint withoutSupports (ops : list canvasOp) : list canvasOp :=
  match ops with
  | [] => []
  | supportFrame _ _ _ _ _ _ :: ops' => withoutSupports ops'
  | op :: ops' => op :: withoutSupports ops'
  end.

(** The frame of the lattice a [supportFrame] stands for. *)
Definition frameOf (s : StrutStyle) (x groundY height perpX perpY : R)
  : Frame :=
  match s with
  | wood => woodFrame x groundY height perpX perpY
  | metal => metalFrame x groundY height perpX perpY
  end.

(** * The copy-link hook ([useCopyRoomLink], src/unnamed/part_000) *)

From Stdlib Require Import Ascii.

(** The hook keeps the [copied] flag (a React state, updated at once
    here) and the timer handle [timeoutRef.current].  The model adds the
    environment the handler acts on: the timers that are set and not yet
    fired or cleared, the texts passed to [navigator.clipboard.writeText],
    newest first, and the handle the next [setTimeout] returns.  Handles
    are positive numbers, as in a browser, so a handle that is set is
    truthy. *)
Record HookState : Type := mkHook {
  copied : bool;
  timeoutRef : option nat;
  pendingTimers : list nat;
  clipboard : list string;
  nextTimer : nat
}.

Definition initialHook : HookState := mkHook false None [] [] 1.

(** [path.startsWith('/') ? path.slice(1) : path]. *)
Definition normalizedPath (path : string) : string :=
  match path with
  | String "/"%char rest => rest
  | _ => path
  end.

(** The template [`${origin}/${normalizedPath}/${roomCode}`]. *)
Definition roomUrl (origin path roomCode : string) : string :=
  (origin ++ "/" ++ normalizedPath path ++ "/" ++ roomCode)%string.

(** [clearTimeout id]. *)
Definition clearTimeout (id : nat) (timers : list nat) : list nat :=
  List.remove Nat.eq_dec id timers.

(** [handleCopyRoomLink]: [roomCode] is [None] for [null] and
    [undefined]; [hasWindow] is [typeof window !== 'undefined'];
    [hasClipboard] says whether [navigator.clipboard] is defined.  The
    result is [None] when the call throws, which it does at
    [navigator.clipboard.writeText] where there is no clipboard. *)
Definition handleCopyRoomLink (roomCode : option string)
  (path origin : string) (hasWindow hasClipboard : bool) (s : HookState)
  : option HookState :=
  match roomCode with
  | None => Some s
  | Some EmptyString => Some s
  | Some code =>
      if negb hasWindow then Some s
      else
        let url := roomUrl origin path code in
        if negb hasClipboard then None
        else
          let timers :=
            match timeoutRef s with
            | Some id => clearTimeout id (pendingTimers s)
            | None => pendingTimers s
            end in
          Some (mkHook true (Some (nextTimer s)) (nextTimer s :: timers)
                  (url :: clipboard s) (S (nextTimer s)))
  end.

(** The callback of the timer [id] runs, if the timer is still set. *)
Definition timerFires (id : nat) (s : HookState) : HookState :=
  if in_dec Nat.eq_dec id (pendingTimers s)
  then mkHook false None (clearTimeout id (pendingTimers s)) (clipboard s)
         (nextTimer s)
  else s.

(** The cleanup of the effect, run when the component unmounts. *)
Definition unmount (s : HookState) : HookState :=
  match timeoutRef s with
  | Some id =>
      mkHook (copied s) (timeoutRef s) (clearTimeout id (pendingTimers s))
        (clipboard s) (nextTimer s)
  | None => s
  end.

Inductive HookEvent : Type :=
| CopyClicked (roomCode : option string) (path origin : string)
    (hasWindow hasClipboard : bool)
| TimerFired (id : nat).

(** One event of a mounted component; a handler that throws leaves the
    state as it was. *)
Definition hookStep (s : HookState) (e : HookEvent) : HookState :=
  match e with
  | CopyClicked roomCode path origin hasWindow hasClipboard =>
      match handleCopyRoomLink roomCode path origin hasWindow hasClipboard s
      with
      | Some s' => s'
      | None => s
      end
  | TimerFired id => timerFires id s
  end.

Definition hookRun (events : list HookEvent) : HookState :=
  fold_left hookStep events initialHook.

(** What every reachable state of the hook satisfies: the only timer
    that is set is the one [timeoutRef] holds, and [copied] is true
    exactly while it is set. *)
Definition hookInvariant (s : HookState) : Prop :=
  pendingTimers s
  = match timeoutRef s with Some id => [id] | None => [] end
  /\ (copied s = true <-> timeoutRef s <> None).

(** * Properties *)

(** The constants of the tile, unfolded before linear arithmetic. *)
Create HintDb tile.
#[global] Hint Unfold TILE_HEIGHT TILE_WIDTH HEIGHT_RATIO HEIGHT_UNIT : tile.

(** ** Arithmetic helpers *)

Lemma sqrt_between (a b x : R) :
  0 <= a -> 0 <= b -> a * a <= x < b * b -> a <= sqrt x < b.
Proof.
  intros Ha Hb [Hl Hu].
  assert (Hx : 0 <= x) by nra.
  split.
  - rewrite <- (sqrt_square a Ha). now apply sqrt_le_1; nra.
  - rewrite <- (sqrt_square b Hb). apply sqrt_lt_1; nra.
Qed.

Lemma hypot_pos (a b : R) : a <> 0 \/ b <> 0 -> 0 < hypot a b.
Proof.
  intros H. unfold hypot. apply sqrt_lt_R0.
  destruct H as [H | H]; nra.
Qed.

Lemma hypot_sqr (a b : R) : hypot a b * hypot a b = a * a + b * b.
Proof. unfold hypot. apply sqrt_sqrt. nra. Qed.

Lemma fdiv_defined (a b : R) : b <> 0 -> fdiv a b = Some (a / b).
Proof.
  intros Hb. unfold fdiv. destruct (Req_dec_T b 0) as [E | _]; [contradiction | reflexivity].
Qed.

Lemma fdiv_zero (a : R) : fdiv a 0 = None.
Proof.
  unfold fdiv. destruct (Req_dec_T 0 0) as [_ | N]; [reflexivity | now elim N].
Qed.

Lemma point_eq (x1 y1 x2 y2 : R) :
  x1 = x2 -> y1 = y2 -> mkPoint x1 y1 = mkPoint x2 y2.
Proof. intros -> ->. reflexivity. Qed.

Ltac points_eq :=
  repeat match goal with
         | |- _ :: _ = _ :: _ => apply (f_equal2 cons)
         | |- mkPoint _ _ = mkPoint _ _ => apply point_eq
         | |- @nil _ = @nil _ => reflexivity
         end.

(** ** The projector and the anchors *)

(** The step of [step d] moves the tile origin into the screen quadrant
    of [DIRECTIONS d]. *)
Lemma step_along_DIRECTIONS (d : TrackDirection) (gridX gridY : R) :
  let next := step d gridX gridY in
  let o1 := gridToScreen gridX gridY in
  let o2 := gridToScreen (fst next) (snd next) in
  0 < dx (DIRECTIONS d) * (px o2 - px o1)
  /\ 0 < dy (DIRECTIONS d) * (py o2 - py o1).
Proof.
  destruct d; cbn; autounfold with tile; split; lra.
Qed.

Example gridToScreen_south_cell : gridToScreen 1 0 = mkPoint 32 (96 / 5).
Proof. unfold gridToScreen. autounfold with tile. apply point_eq; lra. Qed.

Example gridToScreen3D_raised :
  gridToScreen3D 1 1 2 = mkPoint 0 (- (8 / 5)).
Proof.
  unfold gridToScreen3D, gridToScreen; cbn [px py]. autounfold with tile.
  apply point_eq; lra.
Qed.

(** The end points of a straight or curved segment are the anchors of its
    entry and exit sides. *)
Lemma segmentEnds_straight (d : TrackDirection) (startX startY height : R) :
  segmentEnds (Straight d) startX startY height
  = (edge (straightAnchors startX startY height) (opposite d),
     edge (straightAnchors startX startY height) d).
Proof. destruct d; reflexivity. Qed.

Lemma segmentEnds_curved (d : TrackDirection) (turnRight : bool)
  (startX startY height : R) :
  segmentEnds (Curved d turnRight) startX startY height
  = (edge (curvedAnchors startX startY height) (entrySide (Curved d turnRight)),
     edge (curvedAnchors startX startY height) (exitSide (Curved d turnRight))).
Proof. destruct d, turnRight; reflexivity. Qed.

(** C1. Edge continuity: when a segment leaves its tile through one side
    and the segment of the next cell in that direction comes in through
    the facing side, the exit point the first renderer computes and the
    entry point the second renderer computes are the same screen point,
    for the straight, curved and sloped renderers, every direction and
    every common height, the tile origins being those of [gridToScreen]. *)
Theorem edge_continuity (s1 s2 : Segment) (gridX gridY height : R) :
  entrySide s2 = opposite (exitSide s1) ->
  let o1 := gridToScreen gridX gridY in
  let next := step (exitSide s1) gridX gridY in
  let o2 := gridToScreen (fst next) (snd next) in
  exitAnchor s1 (px o1) (py o1) height = entryAnchor s2 (px o2) (py o2) height.
Proof.
  intros H.
  destruct s1 as [d1 | d1 [|] | d1], s2 as [d2 | d2 [|] | d2];
    destruct d1, d2; try discriminate H;
    cbn; autounfold with tile;
    apply point_eq; lra.
Qed.

Lemma edge_continuity_witness :
  exitAnchor (Straight south)
    (px (gridToScreen 2 3)) (py (gridToScreen 2 3)) 1
  = entryAnchor (Curved north true)
      (px (gridToScreen (2 + 1) 3)) (py (gridToScreen (2 + 1) 3)) 1.
Proof.
  exact (edge_continuity (Straight south) (Curved north true) 2 3 1 eq_refl).
Defined.

(** ** The quadratic curve *)

(** C7. Quadratic curve endpoint exactness: at [t = 0] the curve point is
    [fromEdge] and at [t = 1] it is [toEdge], whatever the three control
    points. *)
Theorem quadraticPoint_endpoints (fromEdge ctrl toEdge : Point) :
  quadraticPoint fromEdge ctrl toEdge 0 = fromEdge
  /\ quadraticPoint fromEdge ctrl toEdge 1 = toEdge.
Proof.
  destruct fromEdge as [fx fy], ctrl as [cx cy], toEdge as [tx ty].
  unfold quadraticPoint; cbn [px py].
  split; apply point_eq; ring.
Qed.

Example quadraticPoint_half :
  quadraticPoint (mkPoint 16 (48 / 5)) (mkPoint 32 (96 / 5))
    (mkPoint 48 (48 / 5)) (5 / 10)
  = mkPoint 32 (72 / 5).
Proof. unfold quadraticPoint; cbn [px py]. apply point_eq; lra. Qed.

(** ** The loop *)

Lemma loop_angle_first : INR 0 / INR 32 * PI * 2 = 0.
Proof. cbn [INR]. lra. Qed.

Lemma loop_angle_last : INR 32 / INR 32 * PI * 2 = 2 * PI.
Proof.
  assert (H : INR 32 <> 0) by (apply not_0_INR; discriminate).
  field. exact H.
Qed.

Lemma getLoopPoint_period (centerX centerY radius : R) (dir : Vec)
  (railSide : R) :
  getLoopPoint centerX centerY radius dir (2 * PI) railSide
  = getLoopPoint centerX centerY radius dir 0 railSide.
Proof.
  unfold getLoopPoint. now rewrite sin_2PI, cos_2PI, sin_0, cos_0.
Qed.

(** One rail of the loop: 33 vertices, the first and the last at the same
    point, the loop point of angle 0. *)
Lemma loopRail_closed (startX startY : R) (direction : TrackDirection)
  (loopHeight railSide : R) :
  let pts := pathPoints (loopRail startX startY direction loopHeight railSide) in
  List.length pts = 33%nat
  /\ exists p : Point,
       nth_error pts 0 = Some p
       /\ nth_error pts 32 = Some p
       /\ p = getLoopPoint (startX + TILE_WIDTH / 2) (startY + TILE_HEIGHT / 2)
                (loopRadius loopHeight) (DIRECTIONS direction) 0 railSide.
Proof.
  unfold loopRail.
  cbn [seq map app pathPoints Nat.eqb List.length nth_error].
  split; [reflexivity |].
  eexists. split; [reflexivity |]. split.
  - cbn [px py]. unfold loopRailPoint.
    rewrite loop_angle_first, loop_angle_last, getLoopPoint_period.
    destruct (getLoopPoint _ _ _ _ 0 railSide); reflexivity.
  - unfold loopRailPoint. rewrite loop_angle_first.
    destruct (getLoopPoint _ _ _ _ 0 railSide); reflexivity.
Qed.

(** The two paths the rail section strokes are the two rails, left
    ([-1]) first. *)
Lemma loopRails_paths (startX startY : R) (direction : TrackDirection)
  (loopHeight : R) (trackColor cur : string) :
  strokedPaths trackColor cur []
    (loopRails startX startY direction loopHeight trackColor)
  = [ pathPoints (loopRail startX startY direction loopHeight (-1));
      pathPoints (loopRail startX startY direction loopHeight 1) ].
Proof.
  unfold loopRails, loopRail.
  cbn [seq map app strokedPaths pathPoints Nat.eqb].
  rewrite String.eqb_refl. reflexivity.
Qed.

(** C8. Loop closure: for every direction and every loop height, the rail
    section of the loop strokes two polylines, and each of them has 33
    vertices of which the first (angle 0) and the last (angle 2 PI) are the
    same point. *)
Theorem loop_closure (startX startY : R) (direction : TrackDirection)
  (loopHeight : R) (trackColor cur : string) :
  exists left right : list Point,
    strokedPaths trackColor cur []
      (loopRails startX startY direction loopHeight trackColor)
    = [left; right]
    /\ (List.length left = 33%nat
        /\ exists p : Point,
             nth_error left 0 = Some p /\ nth_error left 32 = Some p)
    /\ (List.length right = 33%nat
        /\ exists p : Point,
             nth_error right 0 = Some p /\ nth_error right 32 = Some p).
Proof.
  do 2 eexists. split; [apply loopRails_paths |].
  split.
  - destruct (loopRail_closed startX startY direction loopHeight (-1))
      as [Hlen [p [H0 [H32 _]]]].
    split; [exact Hlen | exists p; split; assumption].
  - destruct (loopRail_closed startX startY direction loopHeight 1)
      as [Hlen [p [H0 [H32 _]]]].
    split; [exact Hlen | exists p; split; assumption].
Qed.

(** ** The straight track *)

Lemma axisPerp_defined (a b : Point) :
  px a <> px b \/ py a <> py b ->
  axisPerp a b
  = Some (mkPoint ((px a - px b) / hypot (px a - px b) (py a - py b))
                  ((py a - py b) / hypot (px a - px b) (py a - py b))).
Proof.
  intros H.
  assert (Hh : hypot (px a - px b) (py a - py b) <> 0).
  { apply Rgt_not_eq, Rlt_gt, hypot_pos. destruct H; [left | right]; lra. }
  unfold axisPerp. rewrite !fdiv_defined by exact Hh. reflexivity.
Qed.

(** The length of a straight segment does not depend on the tile: it is
    [hypot 32 19.2], between 37 and 38. *)
Lemma straight_length (startX startY height : R) (direction : TrackDirection) :
  let '(fromEdge, toEdge, _) :=
    straightEnds (straightAnchors startX startY height) direction in
  37 < hypot (px toEdge - px fromEdge) (py toEdge - py fromEdge) < 38.
Proof.
  destruct direction; cbn; unfold hypot, TILE_HEIGHT, TILE_WIDTH, HEIGHT_RATIO;
    match goal with
    | |- _ < sqrt ?x < _ =>
        assert (H : 1369 < x < 1444) by (split; nra);
        destruct (sqrt_between 37 38 x) as [H1 H2]; try lra;
        assert (H3 : sqrt x <> 37);
        [ intros E; assert (Hs := sqrt_sqrt x ltac:(lra)); rewrite E in Hs; lra
        | lra ]
    end.
Qed.

Lemma straightNumTies_tile (startX startY height : R)
  (direction : TrackDirection) :
  let '(fromEdge, toEdge, _) :=
    straightEnds (straightAnchors startX startY height) direction in
  straightNumTies fromEdge toEdge = 4%nat.
Proof.
  assert (H := straight_length startX startY height direction).
  destruct (straightEnds _ direction) as [[fromEdge toEdge] perp].
  unfold straightNumTies, floor.
  rewrite (Zfloor_eq 4); [reflexivity |].
  unfold TIE_SPACING. split; lra.
Qed.

Lemma straightEnds_perp (startX startY height : R) (direction : TrackDirection) :
  exists perp : Point,
    snd (straightEnds (straightAnchors startX startY height) direction)
    = Some perp.
Proof.
  destruct direction; cbn [straightEnds snd];
    rewrite axisPerp_defined; eauto;
    left; cbn; autounfold with tile; lra.
Qed.

(** The trace of [drawStraightTrack]: it is always defined, and the
    context strokes five paths in the tie colour. *)
Lemma straight_trace (startX startY : R) (direction : TrackDirection)
  (height : R) (trackColor : string) (strutStyle : StrutStyle) (cur : string) :
  trackColor <> COLORS_tie ->
  exists ops : list canvasOp,
    drawStraightTrack startX startY direction height trackColor strutStyle
    = Some ops
    /\ strokesIn COLORS_tie cur ops = 5%nat.
Proof.
  intros Hc.
  assert (Hn := straightNumTies_tile startX startY height direction).
  destruct (straightEnds_perp startX startY height direction) as [perp Hp].
  unfold drawStraightTrack.
  destruct (straightEnds _ direction) as [[fromEdge toEdge] operp].
  cbn [snd] in Hp. subst operp. cbn [obind].
  eexists. split; [reflexivity |].
  unfold straightTies. rewrite Hn. unfold straightRails, strokesIn.
  apply String.eqb_neq in Hc.
  destruct (Rgt_dec height 0);
    [ destruct strutStyle;
      unfold drawSupport, drawWoodSupport, drawMetalSupport;
      destruct (Rle_dec height 0) | ];
    cbn [seq flat_map tieStroke app strokedPaths];
    rewrite ?String.eqb_refl, ?Hc; reflexivity.
Qed.

Lemma rail_is_not_tie : COLORS_rail <> COLORS_tie.
Proof. discriminate. Qed.

(** C4 (amended). [drawStraightTrack] strokes one crosstie more than
    [max 3 (floor (segmentLength / TIE_SPACING))]: the ties sit at
    [i / numTies] for [i] from [0] to [numTies] included, one on each
    anchor; for every tile that is five ties.  Crossties are the paths
    stroked in the tie colour, the rails having a colour of their own. *)
Theorem straight_crossties (startX startY : R) (direction : TrackDirection)
  (height : R) (trackColor : string) (strutStyle : StrutStyle) (cur : string) :
  trackColor <> COLORS_tie ->
  exists ops : list canvasOp,
    drawStraightTrack startX startY direction height trackColor strutStyle
    = Some ops
    /\ (let '(fromEdge, toEdge, _) :=
          straightEnds (straightAnchors startX startY height) direction in
        let segmentLength :=
          hypot (px toEdge - px fromEdge) (py toEdge - py fromEdge) in
        strokesIn COLORS_tie cur ops
        = (Z.to_nat (Z.max 3 (floor (segmentLength / TIE_SPACING))) + 1)%nat)
    /\ strokesIn COLORS_tie cur ops = 5%nat.
Proof.
  intros Hc.
  destruct (straight_trace startX startY direction height trackColor
              strutStyle cur Hc) as [ops [Hops Hs]].
  exists ops. split; [exact Hops |]. split; [| exact Hs].
  assert (Hn := straightNumTies_tile startX startY height direction).
  destruct (straightEnds _ direction) as [[fromEdge toEdge] operp].
  unfold straightNumTies in Hn. cbv zeta. rewrite Hn. exact Hs.
Qed.

Lemma straight_crossties_witness :
  exists ops : list canvasOp,
    drawStraightTrack 0 0 south 1 COLORS_rail wood = Some ops
    /\ (let '(fromEdge, toEdge, _) :=
          straightEnds (straightAnchors 0 0 1) south in
        let segmentLength :=
          hypot (px toEdge - px fromEdge) (py toEdge - py fromEdge) in
        strokesIn COLORS_tie EmptyString ops
        = (Z.to_nat (Z.max 3 (floor (segmentLength / TIE_SPACING))) + 1)%nat)
    /\ strokesIn COLORS_tie EmptyString ops = 5%nat.
Proof.
  apply (straight_crossties 0 0 south 1 COLORS_rail wood EmptyString).
  discriminate.
Defined.

(** C4 as stated fails: on the tile at the origin the count of crosstie
    strokes is not [max 3 (floor (segmentLength / TIE_SPACING))]. *)
Lemma straight_crossties_counterexample :
  ~ (exists ops : list canvasOp,
       drawStraightTrack 0 0 south 0 COLORS_rail metal = Some ops
       /\ (let '(fromEdge, toEdge, _) :=
             straightEnds (straightAnchors 0 0 0) south in
           let segmentLength :=
             hypot (px toEdge - px fromEdge) (py toEdge - py fromEdge) in
           strokesIn COLORS_tie EmptyString ops
           = Z.to_nat (Z.max 3 (floor (segmentLength / TIE_SPACING))))).
Proof.
  intros [ops [Hops Hcount]].
  destruct (straight_trace 0 0 south 0 COLORS_rail metal EmptyString
              rail_is_not_tie) as [ops' [Hops' Hs]].
  rewrite Hops in Hops'. injection Hops' as <-.
  assert (Hn := straightNumTies_tile 0 0 0 south).
  destruct (straightEnds _ south) as [[fromEdge toEdge] operp].
  unfold straightNumTies in Hn. cbv zeta in Hcount.
  rewrite Hn, Hs in Hcount. discriminate Hcount.
Qed.

Lemma hypot_opp_r (a b : R) : hypot a (- b) = hypot a b.
Proof. unfold hypot. f_equal. ring. Qed.

Lemma straightAnchors_origin :
  straightAnchors 0 0 0
  = mkAnchors (mkPoint 16 (48 / 5)) (mkPoint 48 (48 / 5))
      (mkPoint 48 (144 / 5)) (mkPoint 16 (144 / 5)) (mkPoint 32 (96 / 5)).
Proof.
  unfold straightAnchors, TILE_HEIGHT, TILE_WIDTH, HEIGHT_RATIO, HEIGHT_UNIT.
  f_equal; apply point_eq; lra.
Qed.

Lemma originPerp_bounds :
  857 / 1000 < px originPerp < 858 / 1000
  /\ - (515 / 1000) < py originPerp < - (514 / 1000).
Proof.
  unfold originPerp; cbn [px py].
  destruct (sqrt_between (373 / 10) (3733 / 100) (32 * 32 + 96 / 5 * (96 / 5)))
    as [Hl Hu]; try lra.
  fold (hypot 32 (96 / 5)) in Hl, Hu.
  set (len := hypot 32 (96 / 5)) in *.
  assert (Hx : 32 / len * len = 32) by (field; lra).
  assert (Hy : - (96 / 5) / len * len = - (96 / 5)) by (field; lra).
  set (qx := 32 / len) in *. set (qy := - (96 / 5) / len) in *.
  split; split; nra.
Qed.

(** The two rails [drawStraightTrack] strokes on the tile at the origin,
    heading south on the ground, with the default colour and style. *)
Lemma straight_south_rails :
  exists ops : list canvasOp,
    drawStraightTrack 0 0 south 0 COLORS_rail metal = Some ops
    /\ strokedPaths COLORS_rail EmptyString [] ops
       = [ [ mkPoint (16 - px originPerp * 4) (48 / 5 - py originPerp * 4);
             mkPoint (48 - px originPerp * 4) (144 / 5 - py originPerp * 4) ];
           [ mkPoint (16 + px originPerp * 4) (48 / 5 + py originPerp * 4);
             mkPoint (48 + px originPerp * 4) (144 / 5 + py originPerp * 4) ] ].
Proof.
  assert (Hn := straightNumTies_tile 0 0 0 south).
  unfold drawStraightTrack.
  rewrite straightAnchors_origin in *.
  cbn [straightEnds northEdge southEdge eastEdge westEdge center] in *.
  rewrite axisPerp_defined by (left; cbn; lra).
  cbn [px py obind].
  replace (48 - 16) with 32 by lra.
  replace (48 / 5 - 144 / 5) with (- (96 / 5)) by lra.
  rewrite hypot_opp_r. fold originPerp.
  eexists. split; [reflexivity |].
  destruct (Rgt_dec 0 0) as [H | _]; [lra |].
  unfold straightTies. rewrite Hn. unfold straightRails.
  cbn [seq flat_map tieStroke app strokedPaths].
  replace (String.eqb COLORS_tie COLORS_rail) with false by reflexivity.
  rewrite String.eqb_refl. cbn [app px py]. unfold TRACK_WIDTH.
  points_eq; lra.
Qed.

(** C2 (amended). On the tile at the origin, heading south on the ground
    with the default colour and style, the north and south edge midpoints
    are [(16, 9.6)] and [(48, 28.8)], and the left rail runs between
    these two points moved by [-4] times the unit vector of
    [eastEdge - westEdge], which is [(32, -19.2) / hypot 32 19.2]: from
    about [(12.57, 11.66)] to about [(44.57, 30.86)]. *)
Theorem straight_south_left_rail :
  northEdge (straightAnchors 0 0 0) = mkPoint 16 (48 / 5)
  /\ southEdge (straightAnchors 0 0 0) = mkPoint 48 (144 / 5)
  /\ exists (ops : list canvasOp) (p1 p2 : Point),
       drawStraightTrack 0 0 south 0 COLORS_rail metal = Some ops
       /\ hd [] (strokedPaths COLORS_rail EmptyString [] ops) = [p1; p2]
       /\ p1 = mkPoint (16 - px originPerp * 4) (48 / 5 - py originPerp * 4)
       /\ p2 = mkPoint (48 - px originPerp * 4) (144 / 5 - py originPerp * 4)
       /\ (1256 / 100 < px p1 < 1258 / 100 /\ 1165 / 100 < py p1 < 1167 / 100)
       /\ (4456 / 100 < px p2 < 4458 / 100 /\ 3085 / 100 < py p2 < 3087 / 100).
Proof.
  rewrite straightAnchors_origin. cbn [northEdge southEdge].
  split; [reflexivity |]. split; [reflexivity |].
  destruct straight_south_rails as [ops [Hops Hpaths]].
  exists ops. do 2 eexists.
  split; [exact Hops |]. rewrite Hpaths. cbn [hd].
  split; [reflexivity |]. split; [reflexivity |]. split; [reflexivity |].
  cbn [px py]. destruct originPerp_bounds as [Hx Hy]. lra.
Qed.

(** C2 as stated fails: the left rail does not run from [(20, 13.6)] to
    [(52, 28.4)]. *)
Lemma straight_south_left_rail_counterexample :
  ~ (exists ops : list canvasOp,
       drawStraightTrack 0 0 south 0 COLORS_rail metal = Some ops
       /\ hd [] (strokedPaths COLORS_rail EmptyString [] ops)
          = [mkPoint 20 (136 / 10); mkPoint 52 (284 / 10)]).
Proof.
  intros [ops [Hops Hrail]].
  destruct straight_south_rails as [ops' [Hops' Hpaths]].
  rewrite Hops in Hops'. injection Hops' as <-.
  rewrite Hpaths in Hrail. cbn [hd] in Hrail.
  destruct originPerp_bounds as [Hb _].
  injection Hrail; intros; lra.
Qed.

(** ** The curved track *)

Lemma quadraticPerp_unit (fromEdge ctrl toEdge perp : Point) (t : R) :
  quadraticPerp fromEdge ctrl toEdge t = Some perp ->
  px perp * px perp + py perp * py perp = 1.
Proof.
  unfold quadraticPerp.
  set (tx := px (quadraticTangent fromEdge ctrl toEdge t)).
  set (ty := py (quadraticTangent fromEdge ctrl toEdge t)).
  unfold fdiv. destruct (Req_dec_T (sqrt (tx * tx + ty * ty)) 0) as [E | N];
    [discriminate |].
  cbn [obind]. intros H. injection H as <-. cbn [px py].
  assert (Hs : sqrt (tx * tx + ty * ty) * sqrt (tx * tx + ty * ty)
               = tx * tx + ty * ty) by (apply sqrt_sqrt; nra).
  set (len := sqrt (tx * tx + ty * ty)) in *.
  replace (- ty / len * (- ty / len) + tx / len * (tx / len))
    with ((tx * tx + ty * ty) / (len * len)) by (field; exact N).
  rewrite <- Hs. field. exact N.
Qed.

Lemma quadraticPerp_defined (fromEdge ctrl toEdge : Point) (t : R) :
  px (quadraticTangent fromEdge ctrl toEdge t) <> 0
  \/ py (quadraticTangent fromEdge ctrl toEdge t) <> 0 ->
  exists perp : Point, quadraticPerp fromEdge ctrl toEdge t = Some perp.
Proof.
  intros H. unfold quadraticPerp.
  rewrite !fdiv_defined; [cbn [obind]; eauto | |];
    apply Rgt_not_eq, Rlt_gt, sqrt_lt_R0; destruct H; nra.
Qed.

Lemma quadraticPerp_degenerate (p : Point) (t : R) :
  quadraticPerp p p p t = None.
Proof.
  unfold quadraticPerp, quadraticTangent; cbn [px py].
  replace (2 * (1 - t) * (px p - px p) + 2 * t * (px p - px p)) with 0 by ring.
  replace (2 * (1 - t) * (py p - py p) + 2 * t * (py p - py p)) with 0 by ring.
  replace (0 * 0 + 0 * 0) with 0 by ring.
  rewrite sqrt_0, fdiv_zero. reflexivity.
Qed.

Lemma forEach_defined (body : nat -> option (list canvasOp)) (l : list nat) :
  (forall i, In i l -> exists ops, body i = Some ops) ->
  exists ops, forEach body l = Some ops.
Proof.
  induction l as [| i l IH]; intros H; cbn [forEach].
  - eauto.
  - destruct (H i (or_introl eq_refl)) as [ops Hops].
    destruct IH as [rest Hrest]; [intros j Hj; apply H; now right |].
    rewrite Hops, Hrest. cbn [obind]. eauto.
Qed.

Lemma supports_app (l1 l2 : list canvasOp) :
  supports (l1 ++ l2) = supports l1 ++ supports l2.
Proof.
  induction l1 as [| op l1 IH]; [reflexivity |].
  destruct op; cbn [app supports]; rewrite ?IH; reflexivity.
Qed.

Lemma forEach_supports (body : nat -> option (list canvasOp)) (l : list nat) :
  (forall i ops, body i = Some ops -> supports ops = []) ->
  forall ops, forEach body l = Some ops -> supports ops = [].
Proof.
  intros Hb. induction l as [| i l IH]; cbn [forEach]; intros ops H.
  - injection H as <-. reflexivity.
  - destruct (body i) as [o |] eqn:Ho; [| discriminate].
    destruct (forEach body l) as [rest |]; [| discriminate].
    cbn [obind] in H. injection H as <-.
    rewrite supports_app, (Hb i o Ho), (IH rest eq_refl). reflexivity.
Qed.

(** The curved renderer on one tile. *)
Section CurvedTile.

Variables (startX startY height : R).
Variables (startDir : TrackDirection) (turnRight : bool).

(** The tangent never vanishes: one of its components is constant,
    [32] or [19.2] up to sign. *)
Lemma curved_tangent (t : R) :
  let a := curvedAnchors startX startY height in
  let '(fromEdge, toEdge) := curvedEnds a startDir turnRight in
  px (quadraticTangent fromEdge (center a) toEdge t) <> 0
  \/ py (quadraticTangent fromEdge (center a) toEdge t) <> 0.
Proof.
  destruct startDir, turnRight; cbn;
    autounfold with tile;
    first [ left; intros E; ring_simplify in E; lra
          | right; intros E; ring_simplify in E; lra ].
Qed.

Lemma curvedTies_defined :
  let a := curvedAnchors startX startY height in
  let '(fromEdge, toEdge) := curvedEnds a startDir turnRight in
  exists ops, curvedTies fromEdge (center a) toEdge = Some ops
              /\ supports ops = [].
Proof.
  cbv zeta.
  assert (Ht := curved_tangent).
  cbv zeta in Ht.
  destruct (curvedEnds _ startDir turnRight) as [fromEdge toEdge].
  unfold curvedTies.
  match goal with
  | |- context [forEach ?b ?l] =>
      destruct (forEach_defined b l) as [ties Hties];
      [ intros i _; destruct (quadraticPerp_defined _ _ _ _ (Ht (INR i / INR 4)))
          as [perp Hperp]; rewrite Hperp; cbn [obind]; eauto
      | rewrite Hties; cbn [obind]; eexists; split; [reflexivity |];
        cbn [app supports];
        apply (forEach_supports b l); [| exact Hties] ]
  end.
  intros i ops. destruct (quadraticPerp _ _ _ _); [| discriminate].
  cbn [obind]. intros H. injection H as <-. reflexivity.
Qed.

Lemma curvedRail_defined (side : R) :
  let a := curvedAnchors startX startY height in
  let '(fromEdge, toEdge) := curvedEnds a startDir turnRight in
  exists ops, curvedRail fromEdge (center a) toEdge side = Some ops
              /\ supports ops = [].
Proof.
  cbv zeta.
  assert (Ht := curved_tangent).
  cbv zeta in Ht.
  destruct (curvedEnds _ startDir turnRight) as [fromEdge toEdge].
  unfold curvedRail.
  match goal with
  | |- context [forEach ?b ?l] =>
      destruct (forEach_defined b l) as [path Hpath];
      [ intros i _; destruct (quadraticPerp_defined _ _ _ _ (Ht (INR i / INR 16)))
          as [perp Hperp]; rewrite Hperp; cbn [obind]; eauto
      | assert (Hs : supports path = []);
        [ apply (forEach_supports b l); [| exact Hpath]
        | rewrite Hpath; cbn [obind]; eexists; split; [reflexivity |];
          cbn [app supports]; rewrite supports_app, Hs; reflexivity ] ]
  end.
  intros i ops. destruct (quadraticPerp _ _ _ _); [| discriminate].
  cbn [obind]. intros H. injection H as <-. destruct (Nat.eqb i 0); reflexivity.
Qed.

Lemma curved_trace (trackColor : string) (strutStyle : StrutStyle) :
  exists ops : list canvasOp,
    drawCurvedTrack startX startY startDir turnRight height trackColor
      strutStyle = Some ops
    /\ (let a := curvedAnchors startX startY height in
        let '(fromEdge, toEdge) := curvedEnds a startDir turnRight in
        supports ops
        = supports (curvedSupport fromEdge (center a) toEdge height strutStyle)).
Proof.
  assert (Ht := curvedTies_defined).
  assert (Hl := curvedRail_defined (-1)).
  assert (Hr := curvedRail_defined 1).
  unfold drawCurvedTrack. cbv zeta in *.
  destruct (curvedEnds _ startDir turnRight) as [fromEdge toEdge].
  destruct Ht as [ties [Ht Hts]], Hl as [left [Hl Hls]], Hr as [right [Hr Hrs]].
  rewrite Ht, Hl, Hr. cbn [obind].
  eexists. split; [reflexivity |].
  rewrite !supports_app, Hts, Hls, Hrs. cbn [supports app].
  now rewrite app_nil_r.
Qed.

End CurvedTile.

Lemma curvedSupport_elevated (fromEdge ctrl toEdge : Point) (height : R)
  (strutStyle : StrutStyle) :
  height > 0 ->
  curvedSupport fromEdge ctrl toEdge height strutStyle
  = [ supportFrame strutStyle
        (px (quadraticPoint fromEdge ctrl toEdge (5 / 10)))
        (py (quadraticPoint fromEdge ctrl toEdge (5 / 10))
         + height * HEIGHT_UNIT)
        height 1 0 ].
Proof.
  intros H. unfold curvedSupport.
  destruct (Rgt_dec height 0) as [_ | N]; [| contradiction].
  destruct strutStyle; unfold drawSupport, drawWoodSupport, drawMetalSupport;
    (destruct (Rle_dec height 0) as [L | _]; [lra | reflexivity]).
Qed.

Lemma drawSupport_elevated (x groundY height : R) (perp : Point)
  (strutStyle : StrutStyle) :
  height > 0 ->
  drawSupport x groundY height (Some perp) strutStyle
  = [supportFrame strutStyle x groundY height (px perp) (py perp)].
Proof.
  intros H.
  destruct strutStyle; unfold drawSupport, drawWoodSupport, drawMetalSupport;
    (destruct (Rle_dec height 0) as [L | _]; [lra | reflexivity]).
Qed.

Lemma supports_ties (f g : nat -> R) (perpX perpY : R) (l : list nat) :
  supports (flat_map (fun i => tieStroke (f i) (g i) perpX perpY) l) = [].
Proof.
  induction l as [| i l IH]; [reflexivity |].
  cbn [flat_map]. rewrite supports_app, IH. reflexivity.
Qed.

Lemma straight_supports (startX startY : R) (direction : TrackDirection)
  (height : R) (trackColor : string) (strutStyle : StrutStyle) :
  height > 0 ->
  exists (ops : list canvasOp) (perp : Point),
    drawStraightTrack startX startY direction height trackColor strutStyle
    = Some ops
    /\ snd (straightEnds (straightAnchors startX startY height) direction)
       = Some perp
    /\ supports ops
       = [ supportFrame strutStyle
             (px (center (straightAnchors startX startY height)))
             (py (center (straightAnchors startX startY height))
              + height * HEIGHT_UNIT)
             height (px perp) (py perp) ].
Proof.
  intros H.
  destruct (straightEnds_perp startX startY height direction) as [perp Hp].
  unfold drawStraightTrack.
  destruct (straightEnds _ direction) as [[fromEdge toEdge] operp].
  cbn [snd] in Hp. subst operp. cbn [obind].
  eexists. exists perp. split; [reflexivity |]. split; [reflexivity |].
  destruct (Rgt_dec height 0) as [_ | N]; [| contradiction].
  rewrite drawSupport_elevated by exact H.
  unfold straightTies.
  rewrite !supports_app, supports_ties. reflexivity.
Qed.

Lemma slopeEnds_perp (startX startY : R) (direction : TrackDirection) :
  exists perp : Point,
    snd (slopeEnds (slopeAnchors startX startY) direction) = Some perp.
Proof.
  destruct direction; cbn [slopeEnds snd];
    rewrite axisPerp_defined; eauto;
    left; cbn; autounfold with tile; lra.
Qed.

Lemma slope_supports (startX startY : R) (direction : TrackDirection)
  (startHeight endHeight : R) (trackColor : string) (strutStyle : StrutStyle) :
  startHeight > 0 -> endHeight > 0 ->
  exists (ops : list canvasOp) (fromEdge toEdge perp : Point),
    drawSlopeTrack startX startY direction startHeight endHeight trackColor
      strutStyle = Some ops
    /\ slopeEnds (slopeAnchors startX startY) direction
       = (fromEdge, toEdge, Some perp)
    /\ supports ops
       = [ supportFrame strutStyle (px fromEdge) (py fromEdge) startHeight
             (px perp) (py perp);
           supportFrame strutStyle (px toEdge) (py toEdge) endHeight
             (px perp) (py perp) ].
Proof.
  intros Hs He.
  destruct (slopeEnds_perp startX startY direction) as [perp Hp].
  unfold drawSlopeTrack.
  destruct (slopeEnds _ direction) as [[fromEdge toEdge] operp].
  cbn [snd] in Hp. subst operp. cbn [obind].
  eexists. exists fromEdge, toEdge, perp.
  split; [reflexivity |]. split; [reflexivity |].
  destruct (Rgt_dec startHeight 0) as [_ | N]; [| contradiction].
  destruct (Rgt_dec endHeight 0) as [_ | N]; [| contradiction].
  rewrite !drawSupport_elevated by assumption.
  unfold slopeTies.
  rewrite !supports_app, supports_ties. reflexivity.
Qed.

(** C6. Tangent non-degeneracy: on every tile, for every entry direction
    and turn, the two edge midpoints and the centre [drawCurvedTrack] takes
    as control points are pairwise distinct, and at every parameter [t]
    (so at each sampled [i / 4] and [i / 16]) the perpendicular is defined
    and has length one. *)
Theorem curved_perp_unit (startX startY height : R) (startDir : TrackDirection)
  (turnRight : bool) (t : R) :
  let a := curvedAnchors startX startY height in
  let '(fromEdge, toEdge) := curvedEnds a startDir turnRight in
  (fromEdge <> toEdge /\ center a <> fromEdge /\ center a <> toEdge)
  /\ exists perp : Point,
       quadraticPerp fromEdge (center a) toEdge t = Some perp
       /\ px perp * px perp + py perp * py perp = 1.
Proof.
  cbv zeta.
  assert (Ht := curved_tangent startX startY height startDir turnRight t).
  cbv zeta in Ht.
  destruct startDir, turnRight; cbn [curvedEnds] in *;
    (split;
     [ cbn; autounfold with tile;
       repeat split; intros E; injection E; intros; lra
     | destruct (quadraticPerp_defined _ _ _ _ Ht) as [perp Hperp];
       exists perp; split; [exact Hperp |];
       exact (quadraticPerp_unit _ _ _ _ _ Hperp) ]).
Qed.

(** Pairwise distinct control points alone would not do: on a line the
    tangent can vanish at a sampled parameter.  The lookup never builds
    such points. *)
Remark collinear_controls_degenerate :
  quadraticPerp (mkPoint 0 0) (mkPoint 1 0) (mkPoint (-2) 0) (1 / 4) = None.
Proof.
  unfold quadraticPerp, quadraticTangent; cbn [px py].
  replace (2 * (1 - 1 / 4) * (1 - 0) + 2 * (1 / 4) * (-2 - 1)) with 0 by lra.
  replace (2 * (1 - 1 / 4) * (0 - 0) + 2 * (1 / 4) * (0 - 0)) with 0 by lra.
  replace (0 * 0 + 0 * 0) with 0 by ring.
  rewrite sqrt_0, fdiv_zero. reflexivity.
Qed.

(** *** The perpendicular in double arithmetic *)

Section DoubleArithmetic.

Import PrimFloat.

(** A double that compares equal to zero is one of the two zeros. *)
Lemma is_zero_cases (x : float) :
  is_zero x = true -> x = 0%float \/ x = (- 0)%float.
Proof.
  unfold is_zero. rewrite FloatAxioms.eqb_spec. intros H.
  rewrite <- (FloatAxioms.SF2Prim_Prim2SF x).
  destruct (FloatOps.Prim2SF x) as [s | s | | s m e];
    try discriminate H; try (destruct s; discriminate H).
  destruct s; [right | left]; reflexivity.
Qed.

(** No fallback in doubles: a zero tangent gives [0 / 0]. *)
Lemma double_perp_zero_tangent (fromEdge ctrl toEdge : Double.Point)
  (t : float) :
  is_zero (Double.px (Double.quadraticTangent fromEdge ctrl toEdge t)) = true ->
  is_zero (Double.py (Double.quadraticTangent fromEdge ctrl toEdge t)) = true ->
  Double.quadraticPerp fromEdge ctrl toEdge t = Double.mkPoint nan nan.
Proof.
  intros Hx Hy. unfold Double.quadraticPerp.
  destruct (is_zero_cases _ Hx) as [-> | ->],
           (is_zero_cases _ Hy) as [-> | ->]; reflexivity.
Qed.

Lemma double_coordinates_app (l1 l2 : list Double.canvasOp) :
  Double.coordinates (l1 ++ l2)
  = (Double.coordinates l1 ++ Double.coordinates l2)%list.
Proof.
  induction l1 as [| op l1 IH]; [reflexivity |].
  destruct op; cbn [app Double.coordinates]; rewrite IH; reflexivity.
Qed.

(** The coordinates do not depend on the colour and the strut style. *)
Lemma double_coordinates_style (startX startY height : float)
  (startDir : TrackDirection) (turnRight : bool) (c c' : string)
  (s s' : StrutStyle) :
  Double.coordinates
    (Double.drawCurvedTrack startX startY startDir turnRight height c s)
  = Double.coordinates
      (Double.drawCurvedTrack startX startY startDir turnRight height c' s').
Proof.
  unfold Double.drawCurvedTrack.
  destruct (Double.curvedEnds _ startDir turnRight) as [fromEdge toEdge].
  rewrite !double_coordinates_app. f_equal.
  unfold Double.curvedSupport. destruct (ltb 0 height); reflexivity.
Qed.

(** Where rounding absorbs the tile offsets the three control points are
    one point and every coordinate drawn is [nan]. *)
Lemma double_far_origin (startDir : TrackDirection) (turnRight : bool)
  (trackColor : string) (strutStyle : StrutStyle) :
  let a := Double.curvedAnchors 1e18 1e18 0 in
  let ops :=
    Double.drawCurvedTrack 1e18 1e18 startDir turnRight 0 trackColor
      strutStyle in
  Double.curvedEnds a startDir turnRight = (Double.center a, Double.center a)
  /\ List.length (Double.coordinates ops) = 88%nat
  /\ forallb is_nan (Double.coordinates ops) = true.
Proof.
  cbv zeta.
  rewrite (double_coordinates_style _ _ _ _ _ trackColor COLORS_rail
             strutStyle metal).
  destruct startDir, turnRight; vm_compute; repeat split; reflexivity.
Qed.

(** On the cells of a small map the doubles behave: every coordinate
    drawn is finite. *)
Lemma double_map_finite (gridX gridY height : nat)
  (startDir : TrackDirection) (turnRight : bool) (trackColor : string)
  (strutStyle : StrutStyle) :
  (gridX < 8)%nat -> (gridY < 8)%nat -> (height < 3)%nat ->
  let origin := Double.gridToScreen (Double.index gridX) (Double.index gridY) in
  forallb is_finite
    (Double.coordinates
       (Double.drawCurvedTrack (Double.px origin) (Double.py origin) startDir
          turnRight (Double.index height) trackColor strutStyle))
  = true.
Proof.
  intros Hx Hy Hh. cbv zeta.
  rewrite (double_coordinates_style _ _ _ _ _ trackColor COLORS_rail
             strutStyle metal).
  assert (All :
    forallb (fun gx => forallb (fun gy => forallb (fun h =>
      forallb (fun d => forallb (fun r =>
        let origin :=
          Double.gridToScreen (Double.index gx) (Double.index gy) in
        forallb is_finite
          (Double.coordinates
             (Double.drawCurvedTrack (Double.px origin) (Double.py origin) d
                r (Double.index h) COLORS_rail metal)))
        [true; false]) [north; east; south; west])
      (seq 0 3)) (seq 0 8)) (seq 0 8) = true)
    by (vm_compute; reflexivity).
  rewrite forallb_forall in All.
  specialize (All gridX (proj2 (in_seq 8 0 gridX) (conj (Nat.le_0_l _) Hx))).
  rewrite forallb_forall in All.
  specialize (All gridY (proj2 (in_seq 8 0 gridY) (conj (Nat.le_0_l _) Hy))).
  rewrite forallb_forall in All.
  specialize (All height (proj2 (in_seq 3 0 height) (conj (Nat.le_0_l _) Hh))).
  rewrite forallb_forall in All.
  assert (Hd : In startDir [north; east; south; west])
    by (destruct startDir; cbn; tauto).
  specialize (All startDir Hd).
  rewrite forallb_forall in All.
  assert (Hr : In turnRight [true; false])
    by (destruct turnRight; cbn; tauto).
  exact (All turnRight Hr).
Qed.

(** C3 (amended). The perpendicular of the curved track has no fallback:
    it is always the tangent turned and divided by its length, so on a
    zero tangent it is [0 / 0], [nan] in the code's doubles and undefined
    in exact arithmetic.  In exact arithmetic the renderer never gets
    there: on every tile, for every direction and turn, the tangent has
    positive length at every parameter and the trace is drawn.  In doubles
    it gets there where rounding absorbs the tile offsets: at the origin
    [(1e18, 1e18)] the three control points are one point and all 88
    coordinates drawn are [nan]; on the cells of an 8 by 8 map, at heights
    0 to 2, every coordinate drawn is finite. *)
Theorem curved_perp_division (startX startY height : R)
  (startDir : TrackDirection) (turnRight : bool) (trackColor : string)
  (strutStyle : StrutStyle) (p0 p1 p2 : Double.Point) (t : float)
  (gridX gridY level : nat) :
  is_zero (Double.px (Double.quadraticTangent p0 p1 p2 t)) = true ->
  is_zero (Double.py (Double.quadraticTangent p0 p1 p2 t)) = true ->
  (gridX < 8)%nat -> (gridY < 8)%nat -> (level < 3)%nat ->
  Double.quadraticPerp p0 p1 p2 t = Double.mkPoint nan nan
  /\ (forall (p : Point) (u : R), quadraticPerp p p p u = None)
  /\ (let a := curvedAnchors startX startY height in
      let '(fromEdge, toEdge) := curvedEnds a startDir turnRight in
      forall u : R,
        let tangent := quadraticTangent fromEdge (center a) toEdge u in
        0 < R_sqrt.sqrt (px tangent * px tangent + py tangent * py tangent))
  /\ (exists ops : list canvasOp,
        drawCurvedTrack startX startY startDir turnRight height trackColor
          strutStyle = Some ops)
  /\ (let a := Double.curvedAnchors 1e18 1e18 0 in
      let ops :=
        Double.drawCurvedTrack 1e18 1e18 startDir turnRight 0 trackColor
          strutStyle in
      Double.curvedEnds a startDir turnRight
      = (Double.center a, Double.center a)
      /\ List.length (Double.coordinates ops) = 88%nat
      /\ forallb is_nan (Double.coordinates ops) = true)
  /\ (let origin :=
        Double.gridToScreen (Double.index gridX) (Double.index gridY) in
      forallb is_finite
        (Double.coordinates
           (Double.drawCurvedTrack (Double.px origin) (Double.py origin)
              startDir turnRight (Double.index level) trackColor strutStyle))
      = true).
Proof.
  intros Hx Hy Hgx Hgy Hl.
  split; [exact (double_perp_zero_tangent p0 p1 p2 t Hx Hy) |].
  split; [exact quadraticPerp_degenerate |]. split; [| split; [| split]].
  - assert (Ht := fun u =>
                    curved_tangent startX startY height startDir turnRight u).
    cbv zeta in *.
    destruct (curvedEnds _ startDir turnRight) as [from to].
    intros u. apply sqrt_lt_R0. destruct (Ht u); nra.
  - destruct (curved_trace startX startY height startDir turnRight trackColor
                strutStyle) as [ops [Hops _]].
    eauto.
  - exact (double_far_origin startDir turnRight trackColor strutStyle).
  - exact (double_map_finite gridX gridY level startDir turnRight trackColor
             strutStyle Hgx Hgy Hl).
Qed.

Lemma curved_perp_division_witness :
  Double.quadraticPerp (Double.mkPoint 3 5) (Double.mkPoint 3 5)
    (Double.mkPoint 3 5) 0.25
  = Double.mkPoint nan nan
  /\ (forall (p : Point) (u : R), quadraticPerp p p p u = None)
  /\ (let a := curvedAnchors 0 0 1 in
      let '(fromEdge, toEdge) := curvedEnds a north true in
      forall u : R,
        let tangent := quadraticTangent fromEdge (center a) toEdge u in
        0 < R_sqrt.sqrt (px tangent * px tangent + py tangent * py tangent))
  /\ (exists ops : list canvasOp,
        drawCurvedTrack 0 0 north true 1 COLORS_rail metal = Some ops)
  /\ (let a := Double.curvedAnchors 1e18 1e18 0 in
      let ops :=
        Double.drawCurvedTrack 1e18 1e18 north true 0 COLORS_rail metal in
      Double.curvedEnds a north true = (Double.center a, Double.center a)
      /\ List.length (Double.coordinates ops) = 88%nat
      /\ forallb is_nan (Double.coordinates ops) = true)
  /\ (let origin := Double.gridToScreen (Double.index 2) (Double.index 5) in
      forallb is_finite
        (Double.coordinates
           (Double.drawCurvedTrack (Double.px origin) (Double.py origin)
              north true (Double.index 1) COLORS_rail metal))
      = true).
Proof.
  apply (curved_perp_division 0 0 1 north true COLORS_rail metal
           (Double.mkPoint 3 5) (Double.mkPoint 3 5) (Double.mkPoint 3 5)
           0.25 2 5 1);
    [reflexivity | reflexivity | lia | lia | lia].
Defined.

(** C3 as stated fails: at the origin [(1e18, 1e18)], coming from the
    north and turning right on the ground, the three control points are
    the same point, the tangent of the first crosstie has length zero, and
    the perpendicular the crosstie is drawn with is no fallback vector but
    the [nan] of the division by that length. *)
Lemma curved_perp_division_counterexample :
  let a := Double.curvedAnchors 1e18 1e18 0 in
  let '(fromEdge, toEdge) := Double.curvedEnds a north true in
  let t := (Double.index 0 / Double.index 4)%float in
  let tangent := Double.quadraticTangent fromEdge (Double.center a) toEdge t in
  let len :=
    sqrt (Double.px tangent * Double.px tangent
          + Double.py tangent * Double.py tangent) in
  let perp := Double.quadraticPerp fromEdge (Double.center a) toEdge t in
  (fromEdge = Double.center a /\ toEdge = Double.center a)
  /\ len = 0%float
  /\ perp = Double.mkPoint (- Double.py tangent / len) (Double.px tangent / len)
  /\ is_nan (Double.px perp) = true
  /\ is_nan (Double.py perp) = true
  /\ firstn 6
       (Double.drawCurvedTrack 1e18 1e18 north true 0 COLORS_rail metal)
     = [ Double.setStrokeStyle COLORS_tie; Double.setLineWidth 3;
         Double.beginPath; Double.moveTo nan nan; Double.lineTo nan nan;
         Double.stroke ].
Proof.
  vm_compute. repeat split; reflexivity.
Qed.

End DoubleArithmetic.

Lemma slope_supports_each (startX startY : R) (direction : TrackDirection)
  (startHeight endHeight : R) (trackColor : string) (strutStyle : StrutStyle) :
  exists (ops : list canvasOp) (fromEdge toEdge perp : Point),
    drawSlopeTrack startX startY direction startHeight endHeight trackColor
      strutStyle = Some ops
    /\ slopeEnds (slopeAnchors startX startY) direction
       = (fromEdge, toEdge, Some perp)
    /\ supports ops
       = (if Rgt_dec startHeight 0
          then [ supportFrame strutStyle (px fromEdge) (py fromEdge)
                   startHeight (px perp) (py perp) ]
          else [])
         ++ (if Rgt_dec endHeight 0
             then [ supportFrame strutStyle (px toEdge) (py toEdge)
                      endHeight (px perp) (py perp) ]
             else []).
Proof.
  destruct (slopeEnds_perp startX startY direction) as [perp Hp].
  unfold drawSlopeTrack.
  destruct (slopeEnds _ direction) as [[fromEdge toEdge] operp].
  cbn [snd] in Hp. subst operp. cbn [obind].
  eexists. exists fromEdge, toEdge, perp.
  split; [reflexivity |]. split; [reflexivity |].
  unfold slopeTies.
  destruct (Rgt_dec startHeight 0) as [Hs | _],
           (Rgt_dec endHeight 0) as [He | _];
    rewrite ?drawSupport_elevated by assumption;
    rewrite !supports_app, supports_ties; reflexivity.
Qed.

(** C5 (amended). With a positive height, [drawStraightTrack] asks for one
    support under the midpoint of its two anchors, at ground level, and
    passes the ground perpendicular; [drawCurvedTrack] asks for one support
    under the curve point at [t = 1/2], at ground level, and passes no
    perpendicular, so the support takes its default [(1, 0)].
    [drawSlopeTrack], whatever its two heights, asks for a support under
    each end whose height is positive and for none under the other, with
    the ground perpendicular. *)
Theorem elevated_supports (startX startY height startHeight endHeight : R)
  (direction : TrackDirection) (turnRight : bool) (trackColor : string)
  (strutStyle : StrutStyle) :
  height > 0 ->
  (exists (ops : list canvasOp) (perp : Point),
     drawStraightTrack startX startY direction height trackColor strutStyle
     = Some ops
     /\ (let '(fromEdge, toEdge, groundPerp) :=
           straightEnds (straightAnchors startX startY height) direction in
         groundPerp = Some perp
         /\ supports ops
            = [ supportFrame strutStyle
                  ((px fromEdge + px toEdge) / 2)
                  ((py fromEdge + py toEdge) / 2 + height * HEIGHT_UNIT)
                  height (px perp) (py perp) ]))
  /\ (exists ops : list canvasOp,
        drawCurvedTrack startX startY direction turnRight height trackColor
          strutStyle = Some ops
        /\ (let a := curvedAnchors startX startY height in
            let '(fromEdge, toEdge) := curvedEnds a direction turnRight in
            let curveMid := quadraticPoint fromEdge (center a) toEdge (5 / 10) in
            supports ops
            = [ supportFrame strutStyle (px curveMid)
                  (py curveMid + height * HEIGHT_UNIT) height 1 0 ]))
  /\ (exists (ops : list canvasOp) (fromEdge toEdge perp : Point),
        drawSlopeTrack startX startY direction startHeight endHeight
          trackColor strutStyle = Some ops
        /\ slopeEnds (slopeAnchors startX startY) direction
           = (fromEdge, toEdge, Some perp)
        /\ supports ops
           = (if Rgt_dec startHeight 0
              then [ supportFrame strutStyle (px fromEdge) (py fromEdge)
                       startHeight (px perp) (py perp) ]
              else [])
             ++ (if Rgt_dec endHeight 0
                 then [ supportFrame strutStyle (px toEdge) (py toEdge)
                          endHeight (px perp) (py perp) ]
                 else [])).
Proof.
  intros H. split; [| split].
  - destruct (straight_supports startX startY direction height trackColor
                strutStyle H) as [ops [perp [Hops [Hp Hs]]]].
    exists ops, perp. split; [exact Hops |].
    rewrite Hs. clear Hs Hops.
    destruct direction; cbn in Hp |- *; (split; [exact Hp |]);
      do 2 f_equal; autounfold with tile;
      lra.
  - destruct (curved_trace startX startY height direction turnRight trackColor
                strutStyle) as [ops [Hops Hs]].
    exists ops. split; [exact Hops |]. cbv zeta in *.
    destruct (curvedEnds _ direction turnRight) as [fromEdge toEdge].
    rewrite Hs, curvedSupport_elevated by exact H. reflexivity.
  - exact (slope_supports_each startX startY direction startHeight endHeight
             trackColor strutStyle).
Qed.

(** A slope rising from the ground: one support, under its raised end. *)
Lemma elevated_supports_witness :
  (exists (ops : list canvasOp) (perp : Point),
     drawStraightTrack 0 0 north 1 COLORS_rail metal
     = Some ops
     /\ (let '(fromEdge, toEdge, groundPerp) :=
           straightEnds (straightAnchors 0 0 1) north in
         groundPerp = Some perp
         /\ supports ops
            = [ supportFrame metal
                  ((px fromEdge + px toEdge) / 2)
                  ((py fromEdge + py toEdge) / 2 + 1 * HEIGHT_UNIT)
                  1 (px perp) (py perp) ]))
  /\ (exists ops : list canvasOp,
        drawCurvedTrack 0 0 north true 1 COLORS_rail
          metal = Some ops
        /\ (let a := curvedAnchors 0 0 1 in
            let '(fromEdge, toEdge) := curvedEnds a north true in
            let curveMid := quadraticPoint fromEdge (center a) toEdge (5 / 10) in
            supports ops
            = [ supportFrame metal (px curveMid)
                  (py curveMid + 1 * HEIGHT_UNIT) 1 1 0 ]))
  /\ (exists (ops : list canvasOp) (fromEdge toEdge perp : Point),
        drawSlopeTrack 0 0 north 0 2 COLORS_rail metal = Some ops
        /\ slopeEnds (slopeAnchors 0 0) north
           = (fromEdge, toEdge, Some perp)
        /\ supports ops
           = (if Rgt_dec 0 0
              then [ supportFrame metal (px fromEdge) (py fromEdge)
                       0 (px perp) (py perp) ]
              else [])
             ++ (if Rgt_dec 2 0
                 then [ supportFrame metal (px toEdge) (py toEdge)
                          2 (px perp) (py perp) ]
                 else [])).
Proof.
  apply (elevated_supports 0 0 1 0 2 north true COLORS_rail metal); lra.
Defined.

(** C5 as stated fails: on the tile at the origin, coming from the north
    and turning right at height 1, the support does not get the
    perpendicular of the curve at its midpoint, which is [(0, 1)]. *)
Lemma elevated_supports_counterexample :
  ~ (exists (ops : list canvasOp) (perp : Point) (x groundY : R),
       drawCurvedTrack 0 0 north true 1 COLORS_rail metal = Some ops
       /\ (let a := curvedAnchors 0 0 1 in
           let '(fromEdge, toEdge) := curvedEnds a north true in
           quadraticPerp fromEdge (center a) toEdge (5 / 10) = Some perp)
       /\ supports ops = [supportFrame metal x groundY 1 (px perp) (py perp)]).
Proof.
  intros [ops [perp [x [groundY [Hops [Hperp Hs]]]]]].
  destruct (curved_trace 0 0 1 north true COLORS_rail metal)
    as [ops' [Hops' Hs']].
  rewrite Hops in Hops'. injection Hops' as <-.
  cbn [curvedEnds] in Hs', Hperp.
  rewrite Hs', curvedSupport_elevated in Hs by lra.
  injection Hs as _ _ Hx Hy.
  assert (Hty : py (quadraticTangent (northEdge (curvedAnchors 0 0 1))
                      (center (curvedAnchors 0 0 1))
                      (eastEdge (curvedAnchors 0 0 1)) (5 / 10)) = 0).
  { cbn. autounfold with tile. lra. }
  unfold quadraticPerp, fdiv in Hperp. rewrite Hty in Hperp.
  match type of Hperp with
  | context [Req_dec_T ?l 0] => destruct (Req_dec_T l 0) as [E | N]
  end; [discriminate Hperp |].
  cbn [obind] in Hperp. injection Hperp as <-.
  cbn [px] in Hx. unfold Rdiv in Hx. rewrite Ropp_0, Rmult_0_l in Hx. lra.
Qed.

(** ** The chain lift *)

Lemma trunc_nonneg (x : R) : 0 <= x -> trunc x = Zfloor x.
Proof.
  intros H. unfold trunc. destruct (Rlt_dec x 0) as [L | _]; [lra | reflexivity].
Qed.

Lemma jsrem_nonneg (a : R) :
  0 <= a -> 0 <= jsrem a linkSpacing < linkSpacing.
Proof.
  intros H. unfold jsrem, linkSpacing.
  rewrite trunc_nonneg by lra.
  destruct (Zfloor_bound (a / 4)) as [Hl Hu]. lra.
Qed.

Lemma jsrem_shift (a : R) (k : Z) :
  0 <= a -> 0 <= a + IZR k * linkSpacing ->
  jsrem (a + IZR k * linkSpacing) linkSpacing = jsrem a linkSpacing.
Proof.
  intros Ha Hk. unfold jsrem, linkSpacing in *.
  rewrite !trunc_nonneg by lra.
  replace ((a + IZR k * 4) / 4) with (a / 4 + IZR k) by lra.
  rewrite Zfloor_addz, plus_IZR. lra.
Qed.

Lemma jsrem_zero : jsrem 0 linkSpacing = 0.
Proof.
  unfold jsrem, linkSpacing. rewrite trunc_nonneg by lra.
  replace (0 / 4) with (IZR 0) by lra. rewrite ZfloorZ. lra.
Qed.

Example jsrem_six : jsrem 6 linkSpacing = 2.
Proof.
  unfold jsrem, linkSpacing. rewrite trunc_nonneg by lra.
  rewrite (Zfloor_eq 1) by lra. lra.
Qed.

Lemma chainLength_value : chainLength = 448 / 10.
Proof. unfold chainLength. autounfold with tile. lra. Qed.

Lemma numLinks_value : Z.to_nat (floor (chainLength / linkSpacing)) = 11%nat.
Proof.
  unfold floor. rewrite (Zfloor_eq 11); [reflexivity |].
  rewrite chainLength_value. unfold linkSpacing. split; lra.
Qed.

(** The trace depends on the tick only through its remainder. *)
Lemma drawChainLift_phase (startX startY : R) (direction : TrackDirection)
  (startHeight endHeight tick1 tick2 : R) :
  jsrem tick1 linkSpacing = jsrem tick2 linkSpacing ->
  drawChainLift startX startY direction startHeight endHeight tick1
  = drawChainLift startX startY direction startHeight endHeight tick2.
Proof.
  intros H. unfold drawChainLift, linkParam. rewrite H. reflexivity.
Qed.

Lemma linkPositions_app (l1 l2 : list canvasOp) :
  linkPositions (l1 ++ l2) = linkPositions l1 ++ linkPositions l2.
Proof.
  induction l1 as [| op l1 IH]; [reflexivity |].
  destruct op; cbn [app linkPositions]; rewrite ?IH; reflexivity.
Qed.

Lemma linkPositions_flat_map (body : nat -> list canvasOp) (l : list nat) :
  linkPositions (flat_map body l)
  = flat_map (fun i => linkPositions (body i)) l.
Proof.
  induction l as [| i l IH]; [reflexivity |].
  cbn [flat_map]. now rewrite linkPositions_app, IH.
Qed.

Lemma linkPositions_chain (startX startY : R) (direction : TrackDirection)
  (startHeight endHeight tickOffset : R) :
  let p1 := chainStart startX startY direction startHeight in
  let p2 := chainEnd startX startY direction endHeight in
  linkPositions
    (drawChainLift startX startY direction startHeight endHeight tickOffset)
  = flat_map
      (fun i =>
         let t := linkParam tickOffset i in
         if Rgt_dec t 1 then []
         else [mkPoint (px p1 + (px p2 - px p1) * t)
                       (py p1 + (py p2 - py p1) * t)])
      (seq 0 12).
Proof.
  unfold drawChainLift. rewrite numLinks_value.
  cbn [app linkPositions]. rewrite linkPositions_flat_map.
  apply flat_map_ext. intros i.
  destruct (Rgt_dec (linkParam tickOffset i) 1); reflexivity.
Qed.

(** C10. With a tick offset that is not negative, the chain has at least
    one link, and every link drawn sits at [p1 + (p2 - p1) * t] for the
    parameter [t] of some index [i <= 11], with [0 <= t <= 1]: no link
    lies before the start of the chain or past its end. *)
Theorem chain_links_on_segment (startX startY : R) (direction : TrackDirection)
  (startHeight endHeight tickOffset : R) :
  0 <= tickOffset ->
  let p1 := chainStart startX startY direction startHeight in
  let p2 := chainEnd startX startY direction endHeight in
  let links :=
    linkPositions
      (drawChainLift startX startY direction startHeight endHeight tickOffset) in
  links <> []
  /\ forall p : Point,
       In p links ->
       exists i : nat,
         (i <= 11)%nat
         /\ 0 <= linkParam tickOffset i <= 1
         /\ p = mkPoint (px p1 + (px p2 - px p1) * linkParam tickOffset i)
                        (py p1 + (py p2 - py p1) * linkParam tickOffset i).
Proof.
  intros H p1 p2 links. subst links p1 p2.
  rewrite linkPositions_chain. cbv zeta.
  destruct (jsrem_nonneg tickOffset H) as [Hl Hu].
  assert (Hlen := chainLength_value).
  split.
  - change (seq 0 12) with (0%nat :: seq 1 11). cbn [flat_map].
    destruct (Rgt_dec (linkParam tickOffset 0) 1) as [G | _]; [| discriminate].
    exfalso. unfold linkParam in G. rewrite Hlen in G. cbn [INR] in G.
    unfold linkSpacing in *. lra.
  - intros p Hin. apply in_flat_map in Hin. destruct Hin as [i [Hi Hp]].
    apply in_seq in Hi.
    destruct (Rgt_dec (linkParam tickOffset i) 1) as [G | NG];
      [contradiction |].
    destruct Hp as [<- | []].
    exists i. split; [lia |]. split; [| reflexivity].
    split; [| lra].
    unfold linkParam. rewrite Hlen.
    assert (Hi0 : 0 <= INR i) by apply pos_INR.
    unfold linkSpacing in *.
    apply Rmult_le_pos; [nra | lra].
Qed.

Lemma chain_links_on_segment_witness :
  let p1 := chainStart 0 0 south 0 in
  let p2 := chainEnd 0 0 south 1 in
  let links := linkPositions (drawChainLift 0 0 south 0 1 2) in
  links <> []
  /\ forall p : Point,
       In p links ->
       exists i : nat,
         (i <= 11)%nat
         /\ 0 <= linkParam 2 i <= 1
         /\ p = mkPoint (px p1 + (px p2 - px p1) * linkParam 2 i)
                        (py p1 + (py p2 - py p1) * linkParam 2 i).
Proof.
  apply (chain_links_on_segment 0 0 south 0 1 2). lra.
Defined.

(** C9 (amended). The chain drawn at tick 4 is the chain drawn at tick 0,
    and more generally adding a multiple of [linkSpacing] to the tick
    offset changes neither the trace nor the link positions, as long as
    the tick offset is not negative before and after. *)
Theorem chain_phase_wrap (startX startY : R) (direction : TrackDirection)
  (startHeight endHeight tickOffset : R) (k : Z) :
  0 <= tickOffset ->
  0 <= tickOffset + IZR k * linkSpacing ->
  drawChainLift startX startY direction startHeight endHeight 4
  = drawChainLift startX startY direction startHeight endHeight 0
  /\ drawChainLift startX startY direction startHeight endHeight
       (tickOffset + IZR k * linkSpacing)
     = drawChainLift startX startY direction startHeight endHeight tickOffset
  /\ linkPositions
       (drawChainLift startX startY direction startHeight endHeight
          (tickOffset + IZR k * linkSpacing))
     = linkPositions
         (drawChainLift startX startY direction startHeight endHeight
            tickOffset).
Proof.
  intros H Hk.
  assert (E : drawChainLift startX startY direction startHeight endHeight
                (tickOffset + IZR k * linkSpacing)
              = drawChainLift startX startY direction startHeight endHeight
                  tickOffset)
    by (apply drawChainLift_phase, jsrem_shift; assumption).
  split; [| split; [exact E | now rewrite E]].
  apply drawChainLift_phase.
  replace 4 with (0 + IZR 1 * linkSpacing) by (unfold linkSpacing; lra).
  apply jsrem_shift; unfold linkSpacing; lra.
Qed.

Lemma chain_phase_wrap_witness :
  drawChainLift 0 0 south 0 1 4 = drawChainLift 0 0 south 0 1 0
  /\ drawChainLift 0 0 south 0 1 (6 + IZR (-1) * linkSpacing)
     = drawChainLift 0 0 south 0 1 6
  /\ linkPositions (drawChainLift 0 0 south 0 1 (6 + IZR (-1) * linkSpacing))
     = linkPositions (drawChainLift 0 0 south 0 1 6).
Proof.
  apply (chain_phase_wrap 0 0 south 0 1 6 (-1)); unfold linkSpacing; lra.
Defined.

Lemma jsrem_one : jsrem 1 linkSpacing = 1.
Proof.
  unfold jsrem, linkSpacing. rewrite trunc_nonneg by lra.
  rewrite (Zfloor_eq 0) by lra. lra.
Qed.

Lemma jsrem_minus_three : jsrem (1 + IZR (-1) * linkSpacing) linkSpacing = - 3.
Proof.
  unfold jsrem, linkSpacing, trunc.
  destruct (Rlt_dec ((1 + -1 * 4) / 4) 0) as [_ | N]; [| lra].
  rewrite (Zfloor_eq 0) by lra. cbn [Z.opp]. lra.
Qed.

(** C9 as stated fails: [%] keeps the sign of the tick, so going from
    tick 1 to tick [1 - linkSpacing] puts a link before the start of the
    chain that the chain of tick 1 does not have. *)
Lemma chain_phase_wrap_counterexample :
  exists p : Point,
    In p (linkPositions
            (drawChainLift 0 0 south 0 0 (1 + IZR (-1) * linkSpacing)))
    /\ ~ In p (linkPositions (drawChainLift 0 0 south 0 0 1)).
Proof.
  assert (Hlen := chainLength_value).
  set (p1 := chainStart 0 0 south 0).
  set (p2 := chainEnd 0 0 south 0).
  assert (Hd : 0 < px p2 - px p1).
  { subst p1 p2. cbn. rewrite Hlen. autounfold with tile. lra. }
  set (t := linkParam (1 + IZR (-1) * linkSpacing) 0).
  assert (Ht : t = - 3 / (448 / 10)).
  { subst t. unfold linkParam. rewrite jsrem_minus_three, Hlen. cbn [INR]. lra. }
  exists (mkPoint (px p1 + (px p2 - px p1) * t) (py p1 + (py p2 - py p1) * t)).
  rewrite !linkPositions_chain. fold p1 p2. cbv zeta. split.
  - change (seq 0 12) with (0%nat :: seq 1 11). cbn [flat_map]. fold t.
    destruct (Rgt_dec t 1) as [G | _]; [lra |]. left. reflexivity.
  - intros Hin. apply in_flat_map in Hin. destruct Hin as [i [_ Hp]].
    destruct (Rgt_dec (linkParam 1 i) 1) as [G | NG]; [contradiction |].
    destruct Hp as [E | []]. injection E as Ex _.
    assert (Et : linkParam 1 i = t) by nra.
    unfold linkParam in Et. rewrite jsrem_one, Hlen, Ht in Et.
    assert (Hi0 : 0 <= INR i) by apply pos_INR.
    unfold linkSpacing in Et.
    assert (INR i * 4 + 1 = - 3) by lra.
    lra.
Qed.

(** * Further properties *)

(** ** The projector *)

(** X1. Two cells with the same tile origin are the same cell. *)
Theorem gridToScreen_injective (gridX1 gridY1 gridX2 gridY2 : R) :
  gridToScreen gridX1 gridY1 = gridToScreen gridX2 gridY2 ->
  gridX1 = gridX2 /\ gridY1 = gridY2.
Proof.
  unfold gridToScreen. autounfold with tile.
  intros H. injection H as Hx Hy. split; lra.
Qed.

Lemma gridToScreen_injective_witness : 3 = 3 /\ 5 = 5.
Proof.
  apply (gridToScreen_injective 3 5 3 5). reflexivity.
Defined.

(** X2. Raising a cell moves its projection straight up the screen, by
    [HEIGHT_UNIT] pixels per unit of height. *)
Theorem gridToScreen3D_height (gridX gridY h1 h2 : R) :
  h1 < h2 ->
  px (gridToScreen3D gridX gridY h2) = px (gridToScreen3D gridX gridY h1)
  /\ py (gridToScreen3D gridX gridY h2) < py (gridToScreen3D gridX gridY h1)
  /\ py (gridToScreen3D gridX gridY h1) - py (gridToScreen3D gridX gridY h2)
     = 20 * (h2 - h1).
Proof.
  intros H. unfold gridToScreen3D, gridToScreen; cbn [px py].
  autounfold with tile. repeat split; lra.
Qed.

Lemma gridToScreen3D_height_witness :
  px (gridToScreen3D 2 3 4) = px (gridToScreen3D 2 3 1)
  /\ py (gridToScreen3D 2 3 4) < py (gridToScreen3D 2 3 1)
  /\ py (gridToScreen3D 2 3 1) - py (gridToScreen3D 2 3 4) = 20 * (4 - 1).
Proof.
  apply (gridToScreen3D_height 2 3 1 4). lra.
Defined.

(** ** The curve helpers *)

(** X3. The cubic curve starts at [p0] and ends at [p3], and its tangent
    there is three times the first and the last leg of the control
    polygon. *)
Theorem bezier_ends (p0 p1 p2 p3 : Point) :
  bezierPoint p0 p1 p2 p3 0 = p0
  /\ bezierPoint p0 p1 p2 p3 1 = p3
  /\ bezierTangent p0 p1 p2 p3 0
     = mkPoint (3 * (px p1 - px p0)) (3 * (py p1 - py p0))
  /\ bezierTangent p0 p1 p2 p3 1
     = mkPoint (3 * (px p3 - px p2)) (3 * (py p3 - py p2)).
Proof.
  destruct p0 as [x0 y0], p1 as [x1 y1], p2 as [x2 y2], p3 as [x3 y3].
  unfold bezierPoint, bezierTangent; cbn [px py].
  repeat split; apply point_eq; ring.
Qed.

Lemma derivable_pt_lim_ext (f g : R -> R) (x l : R) :
  (forall y, f y = g y) -> derivable_pt_lim f x l -> derivable_pt_lim g x l.
Proof.
  intros E H eps Heps. destruct (H eps Heps) as [delta Hd].
  exists delta. intros h Hh Hlt. rewrite <- !E. now apply Hd.
Qed.

(** The derivative of a polynomial of degree three, by the rules. *)
Lemma poly3_derivative (c0 c1 c2 c3 t : R) :
  derivable_pt_lim
    (fun x => c0 + c1 * x + c2 * (x * x) + c3 * (x * (x * x))) t
    (c1 + 2 * c2 * t + 3 * c3 * (t * t)).
Proof.
  assert (Hid : derivable_pt_lim (fun x => x) t 1)
    by exact (derivable_pt_lim_id t).
  assert (Hsq : derivable_pt_lim (fun x => x * x) t (1 * t + t * 1))
    by exact (derivable_pt_lim_mult _ _ t _ _ Hid Hid).
  assert (Hcu : derivable_pt_lim (fun x => x * (x * x)) t
                  (1 * (t * t) + t * (1 * t + t * 1)))
    by exact (derivable_pt_lim_mult _ _ t _ _ Hid Hsq).
  assert (H0 : derivable_pt_lim (fun _ => c0) t 0)
    by exact (derivable_pt_lim_const c0 t).
  assert (H1 : derivable_pt_lim (fun x => c1 * x) t (c1 * 1))
    by exact (derivable_pt_lim_scal _ c1 t _ Hid).
  assert (H2 : derivable_pt_lim (fun x => c2 * (x * x)) t
                 (c2 * (1 * t + t * 1)))
    by exact (derivable_pt_lim_scal _ c2 t _ Hsq).
  assert (H3 : derivable_pt_lim (fun x => c3 * (x * (x * x))) t
                 (c3 * (1 * (t * t) + t * (1 * t + t * 1))))
    by exact (derivable_pt_lim_scal _ c3 t _ Hcu).
  replace (c1 + 2 * c2 * t + 3 * c3 * (t * t))
    with (0 + c1 * 1 + c2 * (1 * t + t * 1)
          + c3 * (1 * (t * t) + t * (1 * t + t * 1))) by ring.
  exact (derivable_pt_lim_plus _ _ t _ _
           (derivable_pt_lim_plus _ _ t _ _
              (derivable_pt_lim_plus _ _ t _ _ H0 H1) H2) H3).
Qed.

(** X4. [bezierTangent] is the derivative of [bezierPoint], coordinate by
    coordinate. *)
Theorem bezierTangent_derivative (p0 p1 p2 p3 : Point) (t : R) :
  derivable_pt_lim (fun s => px (bezierPoint p0 p1 p2 p3 s)) t
    (px (bezierTangent p0 p1 p2 p3 t))
  /\ derivable_pt_lim (fun s => py (bezierPoint p0 p1 p2 p3 s)) t
       (py (bezierTangent p0 p1 p2 p3 t)).
Proof.
  destruct p0 as [x0 y0], p1 as [x1 y1], p2 as [x2 y2], p3 as [x3 y3].
  unfold bezierPoint, bezierTangent; cbn [px py].
  split.
  - apply (derivable_pt_lim_ext
             (fun x => x0 + (3 * x1 - 3 * x0) * x
                       + (3 * x0 - 6 * x1 + 3 * x2) * (x * x)
                       + (x3 - 3 * x2 + 3 * x1 - x0) * (x * (x * x))));
      [intros y; ring |].
    match goal with
    | |- derivable_pt_lim _ _ ?l =>
        replace l with ((3 * x1 - 3 * x0) + 2 * (3 * x0 - 6 * x1 + 3 * x2) * t
                        + 3 * (x3 - 3 * x2 + 3 * x1 - x0) * (t * t)) by ring
    end.
    apply poly3_derivative.
  - apply (derivable_pt_lim_ext
             (fun x => y0 + (3 * y1 - 3 * y0) * x
                       + (3 * y0 - 6 * y1 + 3 * y2) * (x * x)
                       + (y3 - 3 * y2 + 3 * y1 - y0) * (x * (x * x))));
      [intros y; ring |].
    match goal with
    | |- derivable_pt_lim _ _ ?l =>
        replace l with ((3 * y1 - 3 * y0) + 2 * (3 * y0 - 6 * y1 + 3 * y2) * t
                        + 3 * (y3 - 3 * y2 + 3 * y1 - y0) * (t * t)) by ring
    end.
    apply poly3_derivative.
Qed.

(** X5. [quadraticTangent], the tangent of lines 281-284, is the
    derivative of the curve point of lines 276-279, coordinate by
    coordinate. *)
Theorem quadraticTangent_derivative (fromEdge ctrl toEdge : Point) (t : R) :
  derivable_pt_lim (fun s => px (quadraticPoint fromEdge ctrl toEdge s)) t
    (px (quadraticTangent fromEdge ctrl toEdge t))
  /\ derivable_pt_lim (fun s => py (quadraticPoint fromEdge ctrl toEdge s)) t
       (py (quadraticTangent fromEdge ctrl toEdge t)).
Proof.
  destruct fromEdge as [x0 y0], ctrl as [x1 y1], toEdge as [x2 y2].
  unfold quadraticPoint, quadraticTangent; cbn [px py].
  split.
  - apply (derivable_pt_lim_ext
             (fun x => x0 + (2 * x1 - 2 * x0) * x
                       + (x0 - 2 * x1 + x2) * (x * x) + 0 * (x * (x * x))));
      [intros y; ring |].
    match goal with
    | |- derivable_pt_lim _ _ ?l =>
        replace l with ((2 * x1 - 2 * x0) + 2 * (x0 - 2 * x1 + x2) * t
                        + 3 * 0 * (t * t)) by ring
    end.
    apply poly3_derivative.
  - apply (derivable_pt_lim_ext
             (fun x => y0 + (2 * y1 - 2 * y0) * x
                       + (y0 - 2 * y1 + y2) * (x * x) + 0 * (x * (x * x))));
      [intros y; ring |].
    match goal with
    | |- derivable_pt_lim _ _ ?l =>
        replace l with ((2 * y1 - 2 * y0) + 2 * (y0 - 2 * y1 + y2) * t
                        + 3 * 0 * (t * t)) by ring
    end.
    apply poly3_derivative.
Qed.

Lemma bernstein2_bounds (a b c lo hi t : R) :
  0 <= t <= 1 -> lo <= a <= hi -> lo <= b <= hi -> lo <= c <= hi ->
  lo <= (1 - t) * (1 - t) * a + 2 * (1 - t) * t * b + t * t * c <= hi.
Proof.
  intros Ht Ha Hb Hc.
  assert (H0 : 0 <= (1 - t) * (1 - t)) by nra.
  assert (H1 : 0 <= 2 * (1 - t) * t) by nra.
  assert (H2 : 0 <= t * t) by nra.
  assert (Hs : (1 - t) * (1 - t) + 2 * (1 - t) * t + t * t = 1) by ring.
  split; nra.
Qed.

Lemma bernstein3_bounds (a b c d lo hi t : R) :
  0 <= t <= 1 ->
  lo <= a <= hi -> lo <= b <= hi -> lo <= c <= hi -> lo <= d <= hi ->
  lo <= (1 - t) * (1 - t) * (1 - t) * a + 3 * ((1 - t) * (1 - t)) * t * b
        + 3 * (1 - t) * (t * t) * c + t * t * t * d <= hi.
Proof.
  intros Ht Ha Hb Hc Hd.
  assert (Hu : 0 <= 1 - t) by lra.
  assert (H0 : 0 <= (1 - t) * (1 - t) * (1 - t))
    by (apply Rmult_le_pos; [nra | lra]).
  assert (H1 : 0 <= 3 * ((1 - t) * (1 - t)) * t)
    by (apply Rmult_le_pos; [nra | lra]).
  assert (H2 : 0 <= 3 * (1 - t) * (t * t))
    by (apply Rmult_le_pos; [nra | nra]).
  assert (H3 : 0 <= t * t * t) by (apply Rmult_le_pos; [nra | lra]).
  assert (Hs : (1 - t) * (1 - t) * (1 - t) + 3 * ((1 - t) * (1 - t)) * t
               + 3 * (1 - t) * (t * t) + t * t * t = 1) by ring.
  set (w0 := (1 - t) * (1 - t) * (1 - t)) in *.
  set (w1 := 3 * ((1 - t) * (1 - t)) * t) in *.
  set (w2 := 3 * (1 - t) * (t * t)) in *.
  set (w3 := t * t * t) in *.
  split; nra.
Qed.


(** X6. For a parameter in [[0, 1]] both curves stay inside any box that
    holds their control points. *)
Theorem curves_in_box (lo hi p0 p1 p2 p3 : Point) (t : R) :
  0 <= t <= 1 ->
  inBox lo hi p0 -> inBox lo hi p1 -> inBox lo hi p2 -> inBox lo hi p3 ->
  inBox lo hi (quadraticPoint p0 p1 p2 t)
  /\ inBox lo hi (bezierPoint p0 p1 p2 p3 t).
Proof.
  unfold inBox. intros Ht [H0x H0y] [H1x H1y] [H2x H2y] [H3x H3y].
  unfold quadraticPoint, bezierPoint; cbv zeta; cbn [px py].
  assert (Qx := bernstein2_bounds (px p0) (px p1) (px p2) (px lo) (px hi) t
                  Ht H0x H1x H2x).
  assert (Qy := bernstein2_bounds (py p0) (py p1) (py p2) (py lo) (py hi) t
                  Ht H0y H1y H2y).
  assert (Cx := bernstein3_bounds (px p0) (px p1) (px p2) (px p3) (px lo)
                  (px hi) t Ht H0x H1x H2x H3x).
  assert (Cy := bernstein3_bounds (py p0) (py p1) (py p2) (py p3) (py lo)
                  (py hi) t Ht H0y H1y H2y H3y).
  repeat split; lra.
Qed.

Lemma curves_in_box_witness :
  inBox (mkPoint 0 0) (mkPoint 4 4)
    (quadraticPoint (mkPoint 0 0) (mkPoint 4 0) (mkPoint 4 4) (1 / 2))
  /\ inBox (mkPoint 0 0) (mkPoint 4 4)
       (bezierPoint (mkPoint 0 0) (mkPoint 4 0) (mkPoint 4 4) (mkPoint 0 4)
          (1 / 2)).
Proof.
  apply (curves_in_box (mkPoint 0 0) (mkPoint 4 4));
    unfold inBox; cbn [px py]; lra.
Defined.

(** ** The curved track, again *)

(** What a defined perpendicular is: the vector over its length. *)
Lemma axisPerp_spec (a b p : Point) :
  axisPerp a b = Some p ->
  exists len : R,
    0 < len
    /\ len * len = (px a - px b) * (px a - px b) + (py a - py b) * (py a - py b)
    /\ px p * len = px a - px b
    /\ py p * len = py a - py b.
Proof.
  unfold axisPerp, fdiv.
  destruct (Req_dec_T (hypot (px a - px b) (py a - py b)) 0) as [E | N];
    [discriminate |].
  cbn [obind]. intros H. injection H as <-. cbn [px py].
  exists (hypot (px a - px b) (py a - py b)).
  assert (Hp : 0 <= hypot (px a - px b) (py a - py b)) by apply sqrt_pos.
  split; [lra |]. split; [apply hypot_sqr |].
  split; field; exact N.
Qed.

Lemma quadraticPerp_spec (fromEdge ctrl toEdge p : Point) (t : R) :
  quadraticPerp fromEdge ctrl toEdge t = Some p ->
  let tangent := quadraticTangent fromEdge ctrl toEdge t in
  exists len : R,
    0 < len
    /\ len * len = px tangent * px tangent + py tangent * py tangent
    /\ px p * len = - py tangent
    /\ py p * len = px tangent.
Proof.
  unfold quadraticPerp. cbv zeta.
  set (tx := px (quadraticTangent fromEdge ctrl toEdge t)).
  set (ty := py (quadraticTangent fromEdge ctrl toEdge t)).
  unfold fdiv. destruct (Req_dec_T (sqrt (tx * tx + ty * ty)) 0) as [E | N];
    [discriminate |].
  cbn [obind]. intros H. injection H as <-. cbn [px py].
  exists (sqrt (tx * tx + ty * ty)).
  assert (Hp : 0 <= sqrt (tx * tx + ty * ty)) by apply sqrt_pos.
  split; [lra |]. split; [apply sqrt_sqrt; nra |].
  split; field; exact N.
Qed.

Lemma curved_perp_defined (startX startY height : R)
  (startDir : TrackDirection) (turnRight : bool) (t : R) :
  let a := curvedAnchors startX startY height in
  let '(fromEdge, toEdge) := curvedEnds a startDir turnRight in
  exists p : Point, quadraticPerp fromEdge (center a) toEdge t = Some p.
Proof.
  assert (Ht := curved_tangent startX startY height startDir turnRight t).
  cbv zeta in *.
  destruct (curvedEnds _ startDir turnRight) as [fromEdge toEdge].
  exact (quadraticPerp_defined _ _ _ _ Ht).
Qed.

(** X7. The centre line of a curve continues the straight tracks it joins
    without a corner: its tangent at the entry is the vector from the
    entry anchor to the exit anchor of a straight segment running into
    the tile, and its tangent at the exit is that vector for a straight
    segment running out of it. *)
Theorem curved_tangent_joins_straight (startX startY height x' y' h' : R)
  (startDir : TrackDirection) (turnRight : bool) :
  let a := curvedAnchors startX startY height in
  let '(fromEdge, toEdge) := curvedEnds a startDir turnRight in
  let travel := fun s : Segment =>
    mkPoint (px (exitAnchor s x' y' h') - px (entryAnchor s x' y' h'))
            (py (exitAnchor s x' y' h') - py (entryAnchor s x' y' h')) in
  quadraticTangent fromEdge (center a) toEdge 0
  = travel (Straight (opposite startDir))
  /\ quadraticTangent fromEdge (center a) toEdge 1
     = travel (Straight (exitSide (Curved startDir turnRight))).
Proof.
  destruct startDir, turnRight; cbn; autounfold with tile;
    split; apply point_eq; cbn [px py]; lra.
Qed.

(** X8. The rails do not follow: at the entry anchor the curved renderer
    offsets its rails along the screen normal of the tangent, the straight
    renderer along the other axis of the tile, and the two unit vectors
    make a dot product of 15/17 in absolute value.  So whichever rails are
    paired, the end of a straight rail and the start of a curved rail are
    at least [8 / sqrt 17] (about 1.94) pixels apart. *)
Theorem curved_rails_miss_straight_rails (startX startY height x' y' h' : R)
  (startDir : TrackDirection) (turnRight : bool) :
  let a := curvedAnchors startX startY height in
  let '(fromEdge, toEdge) := curvedEnds a startDir turnRight in
  exists ps pc : Point,
    snd (straightEnds (straightAnchors x' y' h') (opposite startDir)) = Some ps
    /\ quadraticPerp fromEdge (center a) toEdge 0 = Some pc
    /\ (px ps * px pc + py ps * py pc) * (px ps * px pc + py ps * py pc)
       = 15 / 17 * (15 / 17)
    /\ forall anchor : Point,
         64 / 17
         <= (px anchor + px ps * 4 - (px anchor + px pc * 4))
            * (px anchor + px ps * 4 - (px anchor + px pc * 4))
            + (py anchor + py ps * 4 - (py anchor + py pc * 4))
              * (py anchor + py ps * 4 - (py anchor + py pc * 4))
         /\ 64 / 17
            <= (px anchor + px ps * 4 - (px anchor - px pc * 4))
               * (px anchor + px ps * 4 - (px anchor - px pc * 4))
               + (py anchor + py ps * 4 - (py anchor - py pc * 4))
                 * (py anchor + py ps * 4 - (py anchor - py pc * 4)).
Proof.
  cbv zeta.
  destruct (straightEnds_perp x' y' h' (opposite startDir)) as [ps Hps].
  assert (Hc := curved_perp_defined startX startY height startDir turnRight 0).
  cbv zeta in Hc.
  destruct (curvedEnds _ startDir turnRight) as [fromEdge toEdge] eqn:Ends.
  destruct Hc as [pc Hpc].
  exists ps, pc. split; [exact Hps |]. split; [exact Hpc |].
  apply quadraticPerp_spec in Hpc. cbv zeta in Hpc.
  destruct Hpc as [lc [Hlc [Hlc2 [Hcx Hcy]]]].
  assert (Hs : exists ls : R,
             0 < ls
             /\ ls * ls
                = (px ps * ls) * (px ps * ls) + (py ps * ls) * (py ps * ls)
             /\ px ps * ls
                = px (edge (straightAnchors x' y' h')
                        (match startDir with
                         | north | south => east
                         | east | west => south
                         end))
                  - px (edge (straightAnchors x' y' h')
                          (match startDir with
                           | north | south => west
                           | east | west => north
                           end))
             /\ py ps * ls
                = py (edge (straightAnchors x' y' h')
                        (match startDir with
                         | north | south => east
                         | east | west => south
                         end))
                  - py (edge (straightAnchors x' y' h')
                          (match startDir with
                           | north | south => west
                           | east | west => north
                           end))).
  { destruct startDir; cbn [opposite straightEnds snd] in Hps;
      apply axisPerp_spec in Hps;
      destruct Hps as [ls [Hls [Hls2 [Hsx Hsy]]]];
      exists ls; cbn [edge]; rewrite Hsx, Hsy; auto. }
  destruct Hs as [ls [Hls [Hls2 [Hsx Hsy]]]].
  set (a := px ps) in *. set (b := py ps) in *.
  set (c := px pc) in *. set (d := py pc) in *.
  assert (Hprod : (a * c + b * d) * (ls * lc)
                  = (a * ls) * (c * lc) + (b * ls) * (d * lc)) by ring.
  assert (Hna : (a * a + b * b) * (ls * ls)
                = (a * ls) * (a * ls) + (b * ls) * (b * ls)) by ring.
  assert (Hnc : (c * c + d * d) * (lc * lc)
                = (c * lc) * (c * lc) + (d * lc) * (d * lc)) by ring.
  rewrite Hcx, Hcy in Hprod, Hnc. rewrite Hsx, Hsy in Hprod, Hna, Hls2.
  destruct startDir, turnRight; injection Ends as <- <-;
    cbn in Hlc2, Hprod, Hna, Hnc, Hls2; autounfold with tile in *;
    ring_simplify in Hlc2; ring_simplify in Hls2;
    (assert (El : ls = lc) by nra); subst lc;
    (assert (Hl2 : ls * ls = 34816 / 25) by lra);
    rewrite Hl2 in Hprod, Hna, Hnc;
    ring_simplify in Hprod; ring_simplify in Hna; ring_simplify in Hnc;
    (assert (Ha1 : a * a + b * b = 1) by lra);
    (assert (Hc1 : c * c + d * d = 1) by lra);
    (assert (HD : a * c + b * d = 15 / 17 \/ a * c + b * d = - (15 / 17))
       by (first [left; lra | right; lra]));
    (split; [destruct HD as [-> | ->]; lra |]);
    intros anchor; split; destruct HD; nra.
Qed.

Lemma forEach_flat_map (body : nat -> option (list canvasOp))
  (g : nat -> list canvasOp) (l : list nat) :
  (forall i, In i l -> body i = Some (g i)) ->
  forEach body l = Some (flat_map g l).
Proof.
  induction l as [| i l IH]; intros H; cbn [forEach flat_map].
  - reflexivity.
  - rewrite (H i (or_introl eq_refl)), IH by (intros j Hj; apply H; now right).
    reflexivity.
Qed.

(** The trace of [drawCurvedTrack], written out. *)
Lemma curved_trace_explicit (startX startY height : R)
  (startDir : TrackDirection) (turnRight : bool) (trackColor : string)
  (strutStyle : StrutStyle) :
  let a := curvedAnchors startX startY height in
  let '(fromEdge, toEdge) := curvedEnds a startDir turnRight in
  let pt := quadraticPoint fromEdge (center a) toEdge in
  let perp := perpAt fromEdge (center a) toEdge in
  (forall t, quadraticPerp fromEdge (center a) toEdge t = Some (perp t))
  /\ drawCurvedTrack startX startY startDir turnRight height trackColor
       strutStyle
     = Some
         (curvedSupport fromEdge (center a) toEdge height strutStyle
          ++ ([setStrokeStyle COLORS_tie; setLineWidth 3]
              ++ flat_map
                   (fun i =>
                      tieStroke (px (pt (INR i / INR 4)))
                        (py (pt (INR i / INR 4)))
                        (px (perp (INR i / INR 4)))
                        (py (perp (INR i / INR 4))))
                   (seq 0 5))
          ++ [setStrokeStyle trackColor; setLineWidth RAIL_WIDTH;
              setLineCap round]
          ++ ([beginPath]
              ++ flat_map
                   (fun i =>
                      [(if Nat.eqb i 0 then moveTo else lineTo)
                         (px (pt (INR i / INR 16))
                          + px (perp (INR i / INR 16)) * (TRACK_WIDTH / 2)
                            * -1)
                         (py (pt (INR i / INR 16))
                          + py (perp (INR i / INR 16)) * (TRACK_WIDTH / 2)
                            * -1)])
                   (seq 0 17)
              ++ [stroke])
          ++ ([beginPath]
              ++ flat_map
                   (fun i =>
                      [(if Nat.eqb i 0 then moveTo else lineTo)
                         (px (pt (INR i / INR 16))
                          + px (perp (INR i / INR 16)) * (TRACK_WIDTH / 2)
                            * 1)
                         (py (pt (INR i / INR 16))
                          + py (perp (INR i / INR 16)) * (TRACK_WIDTH / 2)
                            * 1)])
                   (seq 0 17)
              ++ [stroke])).
Proof.
  assert (Hd := fun t =>
                  curved_perp_defined startX startY height startDir turnRight t).
  cbv zeta in *.
  unfold drawCurvedTrack.
  destruct (curvedEnds _ startDir turnRight) as [fromEdge toEdge].
  set (c := center (curvedAnchors startX startY height)) in *.
  assert (Hp : forall t, quadraticPerp fromEdge c toEdge t
                         = Some (perpAt fromEdge c toEdge t)).
  { intros t. unfold perpAt. destruct (Hd t) as [p ->]. reflexivity. }
  split; [exact Hp |].
  unfold curvedTies, curvedRail.
  rewrite (forEach_flat_map _
             (fun i =>
                tieStroke (px (quadraticPoint fromEdge c toEdge (INR i / INR 4)))
                  (py (quadraticPoint fromEdge c toEdge (INR i / INR 4)))
                  (px (perpAt fromEdge c toEdge (INR i / INR 4)))
                  (py (perpAt fromEdge c toEdge (INR i / INR 4)))))
    by (intros i _; rewrite Hp; reflexivity).
  cbn [obind].
  rewrite (forEach_flat_map _
             (fun i =>
                [(if Nat.eqb i 0 then moveTo else lineTo)
                   (px (quadraticPoint fromEdge c toEdge (INR i / INR 16))
                    + px (perpAt fromEdge c toEdge (INR i / INR 16))
                      * (TRACK_WIDTH / 2) * -1)
                   (py (quadraticPoint fromEdge c toEdge (INR i / INR 16))
                    + py (perpAt fromEdge c toEdge (INR i / INR 16))
                      * (TRACK_WIDTH / 2) * -1)]))
    by (intros i _; rewrite Hp; cbn [obind]; destruct (Nat.eqb i 0);
        reflexivity).
  cbn [obind].
  rewrite (forEach_flat_map _
             (fun i =>
                [(if Nat.eqb i 0 then moveTo else lineTo)
                   (px (quadraticPoint fromEdge c toEdge (INR i / INR 16))
                    + px (perpAt fromEdge c toEdge (INR i / INR 16))
                      * (TRACK_WIDTH / 2) * 1)
                   (py (quadraticPoint fromEdge c toEdge (INR i / INR 16))
                    + py (perpAt fromEdge c toEdge (INR i / INR 16))
                      * (TRACK_WIDTH / 2) * 1)]))
    by (intros i _; rewrite Hp; cbn [obind]; destruct (Nat.eqb i 0);
        reflexivity).
  reflexivity.
Qed.

Lemma nth_error_map_seq {A : Type} (g : nat -> A) (n i : nat) :
  (i < n)%nat -> nth_error (map g (seq 0 n)) i = Some (g i).
Proof.
  intros H. rewrite nth_error_map.
  rewrite (nth_error_nth' (seq 0 n) 0%nat) by (rewrite length_seq; exact H).
  rewrite seq_nth by exact H. reflexivity.
Qed.

Lemma eqb_false_sym (s1 s2 : string) : s1 <> s2 -> String.eqb s2 s1 = false.
Proof. intros H. apply String.eqb_neq. congruence. Qed.

(** The crossties and the rails [drawCurvedTrack] strokes. *)
Lemma curved_stroked (startX startY height : R) (startDir : TrackDirection)
  (turnRight : bool) (trackColor : string) (strutStyle : StrutStyle)
  (cur : string) :
  trackColor <> COLORS_tie ->
  let a := curvedAnchors startX startY height in
  let '(fromEdge, toEdge) := curvedEnds a startDir turnRight in
  let pt := quadraticPoint fromEdge (center a) toEdge in
  let perp := perpAt fromEdge (center a) toEdge in
  exists ops : list canvasOp,
    drawCurvedTrack startX startY startDir turnRight height trackColor
      strutStyle = Some ops
    /\ strokedPaths COLORS_tie cur [] ops
       = map
           (fun i =>
              [ mkPoint
                  (px (pt (INR i / INR 4))
                   - px (perp (INR i / INR 4)) * TIE_LENGTH / 2)
                  (py (pt (INR i / INR 4))
                   - py (perp (INR i / INR 4)) * TIE_LENGTH / 2);
                mkPoint
                  (px (pt (INR i / INR 4))
                   + px (perp (INR i / INR 4)) * TIE_LENGTH / 2)
                  (py (pt (INR i / INR 4))
                   + py (perp (INR i / INR 4)) * TIE_LENGTH / 2) ])
           (seq 0 5)
    /\ strokedPaths trackColor cur [] ops
       = [ map
             (fun i =>
                mkPoint
                  (px (pt (INR i / INR 16))
                   + px (perp (INR i / INR 16)) * (TRACK_WIDTH / 2) * -1)
                  (py (pt (INR i / INR 16))
                   + py (perp (INR i / INR 16)) * (TRACK_WIDTH / 2) * -1))
             (seq 0 17);
           map
             (fun i =>
                mkPoint
                  (px (pt (INR i / INR 16))
                   + px (perp (INR i / INR 16)) * (TRACK_WIDTH / 2) * 1)
                  (py (pt (INR i / INR 16))
                   + py (perp (INR i / INR 16)) * (TRACK_WIDTH / 2) * 1))
             (seq 0 17) ].
Proof.
  intros Hc.
  assert (H := curved_trace_explicit startX startY height startDir turnRight
                 trackColor strutStyle).
  cbv zeta in *.
  destruct (curvedEnds _ startDir turnRight) as [fromEdge toEdge].
  destruct H as [_ H]. rewrite H. eexists. split; [reflexivity |].
  assert (E1 := eqb_false_sym _ _ Hc).
  apply String.eqb_neq in Hc.
  unfold curvedSupport.
  split;
    (destruct (Rgt_dec height 0);
     [ destruct strutStyle;
       unfold drawSupport, drawWoodSupport, drawMetalSupport;
       destruct (Rle_dec height 0) | ]);
    cbn [seq flat_map tieStroke app strokedPaths map Nat.eqb];
    rewrite ?String.eqb_refl, ?Hc, ?E1; reflexivity.
Qed.

(** X9. The two rails of a curve are polylines of 17 vertices that
    straddle the centre line: at every sample [i / 16] the left and the
    right vertex are the curve point moved by 4 pixels against and along
    the perpendicular there, so they are exactly [TRACK_WIDTH] apart. *)
Theorem curved_rails_gauge (startX startY height : R)
  (startDir : TrackDirection) (turnRight : bool) (trackColor : string)
  (strutStyle : StrutStyle) (cur : string) (i : nat) :
  trackColor <> COLORS_tie ->
  (i <= 16)%nat ->
  let a := curvedAnchors startX startY height in
  let '(fromEdge, toEdge) := curvedEnds a startDir turnRight in
  let pt := quadraticPoint fromEdge (center a) toEdge (INR i / INR 16) in
  exists (ops : list canvasOp) (left right : list Point) (l r perp : Point),
    drawCurvedTrack startX startY startDir turnRight height trackColor
      strutStyle = Some ops
    /\ strokedPaths trackColor cur [] ops = [left; right]
    /\ List.length left = 17%nat
    /\ List.length right = 17%nat
    /\ nth_error left i = Some l
    /\ nth_error right i = Some r
    /\ quadraticPerp fromEdge (center a) toEdge (INR i / INR 16) = Some perp
    /\ l = mkPoint (px pt - 4 * px perp) (py pt - 4 * py perp)
    /\ r = mkPoint (px pt + 4 * px perp) (py pt + 4 * py perp)
    /\ dist2 l r = TRACK_WIDTH * TRACK_WIDTH.
Proof.
  intros Hc Hi.
  assert (H := curved_stroked startX startY height startDir turnRight
                 trackColor strutStyle cur Hc).
  assert (He := curved_trace_explicit startX startY height startDir turnRight
                  trackColor strutStyle).
  cbv zeta in *.
  destruct (curvedEnds _ startDir turnRight) as [fromEdge toEdge].
  destruct H as [ops [Hops [_ Hrails]]]. destruct He as [Hp _].
  set (c := center (curvedAnchors startX startY height)) in *.
  set (t := INR i / INR 16) in *.
  exists ops. do 2 eexists.
  exists (mkPoint (px (quadraticPoint fromEdge c toEdge t)
                   - 4 * px (perpAt fromEdge c toEdge t))
                  (py (quadraticPoint fromEdge c toEdge t)
                   - 4 * py (perpAt fromEdge c toEdge t))),
         (mkPoint (px (quadraticPoint fromEdge c toEdge t)
                   + 4 * px (perpAt fromEdge c toEdge t))
                  (py (quadraticPoint fromEdge c toEdge t)
                   + 4 * py (perpAt fromEdge c toEdge t))),
         (perpAt fromEdge c toEdge t).
  split; [exact Hops |]. split; [exact Hrails |].
  split; [now rewrite length_map, length_seq |].
  split; [now rewrite length_map, length_seq |].
  split; [rewrite nth_error_map_seq by lia; fold t; f_equal;
          apply point_eq; unfold TRACK_WIDTH; lra |].
  split; [rewrite nth_error_map_seq by lia; fold t; f_equal;
          apply point_eq; unfold TRACK_WIDTH; lra |].
  split; [apply Hp |]. split; [reflexivity |]. split; [reflexivity |].
  assert (Hu := quadraticPerp_unit _ _ _ _ _ (Hp t)).
  unfold dist2, TRACK_WIDTH; cbn [px py]. nra.
Qed.

Lemma curved_rails_gauge_witness :
  let a := curvedAnchors 0 0 1 in
  let '(fromEdge, toEdge) := curvedEnds a north true in
  let pt := quadraticPoint fromEdge (center a) toEdge (INR 8 / INR 16) in
  exists (ops : list canvasOp) (left right : list Point) (l r perp : Point),
    drawCurvedTrack 0 0 north true 1 COLORS_rail wood = Some ops
    /\ strokedPaths COLORS_rail EmptyString [] ops = [left; right]
    /\ List.length left = 17%nat
    /\ List.length right = 17%nat
    /\ nth_error left 8 = Some l
    /\ nth_error right 8 = Some r
    /\ quadraticPerp fromEdge (center a) toEdge (INR 8 / INR 16) = Some perp
    /\ l = mkPoint (px pt - 4 * px perp) (py pt - 4 * py perp)
    /\ r = mkPoint (px pt + 4 * px perp) (py pt + 4 * py perp)
    /\ dist2 l r = TRACK_WIDTH * TRACK_WIDTH.
Proof.
  apply (curved_rails_gauge 0 0 1 north true COLORS_rail wood EmptyString 8);
    [discriminate | lia].
Defined.

(** X10. A curve gets five crossties, at the quarter points of the
    parameter: each is centred on the curve, runs along the perpendicular
    there and is [TIE_LENGTH] long. *)
Theorem curved_crossties (startX startY height : R)
  (startDir : TrackDirection) (turnRight : bool) (trackColor : string)
  (strutStyle : StrutStyle) (cur : string) (i : nat) :
  trackColor <> COLORS_tie ->
  (i <= 4)%nat ->
  let a := curvedAnchors startX startY height in
  let '(fromEdge, toEdge) := curvedEnds a startDir turnRight in
  let pt := quadraticPoint fromEdge (center a) toEdge (INR i / INR 4) in
  exists (ops : list canvasOp) (p q perp : Point),
    drawCurvedTrack startX startY startDir turnRight height trackColor
      strutStyle = Some ops
    /\ strokesIn COLORS_tie cur ops = 5%nat
    /\ nth_error (strokedPaths COLORS_tie cur [] ops) i = Some [p; q]
    /\ quadraticPerp fromEdge (center a) toEdge (INR i / INR 4) = Some perp
    /\ p = mkPoint (px pt - 6 * px perp) (py pt - 6 * py perp)
    /\ q = mkPoint (px pt + 6 * px perp) (py pt + 6 * py perp)
    /\ dist2 p q = TIE_LENGTH * TIE_LENGTH.
Proof.
  intros Hc Hi.
  assert (H := curved_stroked startX startY height startDir turnRight
                 trackColor strutStyle cur Hc).
  assert (He := curved_trace_explicit startX startY height startDir turnRight
                  trackColor strutStyle).
  cbv zeta in *.
  destruct (curvedEnds _ startDir turnRight) as [fromEdge toEdge].
  destruct H as [ops [Hops [Hties _]]]. destruct He as [Hp _].
  set (c := center (curvedAnchors startX startY height)) in *.
  set (t := INR i / INR 4) in *.
  exists ops.
  exists (mkPoint (px (quadraticPoint fromEdge c toEdge t)
                   - 6 * px (perpAt fromEdge c toEdge t))
                  (py (quadraticPoint fromEdge c toEdge t)
                   - 6 * py (perpAt fromEdge c toEdge t))),
         (mkPoint (px (quadraticPoint fromEdge c toEdge t)
                   + 6 * px (perpAt fromEdge c toEdge t))
                  (py (quadraticPoint fromEdge c toEdge t)
                   + 6 * py (perpAt fromEdge c toEdge t))),
         (perpAt fromEdge c toEdge t).
  split; [exact Hops |].
  split; [unfold strokesIn; rewrite Hties; reflexivity |].
  split; [rewrite Hties, nth_error_map_seq by lia; fold t; do 2 f_equal;
          [| f_equal]; apply point_eq; unfold TIE_LENGTH; lra |].
  split; [apply Hp |]. split; [reflexivity |]. split; [reflexivity |].
  assert (Hu := quadraticPerp_unit _ _ _ _ _ (Hp t)).
  unfold dist2, TIE_LENGTH; cbn [px py]. nra.
Qed.

Lemma curved_crossties_witness :
  let a := curvedAnchors 0 0 0 in
  let '(fromEdge, toEdge) := curvedEnds a west false in
  let pt := quadraticPoint fromEdge (center a) toEdge (INR 4 / INR 4) in
  exists (ops : list canvasOp) (p q perp : Point),
    drawCurvedTrack 0 0 west false 0 COLORS_rail metal = Some ops
    /\ strokesIn COLORS_tie EmptyString ops = 5%nat
    /\ nth_error (strokedPaths COLORS_tie EmptyString [] ops) 4 = Some [p; q]
    /\ quadraticPerp fromEdge (center a) toEdge (INR 4 / INR 4) = Some perp
    /\ p = mkPoint (px pt - 6 * px perp) (py pt - 6 * py perp)
    /\ q = mkPoint (px pt + 6 * px perp) (py pt + 6 * py perp)
    /\ dist2 p q = TIE_LENGTH * TIE_LENGTH.
Proof.
  apply (curved_crossties 0 0 0 west false COLORS_rail metal EmptyString 4);
    [discriminate | lia].
Defined.

(** ** The straight and the sloped track, again *)

Lemma straight_trace_explicit (startX startY : R) (direction : TrackDirection)
  (height : R) (trackColor : string) (strutStyle : StrutStyle) :
  let a := straightAnchors startX startY height in
  let '(fromEdge, toEdge, groundPerp) := straightEnds a direction in
  exists perp : Point,
    groundPerp = Some perp
    /\ px perp * px perp + py perp * py perp = 1
    /\ straightNumTies fromEdge toEdge = 4%nat
    /\ drawStraightTrack startX startY direction height trackColor strutStyle
       = Some
           ((if Rgt_dec height 0
             then drawSupport (px (center a))
                    (py (center a) + height * HEIGHT_UNIT) height (Some perp)
                    strutStyle
             else [])
            ++ straightTies fromEdge toEdge perp
            ++ straightRails fromEdge toEdge perp trackColor).
Proof.
  assert (Hn := straightNumTies_tile startX startY height direction).
  destruct (straightEnds_perp startX startY height direction) as [perp Hp].
  unfold drawStraightTrack. cbv zeta.
  destruct (straightEnds _ direction) as [[fromEdge toEdge] operp] eqn:Ends.
  cbn [snd] in Hp. subst operp.
  exists perp. split; [reflexivity |]. split; [| split; [exact Hn | reflexivity]].
  assert (Hs : exists e w, axisPerp e w = Some perp).
  { destruct direction; cbn [straightEnds] in Ends; injection Ends as _ _ E;
      eauto. }
  destruct Hs as [e [w Hs]]. apply axisPerp_spec in Hs.
  destruct Hs as [len [Hl [Hl2 [Hx Hy]]]].
  assert (H : (px perp * px perp + py perp * py perp) * (len * len)
              = len * len) by (rewrite Hl2 at 2; rewrite <- Hx, <- Hy; ring).
  assert (Hpos : 0 < len * len) by nra.
  apply (Rmult_eq_reg_r (len * len)); [lra | lra].
Qed.

(** The crossties and the rails [drawStraightTrack] strokes. *)
Lemma straight_stroked (startX startY : R) (direction : TrackDirection)
  (height : R) (trackColor : string) (strutStyle : StrutStyle) (cur : string) :
  trackColor <> COLORS_tie ->
  let a := straightAnchors startX startY height in
  let '(fromEdge, toEdge, groundPerp) := straightEnds a direction in
  exists (ops : list canvasOp) (perp : Point),
    drawStraightTrack startX startY direction height trackColor strutStyle
    = Some ops
    /\ groundPerp = Some perp
    /\ px perp * px perp + py perp * py perp = 1
    /\ strokedPaths COLORS_tie cur [] ops
       = map
           (fun i =>
              let tieX :=
                px fromEdge + (px toEdge - px fromEdge) * (INR i / INR 4) in
              let tieY :=
                py fromEdge + (py toEdge - py fromEdge) * (INR i / INR 4) in
              [ mkPoint (tieX - px perp * TIE_LENGTH / 2)
                        (tieY - py perp * TIE_LENGTH / 2);
                mkPoint (tieX + px perp * TIE_LENGTH / 2)
                        (tieY + py perp * TIE_LENGTH / 2) ])
           (seq 0 5)
    /\ strokedPaths trackColor cur [] ops
       = [ [ mkPoint (px fromEdge - px perp * (TRACK_WIDTH / 2))
                     (py fromEdge - py perp * (TRACK_WIDTH / 2));
             mkPoint (px toEdge - px perp * (TRACK_WIDTH / 2))
                     (py toEdge - py perp * (TRACK_WIDTH / 2)) ];
           [ mkPoint (px fromEdge + px perp * (TRACK_WIDTH / 2))
                     (py fromEdge + py perp * (TRACK_WIDTH / 2));
             mkPoint (px toEdge + px perp * (TRACK_WIDTH / 2))
                     (py toEdge + py perp * (TRACK_WIDTH / 2)) ] ].
Proof.
  intros Hc.
  assert (H := straight_trace_explicit startX startY direction height
                 trackColor strutStyle).
  cbv zeta in *.
  destruct (straightEnds _ direction) as [[fromEdge toEdge] operp].
  destruct H as [perp [Hp [Hu [Hn H]]]].
  rewrite H. eexists. exists perp.
  split; [reflexivity |]. split; [exact Hp |]. split; [exact Hu |].
  assert (E1 := eqb_false_sym _ _ Hc).
  apply String.eqb_neq in Hc.
  unfold straightTies. rewrite Hn. unfold straightRails.
  split;
    (destruct (Rgt_dec height 0);
     [ destruct strutStyle;
       unfold drawSupport, drawWoodSupport, drawMetalSupport;
       destruct (Rle_dec height 0) | ]);
    cbn [seq flat_map tieStroke app strokedPaths map];
    rewrite ?String.eqb_refl, ?Hc, ?E1; reflexivity.
Qed.

(** X11. A straight track gets five crossties, evenly spaced from the
    entry anchor ([i = 0]) to the exit anchor ([i = 4]): each is centred on
    the centre line, runs along the ground perpendicular, which has length
    one, and is [TIE_LENGTH] long. *)
Theorem straight_crossties_geometry (startX startY : R)
  (direction : TrackDirection) (height : R) (trackColor : string)
  (strutStyle : StrutStyle) (cur : string) (i : nat) :
  trackColor <> COLORS_tie ->
  (i <= 4)%nat ->
  let a := straightAnchors startX startY height in
  let '(fromEdge, toEdge, groundPerp) := straightEnds a direction in
  let tieX := px fromEdge + (px toEdge - px fromEdge) * (INR i / 4) in
  let tieY := py fromEdge + (py toEdge - py fromEdge) * (INR i / 4) in
  exists (ops : list canvasOp) (p q perp : Point),
    drawStraightTrack startX startY direction height trackColor strutStyle
    = Some ops
    /\ groundPerp = Some perp
    /\ nth_error (strokedPaths COLORS_tie cur [] ops) i = Some [p; q]
    /\ p = mkPoint (tieX - 6 * px perp) (tieY - 6 * py perp)
    /\ q = mkPoint (tieX + 6 * px perp) (tieY + 6 * py perp)
    /\ dist2 p q = TIE_LENGTH * TIE_LENGTH.
Proof.
  intros Hc Hi.
  assert (H := straight_stroked startX startY direction height trackColor
                 strutStyle cur Hc).
  cbv zeta in *.
  destruct (straightEnds _ direction) as [[fromEdge toEdge] operp].
  destruct H as [ops [perp [Hops [Hp [Hu [Hties _]]]]]].
  exists ops.
  exists (mkPoint
            (px fromEdge + (px toEdge - px fromEdge) * (INR i / 4)
             - 6 * px perp)
            (py fromEdge + (py toEdge - py fromEdge) * (INR i / 4)
             - 6 * py perp)),
         (mkPoint
            (px fromEdge + (px toEdge - px fromEdge) * (INR i / 4)
             + 6 * px perp)
            (py fromEdge + (py toEdge - py fromEdge) * (INR i / 4)
             + 6 * py perp)),
         perp.
  split; [exact Hops |]. split; [exact Hp |].
  assert (H4 : INR 4 = 4) by (cbn [INR]; lra).
  split; [rewrite Hties, nth_error_map_seq by lia; rewrite H4;
          unfold TIE_LENGTH; f_equal; points_eq; lra |].
  split; [reflexivity |]. split; [reflexivity |].
  unfold dist2, TIE_LENGTH; cbn [px py]. nra.
Qed.

Lemma straight_crossties_geometry_witness :
  let a := straightAnchors 0 0 2 in
  let '(fromEdge, toEdge, groundPerp) := straightEnds a east in
  let tieX := px fromEdge + (px toEdge - px fromEdge) * (INR 3 / 4) in
  let tieY := py fromEdge + (py toEdge - py fromEdge) * (INR 3 / 4) in
  exists (ops : list canvasOp) (p q perp : Point),
    drawStraightTrack 0 0 east 2 COLORS_rail metal = Some ops
    /\ groundPerp = Some perp
    /\ nth_error (strokedPaths COLORS_tie EmptyString [] ops) 3 = Some [p; q]
    /\ p = mkPoint (tieX - 6 * px perp) (tieY - 6 * py perp)
    /\ q = mkPoint (tieX + 6 * px perp) (tieY + 6 * py perp)
    /\ dist2 p q = TIE_LENGTH * TIE_LENGTH.
Proof.
  apply (straight_crossties_geometry 0 0 east 2 COLORS_rail metal EmptyString 3);
    [discriminate | lia].
Defined.

(** X12. The two rails of a straight track are the centre line moved by 4
    pixels against and along the ground perpendicular: both run from the
    entry side to the exit side parallel to the centre line, and they are
    exactly [TRACK_WIDTH] apart at both ends. *)
Theorem straight_rails_gauge (startX startY : R) (direction : TrackDirection)
  (height : R) (trackColor : string) (strutStyle : StrutStyle) (cur : string) :
  trackColor <> COLORS_tie ->
  let a := straightAnchors startX startY height in
  let '(fromEdge, toEdge, groundPerp) := straightEnds a direction in
  exists (ops : list canvasOp) (l1 l2 r1 r2 perp : Point),
    drawStraightTrack startX startY direction height trackColor strutStyle
    = Some ops
    /\ groundPerp = Some perp
    /\ strokedPaths trackColor cur [] ops = [[l1; l2]; [r1; r2]]
    /\ l1 = mkPoint (px fromEdge - 4 * px perp) (py fromEdge - 4 * py perp)
    /\ l2 = mkPoint (px toEdge - 4 * px perp) (py toEdge - 4 * py perp)
    /\ r1 = mkPoint (px fromEdge + 4 * px perp) (py fromEdge + 4 * py perp)
    /\ r2 = mkPoint (px toEdge + 4 * px perp) (py toEdge + 4 * py perp)
    /\ dist2 l1 r1 = TRACK_WIDTH * TRACK_WIDTH
    /\ dist2 l2 r2 = TRACK_WIDTH * TRACK_WIDTH.
Proof.
  intros Hc.
  assert (H := straight_stroked startX startY direction height trackColor
                 strutStyle cur Hc).
  cbv zeta in *.
  destruct (straightEnds _ direction) as [[fromEdge toEdge] operp].
  destruct H as [ops [perp [Hops [Hp [Hu [_ Hrails]]]]]].
  exists ops.
  exists (mkPoint (px fromEdge - 4 * px perp) (py fromEdge - 4 * py perp)),
         (mkPoint (px toEdge - 4 * px perp) (py toEdge - 4 * py perp)),
         (mkPoint (px fromEdge + 4 * px perp) (py fromEdge + 4 * py perp)),
         (mkPoint (px toEdge + 4 * px perp) (py toEdge + 4 * py perp)),
         perp.
  split; [exact Hops |]. split; [exact Hp |].
  split; [rewrite Hrails; unfold TRACK_WIDTH; points_eq; lra |].
  do 4 (split; [reflexivity |]).
  unfold dist2, TRACK_WIDTH; cbn [px py]. split; nra.
Qed.

Lemma straight_rails_gauge_witness :
  let a := straightAnchors 0 0 1 in
  let '(fromEdge, toEdge, groundPerp) := straightEnds a west in
  exists (ops : list canvasOp) (l1 l2 r1 r2 perp : Point),
    drawStraightTrack 0 0 west 1 COLORS_rail wood = Some ops
    /\ groundPerp = Some perp
    /\ strokedPaths COLORS_rail EmptyString [] ops = [[l1; l2]; [r1; r2]]
    /\ l1 = mkPoint (px fromEdge - 4 * px perp) (py fromEdge - 4 * py perp)
    /\ l2 = mkPoint (px toEdge - 4 * px perp) (py toEdge - 4 * py perp)
    /\ r1 = mkPoint (px fromEdge + 4 * px perp) (py fromEdge + 4 * py perp)
    /\ r2 = mkPoint (px toEdge + 4 * px perp) (py toEdge + 4 * py perp)
    /\ dist2 l1 r1 = TRACK_WIDTH * TRACK_WIDTH
    /\ dist2 l2 r2 = TRACK_WIDTH * TRACK_WIDTH.
Proof.
  apply (straight_rails_gauge 0 0 west 1 COLORS_rail wood EmptyString).
  discriminate.
Defined.

(** Crossties stroked in another colour leave no path. *)
Lemma strokedPaths_ties_skip (style cur : string) (f g : nat -> R) (a b : R)
  (l : list nat) (rest : list canvasOp) :
  String.eqb cur style = false ->
  forall p : list Point,
  exists p' : list Point,
    strokedPaths style cur p
      (flat_map (fun i => tieStroke (f i) (g i) a b) l ++ rest)
    = strokedPaths style cur p' rest.
Proof.
  intros Hc. induction l as [| i l IH]; intros p.
  - exists p. reflexivity.
  - cbn [flat_map tieStroke app strokedPaths]. rewrite Hc. cbn [app].
    apply IH.
Qed.

(** Crossties stroked in the colour looked for: one path each. *)
Lemma strokedPaths_ties_count (style : string) (f g : nat -> R) (a b : R)
  (l : list nat) (rest : list canvasOp) :
  forall p : list Point,
  exists p' : list Point,
    strokedPaths style style p
      (flat_map (fun i => tieStroke (f i) (g i) a b) l ++ rest)
    = map
        (fun i =>
           [ mkPoint (f i - a * TIE_LENGTH / 2) (g i - b * TIE_LENGTH / 2);
             mkPoint (f i + a * TIE_LENGTH / 2) (g i + b * TIE_LENGTH / 2) ])
        l
      ++ strokedPaths style style p' rest.
Proof.
  induction l as [| i l IH]; intros p.
  - exists p. reflexivity.
  - cbn [flat_map tieStroke app strokedPaths]. rewrite String.eqb_refl.
    cbn [app map].
    match goal with
    | |- context [strokedPaths style style ?q (flat_map _ l ++ rest)] =>
        destruct (IH q) as [p' Hp']
    end.
    exists p'. rewrite Hp'. reflexivity.
Qed.

(** The crossties and the rails [drawSlopeTrack] strokes. *)
Lemma slope_stroked (startX startY : R) (direction : TrackDirection)
  (startHeight endHeight : R) (trackColor : string) (strutStyle : StrutStyle)
  (cur : string) :
  trackColor <> COLORS_tie ->
  let '(fromEdge, toEdge, groundPerp) :=
    slopeEnds (slopeAnchors startX startY) direction in
  let x1 := px fromEdge in
  let y1 := py fromEdge - startHeight * HEIGHT_UNIT in
  let x2 := px toEdge in
  let y2 := py toEdge - endHeight * HEIGHT_UNIT in
  let numTies :=
    Z.to_nat (Z.max 3 (floor (hypot (x2 - x1) (y2 - y1) / TIE_SPACING))) in
  exists (ops : list canvasOp) (perp : Point),
    drawSlopeTrack startX startY direction startHeight endHeight trackColor
      strutStyle = Some ops
    /\ groundPerp = Some perp
    /\ px perp * px perp + py perp * py perp = 1
    /\ strokedPaths COLORS_tie cur [] ops
       = map
           (fun i =>
              let tieX := x1 + (x2 - x1) * (INR i / INR numTies) in
              let tieY := y1 + (y2 - y1) * (INR i / INR numTies) in
              [ mkPoint (tieX - px perp * TIE_LENGTH / 2)
                        (tieY - py perp * TIE_LENGTH / 2);
                mkPoint (tieX + px perp * TIE_LENGTH / 2)
                        (tieY + py perp * TIE_LENGTH / 2) ])
           (seq 0 (S numTies))
    /\ strokedPaths trackColor cur [] ops
       = [ [ mkPoint (x1 - px perp * (TRACK_WIDTH / 2))
                     (y1 - py perp * (TRACK_WIDTH / 2));
             mkPoint (x2 - px perp * (TRACK_WIDTH / 2))
                     (y2 - py perp * (TRACK_WIDTH / 2)) ];
           [ mkPoint (x1 + px perp * (TRACK_WIDTH / 2))
                     (y1 + py perp * (TRACK_WIDTH / 2));
             mkPoint (x2 + px perp * (TRACK_WIDTH / 2))
                     (y2 + py perp * (TRACK_WIDTH / 2)) ] ].
Proof.
  intros Hc.
  destruct (slopeEnds_perp startX startY direction) as [perp Hp].
  unfold drawSlopeTrack. cbv zeta.
  destruct (slopeEnds _ direction) as [[fromEdge toEdge] operp] eqn:Ends.
  cbn [snd] in Hp. subst operp. cbn [obind].
  eexists. exists perp. split; [reflexivity |]. split; [reflexivity |].
  split.
  { assert (Hs : exists e w, axisPerp e w = Some perp).
    { destruct direction; cbn [slopeEnds] in Ends; injection Ends as _ _ E;
        eauto. }
    destruct Hs as [e [w Hs]]. apply axisPerp_spec in Hs.
    destruct Hs as [len [Hl [Hl2 [Hx Hy]]]].
    assert (H : (px perp * px perp + py perp * py perp) * (len * len)
                = len * len) by (rewrite Hl2 at 2; rewrite <- Hx, <- Hy; ring).
    assert (Hpos : 0 < len * len) by nra.
    apply (Rmult_eq_reg_r (len * len)); lra. }
  assert (E1 := eqb_false_sym _ _ Hc).
  assert (E2 : String.eqb trackColor COLORS_tie = false)
    by (now apply String.eqb_neq).
  unfold slopeTies, straightRails. cbv zeta.
  set (n := Z.to_nat (Z.max 3 (floor
              (hypot (px toEdge - px fromEdge)
                 (py toEdge - endHeight * HEIGHT_UNIT
                  - (py fromEdge - startHeight * HEIGHT_UNIT))
               / TIE_SPACING)))).
  set (F := fun i : nat =>
              px fromEdge + (px toEdge - px fromEdge) * (INR i / INR n)).
  set (G := fun i : nat =>
              py fromEdge - startHeight * HEIGHT_UNIT
              + (py toEdge - endHeight * HEIGHT_UNIT
                 - (py fromEdge - startHeight * HEIGHT_UNIT))
                * (INR i / INR n)).
  split;
    destruct strutStyle;
    unfold drawSupport, drawWoodSupport, drawMetalSupport;
    destruct (Rgt_dec startHeight 0), (Rle_dec startHeight 0),
      (Rgt_dec endHeight 0), (Rle_dec endHeight 0);
    cbn [app strokedPaths].
  all: match goal with
       | |- context [strokedPaths ?s ?c ?p (flat_map ?b ?l ++ ?rest)] =>
           first
             [ assert (Hk : exists p',
                         strokedPaths s c p (flat_map b l ++ rest)
                         = map
                             (fun i =>
                                [ mkPoint (F i - px perp * TIE_LENGTH / 2)
                                          (G i - py perp * TIE_LENGTH / 2);
                                  mkPoint (F i + px perp * TIE_LENGTH / 2)
                                          (G i + py perp * TIE_LENGTH / 2) ])
                             l
                           ++ strokedPaths s c p' rest)
                 by exact (strokedPaths_ties_count s F G (px perp) (py perp)
                             l rest p)
             | assert (Hk : exists p',
                         strokedPaths s c p (flat_map b l ++ rest)
                         = strokedPaths s c p' rest)
                 by exact (strokedPaths_ties_skip s c F G (px perp) (py perp)
                             l rest E1 p) ];
           destruct Hk as [p' Hk]; rewrite Hk
       end.
  all: cbn [strokedPaths];
    rewrite ?E2, ?String.eqb_refl; cbn [app]; rewrite ?app_nil_r;
    reflexivity.
Qed.

(** X13. The rails of a slope run between the two raised anchors, moved by
    4 pixels against and along the ground perpendicular: whatever the two
    heights, the rails are exactly [TRACK_WIDTH] apart at both ends. *)
Theorem slope_rails_gauge (startX startY : R) (direction : TrackDirection)
  (startHeight endHeight : R) (trackColor : string) (strutStyle : StrutStyle)
  (cur : string) :
  trackColor <> COLORS_tie ->
  let '(fromEdge, toEdge, groundPerp) :=
    slopeEnds (slopeAnchors startX startY) direction in
  let p1 := mkPoint (px fromEdge) (py fromEdge - startHeight * HEIGHT_UNIT) in
  let p2 := mkPoint (px toEdge) (py toEdge - endHeight * HEIGHT_UNIT) in
  exists (ops : list canvasOp) (l1 l2 r1 r2 perp : Point),
    drawSlopeTrack startX startY direction startHeight endHeight trackColor
      strutStyle = Some ops
    /\ groundPerp = Some perp
    /\ strokedPaths trackColor cur [] ops = [[l1; l2]; [r1; r2]]
    /\ l1 = mkPoint (px p1 - 4 * px perp) (py p1 - 4 * py perp)
    /\ l2 = mkPoint (px p2 - 4 * px perp) (py p2 - 4 * py perp)
    /\ r1 = mkPoint (px p1 + 4 * px perp) (py p1 + 4 * py perp)
    /\ r2 = mkPoint (px p2 + 4 * px perp) (py p2 + 4 * py perp)
    /\ dist2 l1 r1 = TRACK_WIDTH * TRACK_WIDTH
    /\ dist2 l2 r2 = TRACK_WIDTH * TRACK_WIDTH.
Proof.
  intros Hc.
  assert (H := slope_stroked startX startY direction startHeight endHeight
                 trackColor strutStyle cur Hc).
  cbv zeta in *.
  destruct (slopeEnds _ direction) as [[fromEdge toEdge] operp].
  destruct H as [ops [perp [Hops [Hp [Hu [_ Hrails]]]]]].
  exists ops.
  exists (mkPoint (px fromEdge - 4 * px perp)
            (py fromEdge - startHeight * HEIGHT_UNIT - 4 * py perp)),
         (mkPoint (px toEdge - 4 * px perp)
            (py toEdge - endHeight * HEIGHT_UNIT - 4 * py perp)),
         (mkPoint (px fromEdge + 4 * px perp)
            (py fromEdge - startHeight * HEIGHT_UNIT + 4 * py perp)),
         (mkPoint (px toEdge + 4 * px perp)
            (py toEdge - endHeight * HEIGHT_UNIT + 4 * py perp)),
         perp.
  split; [exact Hops |]. split; [exact Hp |].
  split; [rewrite Hrails; unfold TRACK_WIDTH; points_eq; lra |].
  do 4 (split; [reflexivity |]).
  unfold dist2, TRACK_WIDTH; cbn [px py]. split; nra.
Qed.

Lemma slope_rails_gauge_witness :
  let '(fromEdge, toEdge, groundPerp) :=
    slopeEnds (slopeAnchors 0 0) north in
  let p1 := mkPoint (px fromEdge) (py fromEdge - 0 * HEIGHT_UNIT) in
  let p2 := mkPoint (px toEdge) (py toEdge - 2 * HEIGHT_UNIT) in
  exists (ops : list canvasOp) (l1 l2 r1 r2 perp : Point),
    drawSlopeTrack 0 0 north 0 2 COLORS_rail metal = Some ops
    /\ groundPerp = Some perp
    /\ strokedPaths COLORS_rail EmptyString [] ops = [[l1; l2]; [r1; r2]]
    /\ l1 = mkPoint (px p1 - 4 * px perp) (py p1 - 4 * py perp)
    /\ l2 = mkPoint (px p2 - 4 * px perp) (py p2 - 4 * py perp)
    /\ r1 = mkPoint (px p1 + 4 * px perp) (py p1 + 4 * py perp)
    /\ r2 = mkPoint (px p2 + 4 * px perp) (py p2 + 4 * py perp)
    /\ dist2 l1 r1 = TRACK_WIDTH * TRACK_WIDTH
    /\ dist2 l2 r2 = TRACK_WIDTH * TRACK_WIDTH.
Proof.
  apply (slope_rails_gauge 0 0 north 0 2 COLORS_rail metal EmptyString).
  discriminate.
Defined.

(** X14. A slope gets [max 3 (floor (trackLen / TIE_SPACING)) + 1]
    crossties, [trackLen] being the screen distance between its two raised
    anchors: never fewer than four, the first centred on the entry anchor
    and the last on the exit anchor. *)
Theorem slope_crossties (startX startY : R) (direction : TrackDirection)
  (startHeight endHeight : R) (trackColor : string) (strutStyle : StrutStyle)
  (cur : string) :
  trackColor <> COLORS_tie ->
  let '(fromEdge, toEdge, groundPerp) :=
    slopeEnds (slopeAnchors startX startY) direction in
  let p1 := mkPoint (px fromEdge) (py fromEdge - startHeight * HEIGHT_UNIT) in
  let p2 := mkPoint (px toEdge) (py toEdge - endHeight * HEIGHT_UNIT) in
  let trackLen := hypot (px p2 - px p1) (py p2 - py p1) in
  let numTies := Z.to_nat (Z.max 3 (floor (trackLen / TIE_SPACING))) in
  exists (ops : list canvasOp) (ties : list (list Point)) (perp : Point),
    drawSlopeTrack startX startY direction startHeight endHeight trackColor
      strutStyle = Some ops
    /\ groundPerp = Some perp
    /\ strokedPaths COLORS_tie cur [] ops = ties
    /\ strokesIn COLORS_tie cur ops = (numTies + 1)%nat
    /\ (4 <= numTies + 1)%nat
    /\ nth_error ties 0
       = Some [ mkPoint (px p1 - 6 * px perp) (py p1 - 6 * py perp);
                mkPoint (px p1 + 6 * px perp) (py p1 + 6 * py perp) ]
    /\ nth_error ties numTies
       = Some [ mkPoint (px p2 - 6 * px perp) (py p2 - 6 * py perp);
                mkPoint (px p2 + 6 * px perp) (py p2 + 6 * py perp) ].
Proof.
  intros Hc.
  assert (H := slope_stroked startX startY direction startHeight endHeight
                 trackColor strutStyle cur Hc).
  cbv zeta in *. cbn [px py].
  destruct (slopeEnds _ direction) as [[fromEdge toEdge] operp].
  destruct H as [ops [perp [Hops [Hp [_ [Hties _]]]]]].
  set (n := Z.to_nat _) in *.
  assert (Hn : (3 <= n)%nat) by (subst n; lia).
  assert (Hn0 : INR n <> 0) by (apply not_0_INR; lia).
  exists ops. eexists. exists perp.
  split; [exact Hops |]. split; [exact Hp |]. split; [exact Hties |].
  split; [unfold strokesIn; rewrite Hties, length_map, length_seq; lia |].
  split; [lia |].
  split; rewrite nth_error_map_seq by lia; f_equal; unfold TIE_LENGTH;
    points_eq; cbn [INR]; try lra; field; exact Hn0.
Qed.

Lemma slope_crossties_witness :
  let '(fromEdge, toEdge, groundPerp) :=
    slopeEnds (slopeAnchors 0 0) east in
  let p1 := mkPoint (px fromEdge) (py fromEdge - 1 * HEIGHT_UNIT) in
  let p2 := mkPoint (px toEdge) (py toEdge - 3 * HEIGHT_UNIT) in
  let trackLen := hypot (px p2 - px p1) (py p2 - py p1) in
  let numTies := Z.to_nat (Z.max 3 (floor (trackLen / TIE_SPACING))) in
  exists (ops : list canvasOp) (ties : list (list Point)) (perp : Point),
    drawSlopeTrack 0 0 east 1 3 COLORS_rail wood = Some ops
    /\ groundPerp = Some perp
    /\ strokedPaths COLORS_tie EmptyString [] ops = ties
    /\ strokesIn COLORS_tie EmptyString ops = (numTies + 1)%nat
    /\ (4 <= numTies + 1)%nat
    /\ nth_error ties 0
       = Some [ mkPoint (px p1 - 6 * px perp) (py p1 - 6 * py perp);
                mkPoint (px p1 + 6 * px perp) (py p1 + 6 * py perp) ]
    /\ nth_error ties numTies
       = Some [ mkPoint (px p2 - 6 * px perp) (py p2 - 6 * py perp);
                mkPoint (px p2 + 6 * px perp) (py p2 + 6 * py perp) ].
Proof.
  apply (slope_crossties 0 0 east 1 3 COLORS_rail wood EmptyString).
  discriminate.
Defined.

Lemma withoutSupports_app (l1 l2 : list canvasOp) :
  withoutSupports (l1 ++ l2) = withoutSupports l1 ++ withoutSupports l2.
Proof.
  induction l1 as [| op l1 IH]; [reflexivity |].
  destruct op; cbn [app withoutSupports]; rewrite ?IH; reflexivity.
Qed.

Lemma withoutSupports_drawSupport (x groundY height : R)
  (perp : option Point) (strutStyle : StrutStyle) :
  withoutSupports (drawSupport x groundY height perp strutStyle) = [].
Proof.
  destruct strutStyle; unfold drawSupport, drawWoodSupport, drawMetalSupport;
    destruct (Rle_dec height 0); reflexivity.
Qed.

(** X15. Heading south or west, a slope whose two heights are equal draws
    the crossties and the rails of the straight track at that height, call
    for call; at or below the ground, where neither draws a support, the
    two traces are the same. *)
Theorem flat_slope_is_straight (startX startY height : R)
  (direction : TrackDirection) (trackColor : string)
  (strutStyle : StrutStyle) :
  direction = south \/ direction = west ->
  exists ops1 ops2 : list canvasOp,
    drawSlopeTrack startX startY direction height height trackColor strutStyle
    = Some ops1
    /\ drawStraightTrack startX startY direction height trackColor strutStyle
       = Some ops2
    /\ withoutSupports ops1 = withoutSupports ops2
    /\ (height <= 0 -> ops1 = ops2).
Proof.
  intros Hd.
  assert (Hperp : snd (slopeEnds (slopeAnchors startX startY) direction)
                  = snd (straightEnds (straightAnchors startX startY height)
                           direction)).
  { destruct Hd as [-> | ->]; cbn [slopeEnds straightEnds snd];
      unfold axisPerp; cbn;
      match goal with
      | |- context [hypot ?a ?b] =>
          match goal with
          | |- context [hypot a ?c] =>
              lazymatch c with
              | b => fail
              | _ => replace c with b by lra
              end
          end
      end; reflexivity. }
  destruct (slopeEnds_perp startX startY direction) as [perp Hp].
  rewrite Hp in Hperp. symmetry in Hperp.
  unfold drawSlopeTrack, drawStraightTrack. cbv zeta.
  destruct Hd as [-> | ->]; cbn [slopeEnds straightEnds snd] in *;
    rewrite Hp, Hperp; cbn [obind]; do 2 eexists;
    (split; [reflexivity |]); (split; [reflexivity |]);
    (split;
     [ rewrite !withoutSupports_app;
       destruct (Rgt_dec height 0);
       rewrite ?withoutSupports_drawSupport; reflexivity
     | intros Hh; destruct (Rgt_dec height 0) as [G | _]; [lra |];
       reflexivity ]).
Qed.

Lemma flat_slope_is_straight_witness :
  exists ops1 ops2 : list canvasOp,
    drawSlopeTrack 0 0 south 0 0 COLORS_rail metal = Some ops1
    /\ drawStraightTrack 0 0 south 0 COLORS_rail metal = Some ops2
    /\ withoutSupports ops1 = withoutSupports ops2
    /\ (0 <= 0 -> ops1 = ops2).
Proof.
  apply (flat_slope_is_straight 0 0 0 south COLORS_rail metal).
  left. reflexivity.
Defined.

Lemma drawSupport_grounded (x groundY height : R) (perp : option Point)
  (strutStyle : StrutStyle) :
  height <= 0 -> drawSupport x groundY height perp strutStyle = [].
Proof.
  intros H.
  destruct strutStyle; unfold drawSupport, drawWoodSupport, drawMetalSupport;
    (destruct (Rle_dec height 0) as [_ | N]; [reflexivity | contradiction]).
Qed.

(** X16. At or below the ground nothing is drawn for a support:
    [drawSupport] itself makes no call, and the straight, the curved and
    the sloped renderer do not ask for one. *)
Theorem grounded_tracks_have_no_support (startX startY height endHeight : R)
  (direction : TrackDirection) (turnRight : bool) (trackColor : string)
  (strutStyle : StrutStyle) (x groundY : R) (perp : option Point) :
  height <= 0 ->
  endHeight <= 0 ->
  expand (drawSupport x groundY height perp strutStyle) = []
  /\ (exists ops : list canvasOp,
        drawStraightTrack startX startY direction height trackColor
          strutStyle = Some ops
        /\ supports ops = [])
  /\ (exists ops : list canvasOp,
        drawCurvedTrack startX startY direction turnRight height trackColor
          strutStyle = Some ops
        /\ supports ops = [])
  /\ (exists ops : list canvasOp,
        drawSlopeTrack startX startY direction height endHeight trackColor
          strutStyle = Some ops
        /\ supports ops = []).
Proof.
  intros H He.
  split; [rewrite drawSupport_grounded by exact H; reflexivity |].
  split; [| split].
  - assert (Hx := straight_trace_explicit startX startY direction height
                    trackColor strutStyle).
    cbv zeta in Hx.
    destruct (straightEnds _ direction) as [[fromEdge toEdge] operp].
    destruct Hx as [p [_ [_ [_ Hx]]]]. rewrite Hx.
    eexists. split; [reflexivity |].
    destruct (Rgt_dec height 0) as [G | _]; [lra |].
    unfold straightTies. rewrite !supports_app, supports_ties. reflexivity.
  - destruct (curved_trace startX startY height direction turnRight trackColor
                strutStyle) as [ops [Hops Hs]].
    exists ops. split; [exact Hops |]. cbv zeta in Hs.
    destruct (curvedEnds _ direction turnRight) as [fromEdge toEdge].
    rewrite Hs. unfold curvedSupport.
    destruct (Rgt_dec height 0) as [G | _]; [lra | reflexivity].
  - destruct (slopeEnds_perp startX startY direction) as [p Hp].
    unfold drawSlopeTrack.
    destruct (slopeEnds _ direction) as [[fromEdge toEdge] operp].
    cbn [snd] in Hp. subst operp. cbn [obind].
    eexists. split; [reflexivity |].
    destruct (Rgt_dec height 0) as [G | _]; [lra |].
    destruct (Rgt_dec endHeight 0) as [G | _]; [lra |].
    unfold slopeTies. rewrite !supports_app, supports_ties. reflexivity.
Qed.

Lemma grounded_tracks_have_no_support_witness :
  expand (drawSupport 5 7 0 None wood) = []
  /\ (exists ops : list canvasOp,
        drawStraightTrack 0 0 north 0 COLORS_rail wood = Some ops
        /\ supports ops = [])
  /\ (exists ops : list canvasOp,
        drawCurvedTrack 0 0 north false 0 COLORS_rail wood = Some ops
        /\ supports ops = [])
  /\ (exists ops : list canvasOp,
        drawSlopeTrack 0 0 north 0 (-1) COLORS_rail wood = Some ops
        /\ supports ops = []).
Proof.
  apply (grounded_tracks_have_no_support 0 0 0 (-1) north false COLORS_rail
           wood 5 7 None); lra.
Defined.

(** ** The support lattices *)

Lemma strokeCalls_app (l1 l2 : list ctxCall) :
  strokeCalls (l1 ++ l2) = (strokeCalls l1 + strokeCalls l2)%nat.
Proof.
  induction l1 as [| c l1 IH]; [reflexivity |].
  destruct c as [[] |]; cbn [app strokeCalls]; rewrite IH; reflexivity.
Qed.

Lemma fillCalls_app (l1 l2 : list ctxCall) :
  fillCalls (l1 ++ l2) = (fillCalls l1 + fillCalls l2)%nat.
Proof.
  induction l1 as [| c l1 IH]; [reflexivity |].
  destruct c as [[] |]; cbn [app fillCalls]; rewrite IH; reflexivity.
Qed.

Lemma strokeCalls_flat_map (body : nat -> list canvasOp) (l : list nat) :
  strokeCalls (map call (flat_map body l))
  = list_sum (map (fun i => strokeCalls (map call (body i))) l).
Proof.
  induction l as [| i l IH]; [reflexivity |].
  cbn [flat_map map list_sum]. rewrite map_app, strokeCalls_app, IH.
  reflexivity.
Qed.

Lemma fillCalls_flat_map (body : nat -> list canvasOp) (l : list nat) :
  (forall i, fillCalls (map call (body i)) = 0%nat) ->
  fillCalls (map call (flat_map body l)) = 0%nat.
Proof.
  intros H. induction l as [| i l IH]; [reflexivity |].
  cbn [flat_map]. rewrite map_app, fillCalls_app, H, IH. reflexivity.
Qed.

Lemma metalBrace_strokes (f : Frame) (n i : nat) :
  strokeCalls (map call (metalBrace f n i))
  = if Nat.ltb i n then 4%nat else 2%nat.
Proof.
  unfold metalBrace. destruct (metalBraceY f n i) as [l r].
  destruct (metalBraceY f n (i + 1)) as [l' r'].
  destruct (Nat.ltb i n); reflexivity.
Qed.

Lemma metalBrace_fills (f : Frame) (n i : nat) :
  fillCalls (map call (metalBrace f n i)) = 0%nat.
Proof.
  unfold metalBrace. destruct (metalBraceY f n i) as [l r].
  destruct (metalBraceY f n (i + 1)) as [l' r'].
  destruct (Nat.ltb i n); reflexivity.
Qed.

Lemma list_sum_cons (a : nat) (l : list nat) :
  list_sum (a :: l) = (a + list_sum l)%nat.
Proof. reflexivity. Qed.

Lemma list_sum_const_below (g : nat -> nat) (c s k n : nat) :
  (forall i, (i < n)%nat -> g i = c) -> (s + k <= n)%nat ->
  list_sum (map g (seq s k)) = (c * k)%nat.
Proof.
  intros Hg. revert s. induction k as [| k IH]; intros s H.
  - cbn. lia.
  - cbn [seq map]. rewrite list_sum_cons, Hg by lia. rewrite IH by lia. lia.
Qed.

Lemma metalBraces_strokes (f : Frame) (n : nat) :
  (1 <= n)%nat ->
  strokeCalls (map call (flat_map (metalBrace f n) (seq 1 n)))
  = (4 * n - 2)%nat.
Proof.
  intros Hn. rewrite strokeCalls_flat_map.
  destruct n as [| m]; [lia |].
  rewrite seq_S, map_app, list_sum_app.
  rewrite (list_sum_const_below _ 4 1 m (S m)); try lia.
  - cbn [map Nat.add]. rewrite list_sum_cons, metalBrace_strokes.
    rewrite Nat.ltb_irrefl. cbn [list_sum fold_right]. lia.
  - intros i Hi. rewrite metalBrace_strokes.
    apply Nat.ltb_lt in Hi. now rewrite Hi.
Qed.

Lemma woodSection_strokes (f : Frame) (n i : nat) :
  strokeCalls (map call (woodSection f n i))
  = if Nat.ltb 0 i then 3%nat else 2%nat.
Proof.
  unfold woodSection.
  destruct (woodLevel f (INR (i + 1) / INR n)) as [tl tr].
  destruct (woodLevel f (INR i / INR n)) as [bl br].
  destruct (Nat.ltb 0 i); reflexivity.
Qed.

Lemma woodSection_fills (f : Frame) (n i : nat) :
  fillCalls (map call (woodSection f n i)) = 0%nat.
Proof.
  unfold woodSection.
  destruct (woodLevel f (INR (i + 1) / INR n)) as [tl tr].
  destruct (woodLevel f (INR i / INR n)) as [bl br].
  destruct (Nat.ltb 0 i); reflexivity.
Qed.

Lemma woodSections_strokes (f : Frame) (n : nat) :
  (1 <= n)%nat ->
  strokeCalls (map call (flat_map (woodSection f n) (seq 0 n)))
  = (3 * n - 1)%nat.
Proof.
  intros Hn. rewrite strokeCalls_flat_map.
  destruct n as [| m]; [lia |].
  cbn [seq map]. rewrite list_sum_cons, woodSection_strokes.
  cbn [Nat.ltb Nat.leb].
  assert (H : forall s k,
             (1 <= s)%nat ->
             list_sum
               (map (fun i => strokeCalls (map call (woodSection f (S m) i)))
                  (seq s k))
             = (3 * k)%nat).
  { intros s k. revert s. induction k as [| k IH]; intros s Hs.
    - reflexivity.
    - cbn [seq map]. rewrite list_sum_cons, woodSection_strokes, IH by lia.
      destruct s; [lia |]. cbn [Nat.ltb Nat.leb]. lia. }
  rewrite H by lia. lia.
Qed.

(** X17. What a support takes to draw above the ground.  A metal lattice
    has [max 1 (floor (height / 1.5))] braces and takes [4 * braces + 6]
    strokes and 4 fills; a wooden one has [max 2 (ceil (height * 1.5))]
    sections and takes [3 * sections + 7] strokes and 2 filled rectangles.
    Neither number depends on where the support stands or on which way
    it faces. *)
Theorem support_calls (x groundY height : R) (perp : option Point) :
  height > 0 ->
  (let calls := expand (drawSupport x groundY height perp metal) in
   strokeCalls calls = (4 * metalNumBraces height + 6)%nat
   /\ fillCalls calls = 4%nat)
  /\ (let calls := expand (drawSupport x groundY height perp wood) in
      strokeCalls calls = (3 * woodNumSections height + 7)%nat
      /\ fillCalls calls = 2%nat).
Proof.
  intros H.
  assert (Hb : (1 <= metalNumBraces height)%nat)
    by (unfold metalNumBraces; lia).
  assert (Hw : (1 <= woodNumSections height)%nat)
    by (unfold woodNumSections; lia).
  unfold drawSupport, drawWoodSupport, drawMetalSupport.
  destruct (Rle_dec height 0) as [L | _]; [lra |].
  cbv zeta. cbn [expand supportCalls]. rewrite !app_nil_r.
  unfold metalSupportOps, woodSupportOps. cbv zeta.
  repeat split.
  + rewrite !map_app, !strokeCalls_app, metalBraces_strokes by exact Hb.
    cbn [map strokeCalls strokeLine metalPlate app]. lia.
  + rewrite !map_app, !fillCalls_app,
      (fillCalls_flat_map _ _ (metalBrace_fills _ _)).
    reflexivity.
  + rewrite !strokeCalls_app, !map_app, !strokeCalls_app,
      woodSections_strokes by exact Hw.
    cbn [map strokeCalls strokeLine woodFoundation app]. lia.
  + rewrite !fillCalls_app, !map_app, !fillCalls_app,
      (fillCalls_flat_map _ _ (woodSection_fills _ _)).
    reflexivity.
Qed.

Lemma support_calls_witness :
  (let calls := expand (drawSupport 10 50 3 None metal) in
   strokeCalls calls = (4 * metalNumBraces 3 + 6)%nat
   /\ fillCalls calls = 4%nat)
  /\ (let calls := expand (drawSupport 10 50 3 None wood) in
      strokeCalls calls = (3 * woodNumSections 3 + 7)%nat
      /\ fillCalls calls = 2%nat).
Proof.
  apply (support_calls 10 50 3 None). lra.
Defined.

Example metalNumBraces_three : metalNumBraces 3 = 2%nat.
Proof.
  unfold metalNumBraces, floor. rewrite (Zfloor_eq 2) by lra. reflexivity.
Qed.

Example woodNumSections_three : woodNumSections 3 = 5%nat.
Proof.
  unfold woodNumSections, ceil. rewrite (Zfloor_eq (-5)) by lra. reflexivity.
Qed.

Lemma frame_midpoints (s : StrutStyle) (x groundY height perpX perpY : R) :
  let f := frameOf s x groundY height perpX perpY in
  (leftBaseX f + rightBaseX f) / 2 = x
  /\ (leftBaseY f + rightBaseY f) / 2 = groundY
  /\ (leftTopX f + rightTopX f) / 2 = x
  /\ (leftTopY f + rightTopY f) / 2 = groundY - height * HEIGHT_UNIT.
Proof.
  destruct s; cbn; repeat split; lra.
Qed.

(** X18. A support reaches the track it carries.  Above the ground, the
    lattice under a straight track has the middle of its top beam on the
    centre anchor of the tile and the middle of its feet straight below,
    on the ground; the one under a curve has the middle of its top beam on
    the curve point of [t = 1/2]; the two under a slope have theirs on the
    two raised anchors. *)
Theorem supports_reach_track (startX startY height endHeight : R)
  (direction : TrackDirection) (turnRight : bool) (trackColor : string)
  (strutStyle : StrutStyle) :
  height > 0 ->
  endHeight > 0 ->
  (exists (ops : list canvasOp) (x groundY perpX perpY : R),
     drawStraightTrack startX startY direction height trackColor strutStyle
     = Some ops
     /\ supports ops = [supportFrame strutStyle x groundY height perpX perpY]
     /\ (let f := frameOf strutStyle x groundY height perpX perpY in
         let c := center (straightAnchors startX startY height) in
         (leftTopX f + rightTopX f) / 2 = px c
         /\ (leftTopY f + rightTopY f) / 2 = py c
         /\ (leftBaseX f + rightBaseX f) / 2 = px c
         /\ (leftBaseY f + rightBaseY f) / 2 = startY + TILE_HEIGHT / 2))
  /\ (exists (ops : list canvasOp) (x groundY perpX perpY : R),
        drawCurvedTrack startX startY direction turnRight height trackColor
          strutStyle = Some ops
        /\ supports ops
           = [supportFrame strutStyle x groundY height perpX perpY]
        /\ (let f := frameOf strutStyle x groundY height perpX perpY in
            let a := curvedAnchors startX startY height in
            let '(fromEdge, toEdge) := curvedEnds a direction turnRight in
            let mid := quadraticPoint fromEdge (center a) toEdge (5 / 10) in
            (leftTopX f + rightTopX f) / 2 = px mid
            /\ (leftTopY f + rightTopY f) / 2 = py mid
            /\ leftBaseY f = rightBaseY f))
  /\ (exists (ops : list canvasOp) (x1 g1 x2 g2 perpX perpY : R),
        drawSlopeTrack startX startY direction height endHeight trackColor
          strutStyle = Some ops
        /\ supports ops
           = [ supportFrame strutStyle x1 g1 height perpX perpY;
               supportFrame strutStyle x2 g2 endHeight perpX perpY ]
        /\ (let f1 := frameOf strutStyle x1 g1 height perpX perpY in
            let f2 := frameOf strutStyle x2 g2 endHeight perpX perpY in
            let '(fromEdge, toEdge, _) :=
              slopeEnds (slopeAnchors startX startY) direction in
            (leftTopX f1 + rightTopX f1) / 2 = px fromEdge
            /\ (leftTopY f1 + rightTopY f1) / 2
               = py fromEdge - height * HEIGHT_UNIT
            /\ (leftTopX f2 + rightTopX f2) / 2 = px toEdge
            /\ (leftTopY f2 + rightTopY f2) / 2
               = py toEdge - endHeight * HEIGHT_UNIT)).
Proof.
  intros H He. split; [| split].
  - destruct (straight_supports startX startY direction height trackColor
                strutStyle H) as [ops [perp [Hops [_ Hs]]]].
    exists ops. do 4 eexists. split; [exact Hops |]. split; [exact Hs |].
    cbv zeta.
    match goal with
    | |- context [frameOf ?s ?x ?g ?h ?qx ?qy] =>
        destruct (frame_midpoints s x g h qx qy) as [B1 [B2 [T1 T2]]]
    end.
    rewrite B1, B2, T1, T2. cbn. autounfold with tile. repeat split; lra.
  - destruct (curved_trace startX startY height direction turnRight trackColor
                strutStyle) as [ops [Hops Hs]].
    cbv zeta in Hs.
    destruct (curvedEnds _ direction turnRight) as [fromEdge toEdge] eqn:Ends.
    rewrite curvedSupport_elevated in Hs by exact H. cbn [supports] in Hs.
    exists ops. do 4 eexists. split; [exact Hops |]. split; [exact Hs |].
    cbv zeta. rewrite Ends.
    match goal with
    | |- context [frameOf ?s ?x ?g ?h ?qx ?qy] =>
        destruct (frame_midpoints s x g h qx qy) as [B1 [B2 [T1 T2]]]
    end.
    rewrite T1, T2. repeat split; try lra.
    destruct strutStyle; cbn; lra.
  - destruct (slope_supports startX startY direction height endHeight
                trackColor strutStyle H He)
      as [ops [fromEdge [toEdge [perp [Hops [Ends Hs]]]]]].
    exists ops. do 6 eexists. split; [exact Hops |]. split; [exact Hs |].
    cbv zeta. rewrite Ends.
    repeat match goal with
    | |- context [frameOf ?s ?x ?g ?h ?qx ?qy] =>
        let T1 := fresh "T" in
        let T2 := fresh "T" in
        destruct (frame_midpoints s x g h qx qy) as [_ [_ [T1 T2]]];
        rewrite T1, T2; clear T1 T2
    end.
    repeat split; lra.
Qed.

Lemma supports_reach_track_witness :
  (exists (ops : list canvasOp) (x groundY perpX perpY : R),
     drawStraightTrack 0 0 north 1 COLORS_rail metal
     = Some ops
     /\ supports ops = [supportFrame metal x groundY 1 perpX perpY]
     /\ (let f := frameOf metal x groundY 1 perpX perpY in
         let c := center (straightAnchors 0 0 1) in
         (leftTopX f + rightTopX f) / 2 = px c
         /\ (leftTopY f + rightTopY f) / 2 = py c
         /\ (leftBaseX f + rightBaseX f) / 2 = px c
         /\ (leftBaseY f + rightBaseY f) / 2 = 0 + TILE_HEIGHT / 2))
  /\ (exists (ops : list canvasOp) (x groundY perpX perpY : R),
        drawCurvedTrack 0 0 north true 1 COLORS_rail
          metal = Some ops
        /\ supports ops
           = [supportFrame metal x groundY 1 perpX perpY]
        /\ (let f := frameOf metal x groundY 1 perpX perpY in
            let a := curvedAnchors 0 0 1 in
            let '(fromEdge, toEdge) := curvedEnds a north true in
            let mid := quadraticPoint fromEdge (center a) toEdge (5 / 10) in
            (leftTopX f + rightTopX f) / 2 = px mid
            /\ (leftTopY f + rightTopY f) / 2 = py mid
            /\ leftBaseY f = rightBaseY f))
  /\ (exists (ops : list canvasOp) (x1 g1 x2 g2 perpX perpY : R),
        drawSlopeTrack 0 0 north 1 2 COLORS_rail
          metal = Some ops
        /\ supports ops
           = [ supportFrame metal x1 g1 1 perpX perpY;
               supportFrame metal x2 g2 2 perpX perpY ]
        /\ (let f1 := frameOf metal x1 g1 1 perpX perpY in
            let f2 := frameOf metal x2 g2 2 perpX perpY in
            let '(fromEdge, toEdge, _) :=
              slopeEnds (slopeAnchors 0 0) north in
            (leftTopX f1 + rightTopX f1) / 2 = px fromEdge
            /\ (leftTopY f1 + rightTopY f1) / 2
               = py fromEdge - 1 * HEIGHT_UNIT
            /\ (leftTopX f2 + rightTopX f2) / 2 = px toEdge
            /\ (leftTopY f2 + rightTopY f2) / 2
               = py toEdge - 2 * HEIGHT_UNIT)).
Proof.
  apply (supports_reach_track 0 0 1 2 north true COLORS_rail metal); lra.
Defined.

Lemma metalNumBraces_bounds (height : R) :
  height > 0 ->
  (1 <= metalNumBraces height)%nat
  /\ height / (15 / 10) < INR (metalNumBraces height) + 1.
Proof.
  intros H. unfold metalNumBraces, floor.
  destruct (Zfloor_bound (height / (15 / 10))) as [Hl Hu].
  assert (H0 : (0 <= Zfloor (height / (15 / 10)))%Z).
  { apply Zfloor_lub. cbn. apply Rmult_le_pos; lra. }
  split; [lia |].
  rewrite INR_IZR_INZ, Z2Nat.id by lia.
  destruct (Z.max_spec 1 (Zfloor (height / (15 / 10)))) as [[Hlt ->] | [Hle ->]].
  - lra.
  - apply IZR_le in Hle. lra.
Qed.

(** X19. The braces of a metal lattice sit strictly between the top and
    the foot of each column, evenly spaced, and a gap between two
    neighbours (or between an end of the column and the nearest brace) is
    less than 30 pixels, whatever the height. *)
Theorem metal_braces_spacing (x groundY height perpX perpY : R) (i : nat) :
  height > 0 ->
  (1 <= i <= metalNumBraces height)%nat ->
  let f := metalFrame x groundY height perpX perpY in
  let n := metalNumBraces height in
  let gap := height * HEIGHT_UNIT / (INR n + 1) in
  leftTopY f < fst (metalBraceY f n i) < leftBaseY f
  /\ rightTopY f < snd (metalBraceY f n i) < rightBaseY f
  /\ fst (metalBraceY f n i) = leftTopY f + INR i * gap
  /\ snd (metalBraceY f n i) = rightTopY f + INR i * gap
  /\ 0 < gap < 30.
Proof.
  intros H Hi. cbv zeta.
  destruct (metalNumBraces_bounds height H) as [Hn Hlt].
  set (n := metalNumBraces height) in *.
  assert (Hn1 : INR (n + 1) = INR n + 1) by (rewrite plus_INR; cbn; lra).
  assert (Hn0 : 0 < INR n + 1) by (assert (0 <= INR n) by apply pos_INR; lra).
  assert (Hi0 : 0 < INR i) by (apply lt_0_INR; lia).
  assert (Hin : INR i < INR n + 1)
    by (assert (INR i <= INR n) by (apply le_INR; lia); lra).
  unfold metalBraceY; cbn [fst snd]. rewrite Hn1.
  unfold metalFrame; cbn [leftTopY leftBaseY rightTopY rightBaseY].
  autounfold with tile.
  set (t := INR i / (INR n + 1)).
  assert (Ht : 0 < t < 1).
  { subst t. split.
    - apply Rdiv_lt_0_compat; lra.
    - apply (Rmult_lt_reg_r (INR n + 1)); [lra |].
      unfold Rdiv. rewrite Rmult_assoc, Rinv_l by lra. lra. }
  set (gap := height * 20 / (INR n + 1)).
  assert (Hg : gap * (INR n + 1) = height * 20)
    by (subst gap; field; lra).
  assert (Htg : INR i * gap = height * 20 * t)
    by (subst gap t; field; lra).
  assert (Hgpos : 0 < gap) by (subst gap; apply Rdiv_lt_0_compat; lra).
  repeat split; try nra.
Qed.

Lemma metal_braces_spacing_witness :
  let f := metalFrame 0 100 3 1 0 in
  let n := metalNumBraces 3 in
  let gap := 3 * HEIGHT_UNIT / (INR n + 1) in
  leftTopY f < fst (metalBraceY f n 1) < leftBaseY f
  /\ rightTopY f < snd (metalBraceY f n 1) < rightBaseY f
  /\ fst (metalBraceY f n 1) = leftTopY f + INR 1 * gap
  /\ snd (metalBraceY f n 1) = rightTopY f + INR 1 * gap
  /\ 0 < gap < 30.
Proof.
  apply (metal_braces_spacing 0 100 3 1 0 1); [lra |].
  rewrite metalNumBraces_three. lia.
Defined.

Lemma woodNumSections_bounds (height : R) :
  (2 <= woodNumSections height)%nat
  /\ height * (15 / 10) <= INR (woodNumSections height).
Proof.
  unfold woodNumSections, ceil.
  destruct (Zfloor_bound (- (height * (15 / 10)))) as [Hl Hu].
  split; [lia |].
  rewrite INR_IZR_INZ, Z2Nat.id by lia.
  destruct (Z.max_spec 2 (- Zfloor (- (height * (15 / 10)))))
    as [[Hlt ->] | [Hle ->]].
  - rewrite opp_IZR. lra.
  - apply IZR_le in Hle. rewrite opp_IZR in Hle. lra.
Qed.

(** X20. The sections of a wooden lattice stack up each beam without a
    gap: the first starts at the foot, the last ends at the top, and each
    covers one [numSections]-th of the beam.  There are at least two of
    them and at least one and a half per unit of height. *)
Theorem wood_sections_stack (x groundY height perpX perpY : R) (i : nat) :
  (i < woodNumSections height)%nat ->
  let f := woodFrame x groundY height perpX perpY in
  let n := woodNumSections height in
  let '(bottomLeft, bottomRight) := woodLevel f (INR i / INR n) in
  let '(topLeft, topRight) := woodLevel f (INR (i + 1) / INR n) in
  woodLevel f (INR 0 / INR n)
  = (mkPoint (leftBaseX f) (leftBaseY f), mkPoint (rightBaseX f) (rightBaseY f))
  /\ woodLevel f (INR n / INR n)
     = (mkPoint (leftTopX f) (leftTopY f), mkPoint (rightTopX f) (rightTopY f))
  /\ px topLeft - px bottomLeft = (leftTopX f - leftBaseX f) / INR n
  /\ py topLeft - py bottomLeft = (leftTopY f - leftBaseY f) / INR n
  /\ px topRight - px bottomRight = (rightTopX f - rightBaseX f) / INR n
  /\ py topRight - py bottomRight = (rightTopY f - rightBaseY f) / INR n
  /\ (2 <= n)%nat
  /\ height * (15 / 10) <= INR n.
Proof.
  intros Hi. cbv zeta.
  destruct (woodNumSections_bounds height) as [Hn Hh].
  set (n := woodNumSections height) in *.
  set (f := woodFrame x groundY height perpX perpY).
  assert (Hn0 : INR n <> 0) by (apply not_0_INR; lia).
  unfold woodLevel. cbn [px py].
  rewrite plus_INR. cbn [INR].
  repeat split; try assumption; try (f_equal; apply point_eq; field; assumption);
    field; assumption.
Qed.

Lemma wood_sections_stack_witness :
  let f := woodFrame 0 100 3 1 0 in
  let n := woodNumSections 3 in
  let '(bottomLeft, bottomRight) := woodLevel f (INR 4 / INR n) in
  let '(topLeft, topRight) := woodLevel f (INR (4 + 1) / INR n) in
  woodLevel f (INR 0 / INR n)
  = (mkPoint (leftBaseX f) (leftBaseY f), mkPoint (rightBaseX f) (rightBaseY f))
  /\ woodLevel f (INR n / INR n)
     = (mkPoint (leftTopX f) (leftTopY f), mkPoint (rightTopX f) (rightTopY f))
  /\ px topLeft - px bottomLeft = (leftTopX f - leftBaseX f) / INR n
  /\ py topLeft - py bottomLeft = (leftTopY f - leftBaseY f) / INR n
  /\ px topRight - px bottomRight = (rightTopX f - rightBaseX f) / INR n
  /\ py topRight - py bottomRight = (rightTopY f - rightBaseY f) / INR n
  /\ (2 <= n)%nat
  /\ 3 * (15 / 10) <= INR n.
Proof.
  apply (wood_sections_stack 0 100 3 1 0 4).
  rewrite woodNumSections_three. lia.
Defined.

(** ** The loop, again *)

Lemma sin_025 : 2 / 100 < sin (25 / 1000).
Proof.
  assert (Hpi : 25 / 1000 <= PI).
  { assert (H2 := pi2_int). assert (E : PI = 2 * PI2) by reflexivity. lra. }
  destruct (SIN (25 / 1000)) as [Hl _]; [lra | exact Hpi |].
  apply Rlt_le_trans with (2 := Hl).
  unfold sin_lb, sin_approx, sin_term. cbn [sum_f_R0 Nat.mul Nat.add pow].
  rewrite !INR_IZR_INZ.
  change (Z.of_nat (fact 1)) with 1%Z. change (Z.of_nat (fact 3)) with 6%Z.
  change (Z.of_nat (fact 5)) with 120%Z. change (Z.of_nat (fact 7)) with 5040%Z.
  lra.
Qed.

(** The chord between two points of the unit circle [0.05] apart. *)
Lemma unit_chord (a : R) :
  let S := sin (a + 5 / 100) - sin a in
  let C := cos (a + 5 / 100) - cos a in
  16 / 10000 < S * S + C * C.
Proof.
  cbv zeta.
  assert (H1 := sin2_cos2 a). assert (H2 := sin2_cos2 (a + 5 / 100)).
  unfold Rsqr in H1, H2.
  assert (Hc : cos (5 / 100)
               = cos (a + 5 / 100) * cos a + sin (a + 5 / 100) * sin a).
  { rewrite <- cos_minus. f_equal. lra. }
  assert (Hd : cos (5 / 100) = 1 - 2 * sin (25 / 1000) * sin (25 / 1000)).
  { rewrite <- cos_2a_sin. f_equal. lra. }
  assert (Hs := sin_025).
  nra.
Qed.

Lemma loopRadius_bounds (loopHeight : R) :
  28 <= loopRadius loopHeight
  /\ loopHeight * 8 <= loopRadius loopHeight
  /\ (loopRadius loopHeight = 28 \/ loopRadius loopHeight = loopHeight * 8).
Proof.
  unfold loopRadius. autounfold with tile.
  replace (loopHeight * 20 * (4 / 10)) with (loopHeight * 8) by lra.
  unfold Rmax. destruct (Rle_dec 28 (loopHeight * 8)); repeat split; lra.
Qed.

(** The chord the crosstie guard looks at is longer than half a pixel. *)
Lemma loopChord_long (centerX centerY radius a : R)
  (direction : TrackDirection) :
  28 <= radius ->
  let chord := loopChord centerX centerY radius (DIRECTIONS direction) a in
  5 / 10 < hypot (dx chord) (dy chord).
Proof.
  intros Hr. cbv zeta.
  assert (Hu := unit_chord a). cbv zeta in Hu.
  unfold loopChord, getLoopPoint. cbv zeta. cbn [px py dx dy].
  set (S := sin (a + 5 / 100) - sin a) in *.
  set (C := cos (a + 5 / 100) - cos a) in *.
  assert (Hh := hypot_sqr
    (centerX + dx (DIRECTIONS direction) * (sin (a + 5 / 100) * radius)
     + - dy (DIRECTIONS direction) * (TRACK_WIDTH / 2) * 0
     - (centerX + dx (DIRECTIONS direction) * (sin a * radius)
        + - dy (DIRECTIONS direction) * (TRACK_WIDTH / 2) * 0))
    (centerY + dy (DIRECTIONS direction) * (sin (a + 5 / 100) * radius)
     - (1 - cos (a + 5 / 100)) * radius
     + dx (DIRECTIONS direction) * (TRACK_WIDTH / 2) * 0
     - (centerY + dy (DIRECTIONS direction) * (sin a * radius)
        - (1 - cos a) * radius
        + dx (DIRECTIONS direction) * (TRACK_WIDTH / 2) * 0))).
  match type of Hh with
  | ?h * ?h = _ => set (len := h) in *
  end.
  assert (Hpos : 0 <= len) by apply sqrt_pos.
  assert (Hq : 35 / 100 * (S * S + C * C) * (radius * radius) <= len * len).
  { rewrite Hh.
    destruct direction; cbn [DIRECTIONS dx dy];
      match goal with
      | |- _ <= ?x * ?x + ?y * ?y =>
          first
            [ replace x with (radius * (7071 / 10000 * S))
                by (subst S; ring)
            | replace x with (radius * (- (7071 / 10000) * S))
                by (subst S; ring) ]
      end;
      match goal with
      | |- _ <= _ + ?y * ?y =>
          first
            [ replace y with (radius * (4243 / 10000 * S + C))
                by (subst S C; ring)
            | replace y with (radius * (- (4243 / 10000) * S + C))
                by (subst S C; ring) ]
      end;
      assert (Hr2 : 0 <= radius * radius) by nra;
      assert (Hf : 35 / 100 * (S * S + C * C)
                   <= (7071 / 10000 * S) * (7071 / 10000 * S)
                      + (4243 / 10000 * S + C) * (4243 / 10000 * S + C)
                   /\ 35 / 100 * (S * S + C * C)
                      <= (7071 / 10000 * S) * (7071 / 10000 * S)
                         + (- (4243 / 10000) * S + C)
                           * (- (4243 / 10000) * S + C))
        by (pose proof (Rle_0_sqr (C + 4243 / 6500 * S)) as K1;
            pose proof (Rle_0_sqr (C - 4243 / 6500 * S)) as K2;
            pose proof (Rle_0_sqr S) as K3;
            unfold Rsqr in K1, K2, K3; split; lra);
      destruct Hf as [Hf1 Hf2]; nra. }
  assert (Hr2 : 784 <= radius * radius) by nra.
  assert (Hlow : 4 / 10 < len * len) by nra.
  nra.
Qed.

Lemma loopTie_strokes (centerX centerY radius : R)
  (direction : TrackDirection) (i : nat) :
  28 <= radius ->
  strokeCalls (map call (loopTie centerX centerY radius
                           (DIRECTIONS direction) i)) = 1%nat
  /\ fillCalls (map call (loopTie centerX centerY radius
                            (DIRECTIONS direction) i)) = 0%nat.
Proof.
  intros Hr. unfold loopTie. cbv zeta.
  assert (H := loopChord_long centerX centerY radius
                 (INR i / INR 32 * PI * 2) direction Hr).
  cbv zeta in H.
  match goal with
  | |- context [Rgt_dec ?l ?b] => destruct (Rgt_dec l b) as [_ | N]
  end; [split; reflexivity | lra].
Qed.

Lemma loopTies_strokes (centerX centerY radius : R)
  (direction : TrackDirection) :
  28 <= radius ->
  strokeCalls (map call (loopTies centerX centerY radius
                           (DIRECTIONS direction))) = 16%nat
  /\ fillCalls (map call (loopTies centerX centerY radius
                            (DIRECTIONS direction))) = 0%nat.
Proof.
  intros Hr. unfold loopTies.
  assert (H := fun i => loopTie_strokes centerX centerY radius direction i Hr).
  cbn [seq map flat_map app]. rewrite !map_app.
  split.
  - cbn [strokeCalls]. rewrite !strokeCalls_app.
    repeat rewrite (proj1 (H _)). reflexivity.
  - cbn [fillCalls]. rewrite !fillCalls_app.
    repeat rewrite (proj2 (H _)). reflexivity.
Qed.

(** X21. Every loop is drawn with the same calls, whatever its direction
    and height: all sixteen crossties pass the guard on the chord length
    (the chord is never shorter than half a pixel), and the whole loop
    takes 22 strokes with a metal column, 40 with a wooden one, and the
    two fills of the column. *)
Theorem loop_calls (startX startY : R) (direction : TrackDirection)
  (loopHeight : R) (trackColor : string) (strutStyle : StrutStyle) :
  let centerX := startX + TILE_WIDTH / 2 in
  let centerY := startY + TILE_HEIGHT / 2 in
  let ties :=
    loopTies centerX centerY (loopRadius loopHeight) (DIRECTIONS direction) in
  let calls :=
    map call
      (drawLoopTrack startX startY direction loopHeight trackColor strutStyle) in
  strokeCalls (map call ties) = 16%nat
  /\ strokeCalls calls
     = match strutStyle with metal => 22%nat | wood => 40%nat end
  /\ fillCalls calls = 2%nat.
Proof.
  cbv zeta.
  destruct (loopRadius_bounds loopHeight) as [Hr _].
  destruct (loopTies_strokes (startX + TILE_WIDTH / 2)
              (startY + TILE_HEIGHT / 2) (loopRadius loopHeight) direction Hr)
    as [Hs Hf].
  split; [exact Hs |].
  unfold drawLoopTrack. cbv zeta.
  rewrite !map_app, !strokeCalls_app, !fillCalls_app, Hs, Hf.
  unfold loopRails, loopRail, loopSupport.
  destruct strutStyle; cbv zeta;
    cbn [seq map flat_map app loopBrace strokeLine andb Nat.ltb Nat.leb
         Nat.eqb strokeCalls fillCalls Nat.add];
    split; reflexivity.
Qed.

Lemma loopRail_points (startX startY : R) (direction : TrackDirection)
  (loopHeight railSide : R) :
  pathPoints (loopRail startX startY direction loopHeight railSide)
  = map (loopRailPoint startX startY direction loopHeight railSide)
      (seq 0 33).
Proof.
  unfold loopRail. cbn [seq map app pathPoints Nat.eqb].
  points_eq; reflexivity.
Qed.

Lemma loop_angle_top : INR 16 / INR 32 * PI * 2 = PI.
Proof.
  replace (INR 16) with 16 by (cbn [INR]; lra).
  replace (INR 32) with 32 by (cbn [INR]; lra).
  field.
Qed.

(** X22. The two rails of a loop are the same polyline, one moved from the
    other by the fixed vector [TRACK_WIDTH * (- dy, dx)] of the direction.
    The vectors of [DIRECTIONS] are shorter than one, so the rails of a
    loop are between 6.5 and 6.7 pixels apart, less than [TRACK_WIDTH].
    Vertex 16 of a rail, the top of the loop, is twice the radius straight
    above its vertex 0, and the radius is at least 28. *)
Theorem loop_rails_shape (startX startY : R) (direction : TrackDirection)
  (loopHeight : R) (trackColor cur : string) (i : nat) :
  (i <= 32)%nat ->
  let dir := DIRECTIONS direction in
  let radius := loopRadius loopHeight in
  exists (left right : list Point) (l r l0 l16 : Point),
    strokedPaths trackColor cur []
      (loopRails startX startY direction loopHeight trackColor)
    = [left; right]
    /\ nth_error left i = Some l
    /\ nth_error right i = Some r
    /\ px r - px l = TRACK_WIDTH * - dy dir
    /\ py r - py l = TRACK_WIDTH * dx dir
    /\ 65 / 10 * (65 / 10) < dist2 l r < 67 / 10 * (67 / 10)
    /\ nth_error left 0 = Some l0
    /\ nth_error left 16 = Some l16
    /\ px l16 = px l0
    /\ py l16 = py l0 - 2 * radius
    /\ 28 <= radius.
Proof.
  intros Hi. cbv zeta.
  rewrite loopRails_paths, !loopRail_points.
  do 2 eexists.
  exists (loopRailPoint startX startY direction loopHeight (-1) i),
         (loopRailPoint startX startY direction loopHeight 1 i),
         (loopRailPoint startX startY direction loopHeight (-1) 0),
         (loopRailPoint startX startY direction loopHeight (-1) 16).
  split; [reflexivity |].
  split; [apply nth_error_map_seq; lia |].
  split; [apply nth_error_map_seq; lia |].
  assert (Hd : dx (DIRECTIONS direction) * dx (DIRECTIONS direction)
               + dy (DIRECTIONS direction) * dy (DIRECTIONS direction)
               = 6800209 / 10000000)
    by (destruct direction; cbn [DIRECTIONS dx dy]; lra).
  assert (N0 : nth_error
                 (map (loopRailPoint startX startY direction loopHeight (-1))
                    (seq 0 33)) 0
               = Some (loopRailPoint startX startY direction loopHeight (-1) 0))
    by (apply nth_error_map_seq; lia).
  assert (N16 : nth_error
                  (map (loopRailPoint startX startY direction loopHeight (-1))
                     (seq 0 33)) 16
                = Some (loopRailPoint startX startY direction loopHeight (-1)
                          16))
    by (apply nth_error_map_seq; lia).
  destruct (loopRadius_bounds loopHeight) as [Hr _].
  assert (G : forall side j,
             loopRailPoint startX startY direction loopHeight side j
             = getLoopPoint (startX + TILE_WIDTH / 2) (startY + TILE_HEIGHT / 2)
                 (loopRadius loopHeight) (DIRECTIONS direction)
                 (INR j / INR 32 * PI * 2) side) by reflexivity.
  assert (Hx : px (loopRailPoint startX startY direction loopHeight 1 i)
               - px (loopRailPoint startX startY direction loopHeight (-1) i)
               = TRACK_WIDTH * - dy (DIRECTIONS direction)).
  { rewrite !G. unfold getLoopPoint, TRACK_WIDTH. cbv zeta. cbn [px py].
    field. }
  assert (Hy : py (loopRailPoint startX startY direction loopHeight 1 i)
               - py (loopRailPoint startX startY direction loopHeight (-1) i)
               = TRACK_WIDTH * dx (DIRECTIONS direction)).
  { rewrite !G. unfold getLoopPoint, TRACK_WIDTH. cbv zeta. cbn [px py].
    field. }
  assert (Htop : px (loopRailPoint startX startY direction loopHeight (-1) 16)
                 = px (loopRailPoint startX startY direction loopHeight (-1) 0)
                 /\ py (loopRailPoint startX startY direction loopHeight (-1)
                          16)
                    = py (loopRailPoint startX startY direction loopHeight
                            (-1) 0)
                      - 2 * loopRadius loopHeight).
  { rewrite !G, loop_angle_first, loop_angle_top.
    unfold getLoopPoint. cbv zeta. cbn [px py].
    rewrite sin_0, cos_0, sin_PI, cos_PI. split; ring. }
  split; [exact Hx |]. split; [exact Hy |].
  split.
  { unfold dist2. rewrite Hx, Hy. unfold TRACK_WIDTH.
    set (a := dx (DIRECTIONS direction)) in *.
    set (b := dy (DIRECTIONS direction)) in *.
    split; nra. }
  split; [exact N0 |]. split; [exact N16 |].
  destruct Htop as [T1 T2].
  split; [exact T1 |]. split; [exact T2 | exact Hr].
Qed.

Lemma loop_rails_shape_witness :
  let dir := DIRECTIONS east in
  let radius := loopRadius 4 in
  exists (left right : list Point) (l r l0 l16 : Point),
    strokedPaths COLORS_rail EmptyString []
      (loopRails 0 0 east 4 COLORS_rail)
    = [left; right]
    /\ nth_error left 7 = Some l
    /\ nth_error right 7 = Some r
    /\ px r - px l = TRACK_WIDTH * - dy dir
    /\ py r - py l = TRACK_WIDTH * dx dir
    /\ 65 / 10 * (65 / 10) < dist2 l r < 67 / 10 * (67 / 10)
    /\ nth_error left 0 = Some l0
    /\ nth_error left 16 = Some l16
    /\ px l16 = px l0
    /\ py l16 = py l0 - 2 * radius
    /\ 28 <= radius.
Proof.
  apply (loop_rails_shape 0 0 east 4 COLORS_rail EmptyString 7). lia.
Defined.

(** ** The chain lift, again *)

(** With a tick that is not negative the links of index 0 to 10 are all
    drawn, in order, and the link of index 11 is drawn when it still fits. *)
Lemma chain_links_list (startX startY : R) (direction : TrackDirection)
  (startHeight endHeight tickOffset : R) :
  0 <= tickOffset ->
  let p1 := chainStart startX startY direction startHeight in
  let p2 := chainEnd startX startY direction endHeight in
  let link := fun i : nat =>
    mkPoint (px p1 + (px p2 - px p1) * linkParam tickOffset i)
            (py p1 + (py p2 - py p1) * linkParam tickOffset i) in
  linkPositions
    (drawChainLift startX startY direction startHeight endHeight tickOffset)
  = map link (seq 0 11)
    ++ (if Rle_dec (jsrem tickOffset linkSpacing) (8 / 10)
        then [link 11%nat] else []).
Proof.
  intros H. cbv zeta. rewrite linkPositions_chain. cbv zeta.
  destruct (jsrem_nonneg tickOffset H) as [Hl Hu].
  assert (Hlen := chainLength_value).
  assert (Hp : forall i : nat,
             linkParam tickOffset i
             = (INR i * 4 + jsrem tickOffset linkSpacing) / (448 / 10))
    by (intros i; unfold linkParam; rewrite Hlen; reflexivity).
  unfold linkSpacing in *.
  change (seq 0 12) with (seq 0 11 ++ [11%nat]).
  rewrite flat_map_app. f_equal.
  - cbn [seq flat_map map].
    repeat match goal with
           | |- context [Rgt_dec (linkParam tickOffset ?i) 1] =>
               destruct (Rgt_dec (linkParam tickOffset i) 1) as [G | _];
               [ exfalso; rewrite Hp in G; cbn [INR] in G; lra | ]
           end.
    reflexivity.
  - cbn [flat_map]. rewrite app_nil_r.
    destruct (Rgt_dec (linkParam tickOffset 11) 1) as [G | NG];
      destruct (Rle_dec (jsrem tickOffset 4) (8 / 10)) as [L | NL];
      try reflexivity; exfalso.
    + rewrite Hp in G. cbn [INR] in G. lra.
    + rewrite Hp in NG. cbn [INR] in NG. lra.
Qed.

(** X23. With a tick that is not negative the chain has twelve links when
    the tick is at most 0.8 past a multiple of the link spacing, and eleven
    otherwise. *)
Theorem chain_link_count (startX startY : R) (direction : TrackDirection)
  (startHeight endHeight tickOffset : R) :
  0 <= tickOffset ->
  List.length
    (linkPositions
       (drawChainLift startX startY direction startHeight endHeight
          tickOffset))
  = if Rle_dec (jsrem tickOffset linkSpacing) (8 / 10) then 12%nat else 11%nat.
Proof.
  intros H.
  rewrite (chain_links_list startX startY direction startHeight endHeight
             tickOffset H).
  rewrite length_app, length_map, length_seq.
  destruct (Rle_dec (jsrem tickOffset linkSpacing) (8 / 10)); reflexivity.
Qed.

Lemma chain_link_count_witness :
  List.length (linkPositions (drawChainLift 0 0 south 0 1 6))
  = if Rle_dec (jsrem 6 linkSpacing) (8 / 10) then 12%nat else 11%nat.
Proof.
  apply (chain_link_count 0 0 south 0 1 6). lra.
Defined.

(** X24. With a tick that is not negative the links follow one another at
    a fixed step: from one link to the next the position moves by four
    times the direction vector, less the climb of the chain over that
    step.  As the vectors of [DIRECTIONS] are shorter than one, links on
    a level chain are about 3.3 pixels apart, not [linkSpacing]. *)
Theorem chain_links_step (startX startY : R) (direction : TrackDirection)
  (startHeight endHeight tickOffset : R) (k : nat) :
  0 <= tickOffset ->
  (k <= 9)%nat ->
  let dir := DIRECTIONS direction in
  let links :=
    linkPositions
      (drawChainLift startX startY direction startHeight endHeight
         tickOffset) in
  exists p q : Point,
    nth_error links k = Some p
    /\ nth_error links (k + 1) = Some q
    /\ px q - px p = linkSpacing * dx dir
    /\ py q - py p
       = linkSpacing * dy dir
         - (endHeight - startHeight) * HEIGHT_UNIT * (linkSpacing / chainLength)
    /\ (startHeight = endHeight ->
        32 / 10 * (32 / 10) < dist2 p q < 34 / 10 * (34 / 10)).
Proof.
  intros H Hk. cbv zeta.
  rewrite (chain_links_list startX startY direction startHeight endHeight
             tickOffset H).
  cbv zeta.
  set (p1 := chainStart startX startY direction startHeight).
  set (p2 := chainEnd startX startY direction endHeight).
  set (link := fun i : nat =>
                 mkPoint (px p1 + (px p2 - px p1) * linkParam tickOffset i)
                         (py p1 + (py p2 - py p1) * linkParam tickOffset i)).
  exists (link k), (link (k + 1)%nat).
  split; [rewrite nth_error_app1 by (rewrite length_map, length_seq; lia);
          apply nth_error_map_seq; lia |].
  split; [rewrite nth_error_app1 by (rewrite length_map, length_seq; lia);
          apply nth_error_map_seq; lia |].
  assert (Hlen := chainLength_value).
  assert (Hstep : linkParam tickOffset (k + 1) - linkParam tickOffset k
                  = 4 / (448 / 10)).
  { unfold linkParam, linkSpacing. rewrite Hlen, plus_INR. cbn [INR]. field. }
  assert (Hd : dx (DIRECTIONS direction) * dx (DIRECTIONS direction)
               + dy (DIRECTIONS direction) * dy (DIRECTIONS direction)
               = 6800209 / 10000000)
    by (destruct direction; cbn [DIRECTIONS dx dy]; lra).
  assert (Hx : px p2 - px p1 = dx (DIRECTIONS direction) * (448 / 10)).
  { subst p1 p2. unfold chainStart, chainEnd. cbv zeta. cbn [px py].
    rewrite Hlen. field. }
  assert (Hy : py p2 - py p1
               = dy (DIRECTIONS direction) * (448 / 10)
                 - (endHeight - startHeight) * HEIGHT_UNIT).
  { subst p1 p2. unfold chainStart, chainEnd. cbv zeta. cbn [px py].
    rewrite Hlen. field. }
  assert (Ex : px (link (k + 1)%nat) - px (link k)
               = linkSpacing * dx (DIRECTIONS direction)).
  { subst link. cbn [px py]. unfold linkSpacing.
    replace (px p1 + (px p2 - px p1) * linkParam tickOffset (k + 1)
             - (px p1 + (px p2 - px p1) * linkParam tickOffset k))
      with ((px p2 - px p1)
            * (linkParam tickOffset (k + 1) - linkParam tickOffset k)) by ring.
    rewrite Hstep, Hx. field. }
  assert (Ey : py (link (k + 1)%nat) - py (link k)
               = linkSpacing * dy (DIRECTIONS direction)
                 - (endHeight - startHeight) * HEIGHT_UNIT
                   * (linkSpacing / chainLength)).
  { subst link. cbn [px py]. unfold linkSpacing.
    replace (py p1 + (py p2 - py p1) * linkParam tickOffset (k + 1)
             - (py p1 + (py p2 - py p1) * linkParam tickOffset k))
      with ((py p2 - py p1)
            * (linkParam tickOffset (k + 1) - linkParam tickOffset k)) by ring.
    rewrite Hstep, Hy, Hlen. field. }
  split; [exact Ex |]. split; [exact Ey |].
  intros Eh. unfold dist2. rewrite Ex, Ey, Eh. unfold linkSpacing.
  set (a := dx (DIRECTIONS direction)) in *.
  set (b := dy (DIRECTIONS direction)) in *.
  replace ((endHeight - endHeight) * HEIGHT_UNIT * (4 / chainLength)) with 0
    by (unfold Rminus; rewrite Rplus_opp_r; ring).
  split; nra.
Qed.

Lemma chain_links_step_witness :
  let dir := DIRECTIONS west in
  let links := linkPositions (drawChainLift 0 0 west 2 2 7) in
  exists p q : Point,
    nth_error links 3 = Some p
    /\ nth_error links (3 + 1) = Some q
    /\ px q - px p = linkSpacing * dx dir
    /\ py q - py p
       = linkSpacing * dy dir
         - (2 - 2) * HEIGHT_UNIT * (linkSpacing / chainLength)
    /\ (2 = 2 -> 32 / 10 * (32 / 10) < dist2 p q < 34 / 10 * (34 / 10)).
Proof.
  apply (chain_links_step 0 0 west 2 2 7 3); [lra | lia].
Defined.

(** ** The curve inside its tile *)

(** X25. The centre line of a curve never leaves the rectangle spanned by
    the four edge midpoints of its tile: for every parameter in [[0, 1]]
    the curve point has its [x] between those of the west and east sides
    and its [y] between those of the north and south sides. *)
Theorem curved_centre_line_in_tile (startX startY height : R)
  (startDir : TrackDirection) (turnRight : bool) (t : R) :
  0 <= t <= 1 ->
  let a := curvedAnchors startX startY height in
  let '(fromEdge, toEdge) := curvedEnds a startDir turnRight in
  inBox (northEdge a) (southEdge a)
    (quadraticPoint fromEdge (center a) toEdge t).
Proof.
  intros Ht. cbv zeta.
  set (a := curvedAnchors startX startY height).
  assert (Hb : forall d, inBox (northEdge a) (southEdge a) (edge a d)).
  { intros d. unfold inBox. destruct d; cbn; autounfold with tile; lra. }
  assert (Hc : inBox (northEdge a) (southEdge a) (center a)).
  { unfold inBox. cbn. autounfold with tile. lra. }
  assert (H : forall f e,
             inBox (northEdge a) (southEdge a) f ->
             inBox (northEdge a) (southEdge a) e ->
             inBox (northEdge a) (southEdge a)
               (quadraticPoint f (center a) e t)).
  { intros f e [Hfx Hfy] [Hex Hey]. destruct Hc as [Hcx Hcy].
    unfold inBox, quadraticPoint. cbv zeta. cbn [px py].
    split; apply bernstein2_bounds; assumption. }
  destruct startDir, turnRight; cbn [curvedEnds]; apply H;
    first [ exact (Hb north) | exact (Hb east) | exact (Hb south)
          | exact (Hb west) ].
Qed.

Lemma curved_centre_line_in_tile_witness :
  let a := curvedAnchors 0 0 1 in
  let '(fromEdge, toEdge) := curvedEnds a south true in
  inBox (northEdge a) (southEdge a)
    (quadraticPoint fromEdge (center a) toEdge (1 / 3)).
Proof.
  apply (curved_centre_line_in_tile 0 0 1 south true (1 / 3)). lra.
Defined.

(** * The copy-link hook *)

Lemma clearTimeout_only (id : nat) : clearTimeout id [id] = [].
Proof.
  unfold clearTimeout. cbn [List.remove].
  destruct (Nat.eq_dec id id) as [_ | N]; [reflexivity | now elim N].
Qed.

Lemma handleCopyRoomLink_copies (code path origin : string) (s : HookState) :
  code <> EmptyString -> hookInvariant s ->
  handleCopyRoomLink (Some code) path origin true true s
  = Some (mkHook true (Some (nextTimer s)) [nextTimer s]
            (roomUrl origin path code :: clipboard s) (S (nextTimer s))).
Proof.
  intros Hcode [Hp _]. unfold handleCopyRoomLink.
  destruct code as [| c code]; [now elim Hcode |].
  cbn [negb]. do 2 f_equal. rewrite Hp.
  destruct (timeoutRef s) as [old |]; [rewrite clearTimeout_only |];
    reflexivity.
Qed.

Lemma hookStep_invariant (s : HookState) (e : HookEvent) :
  hookInvariant s -> hookInvariant (hookStep s e).
Proof.
  intros H.
  destruct e as [roomCode path origin hasWindow hasClipboard | id];
    cbn [hookStep].
  - destruct roomCode as [[| c code] |]; try exact H.
    destruct hasWindow; [| exact H].
    destruct hasClipboard; [| exact H].
    rewrite handleCopyRoomLink_copies by (discriminate || exact H).
    split; cbn [pendingTimers timeoutRef copied]; [reflexivity |].
    split; [discriminate | reflexivity].
  - destruct H as [Hp Hc]. unfold timerFires.
    destruct (in_dec Nat.eq_dec id (pendingTimers s)) as [Hin | _];
      [| split; assumption].
    split; cbn [pendingTimers timeoutRef copied].
    + rewrite Hp in Hin |- *. destruct (timeoutRef s) as [old |];
        [| destruct Hin].
      destruct Hin as [<- | []]. apply clearTimeout_only.
    + split; [discriminate | intros N; now elim N].
Qed.

Lemma hookRun_invariant_from (events : list HookEvent) (s : HookState) :
  hookInvariant s -> hookInvariant (fold_left hookStep events s).
Proof.
  revert s. induction events as [| e events IH]; intros s H; cbn [fold_left].
  - exact H.
  - apply IH, hookStep_invariant, H.
Qed.

Lemma hookRun_invariant (events : list HookEvent) :
  hookInvariant (hookRun events).
Proof.
  apply hookRun_invariant_from. split; [reflexivity |].
  split; [discriminate | intros N; now elim N].
Qed.

(** X26. Whatever is clicked and whichever timers fire, the hook never
    has more than one timer set: the timer that is set is the one
    [timeoutRef] holds, and [copied] is true exactly while it is set.
    Once the component is unmounted no timer is left. *)
Theorem hook_single_timer (events : list HookEvent) :
  let s := hookRun events in
  hookInvariant s
  /\ (List.length (pendingTimers s) <= 1)%nat
  /\ pendingTimers (unmount s) = [].
Proof.
  cbv zeta. pose proof (hookRun_invariant events) as H.
  split; [exact H |]. destruct H as [Hp Hc].
  unfold unmount. destruct (timeoutRef (hookRun events)) as [id |];
    cbn [pendingTimers]; rewrite Hp.
  - split; [cbn; lia | apply clearTimeout_only].
  - split; [cbn; lia | reflexivity].
Qed.

(** X27. A click with a room code, a window and a clipboard, after any
    events, passes the link to the clipboard, sets [copied] and leaves
    one timer set, the new one, in place of the one that was set; when
    that timer fires [copied] is false again and no timer is left. *)
Theorem copy_restarts_timer (events : list HookEvent)
  (code path origin : string) :
  code <> EmptyString ->
  let s := hookRun events in
  exists s',
    handleCopyRoomLink (Some code) path origin true true s = Some s'
    /\ clipboard s' = roomUrl origin path code :: clipboard s
    /\ copied s' = true
    /\ timeoutRef s' = Some (nextTimer s)
    /\ pendingTimers s' = [nextTimer s]
    /\ copied (timerFires (nextTimer s) s') = false
    /\ timeoutRef (timerFires (nextTimer s) s') = None
    /\ pendingTimers (timerFires (nextTimer s) s') = [].
Proof.
  intros Hcode. cbv zeta. eexists. split.
  - apply handleCopyRoomLink_copies; [exact Hcode | apply hookRun_invariant].
  - cbn [clipboard copied timeoutRef pendingTimers].
    do 4 (split; [reflexivity |]).
    unfold timerFires. cbn [pendingTimers].
    destruct (in_dec Nat.eq_dec (nextTimer (hookRun events))
                [nextTimer (hookRun events)]) as [_ | N];
      [| elim N; now left].
    cbn [copied timeoutRef pendingTimers].
    do 2 (split; [reflexivity |]). apply clearTimeout_only.
Qed.

Lemma copy_restarts_timer_witness :
  let s := hookRun [CopyClicked (Some "ABCD"%string) "/coaster"%string
                      "https://x.io"%string true true;
                    TimerFired 1;
                    CopyClicked (Some "ABCD"%string) "/coaster"%string
                      "https://x.io"%string true true] in
  exists s',
    handleCopyRoomLink (Some "ABCD"%string) "coaster"%string
      "https://x.io"%string true true s = Some s'
    /\ clipboard s'
       = roomUrl "https://x.io"%string "coaster"%string "ABCD"%string
         :: clipboard s
    /\ copied s' = true
    /\ timeoutRef s' = Some (nextTimer s)
    /\ pendingTimers s' = [nextTimer s]
    /\ copied (timerFires (nextTimer s) s') = false
    /\ timeoutRef (timerFires (nextTimer s) s') = None
    /\ pendingTimers (timerFires (nextTimer s) s') = [].
Proof.
  apply (copy_restarts_timer
           [CopyClicked (Some "ABCD"%string) "/coaster"%string
              "https://x.io"%string true true;
            TimerFired 1;
            CopyClicked (Some "ABCD"%string) "/coaster"%string
              "https://x.io"%string true true]
           "ABCD"%string "coaster"%string "https://x.io"%string).
  discriminate.
Defined.

(** X28. Nothing is copied without a room code or without a window: the
    handler returns and the state is as it was, also where there is no
    clipboard.  With both and no clipboard the call throws.  The link is
    the origin, the path and the room code joined by single slashes, a
    path given with one leading slash and the same path given without it
    yielding the same link. *)
Theorem copy_link_url (s : HookState) (origin path code : string)
  (hasWindow hasClipboard : bool) :
  code <> EmptyString ->
  (forall rest : string, path <> String "/"%char rest) ->
  handleCopyRoomLink None path origin hasWindow hasClipboard s = Some s
  /\ handleCopyRoomLink (Some EmptyString) path origin hasWindow
       hasClipboard s = Some s
  /\ handleCopyRoomLink (Some code) path origin false hasClipboard s = Some s
  /\ handleCopyRoomLink (Some code) path origin true false s = None
  /\ roomUrl origin path code
     = (origin ++ "/" ++ path ++ "/" ++ code)%string
  /\ roomUrl origin (String "/"%char path) code = roomUrl origin path code.
Proof.
  intros Hcode Hp.
  split; [reflexivity |]. split; [reflexivity |].
  split; [destruct code; reflexivity |].
  split; [destruct code; [now elim Hcode | reflexivity] |].
  assert (Hn : normalizedPath path = path).
  { unfold normalizedPath. destruct path as [| c rest]; [reflexivity |].
    destruct (Ascii.ascii_dec c "/"%char) as [-> | N];
      [now elim (Hp rest) |].
    destruct c as [[] [] [] [] [] [] [] []]; try reflexivity.
    now elim N. }
  unfold roomUrl. rewrite Hn. split; reflexivity.
Qed.

Lemma copy_link_url_witness :
  handleCopyRoomLink None "coaster"%string "https://x.io"%string true true
    initialHook = Some initialHook
  /\ handleCopyRoomLink (Some EmptyString) "coaster"%string
       "https://x.io"%string true true initialHook = Some initialHook
  /\ handleCopyRoomLink (Some "ABCD"%string) "coaster"%string
       "https://x.io"%string false true initialHook = Some initialHook
  /\ handleCopyRoomLink (Some "ABCD"%string) "coaster"%string
       "https://x.io"%string true false initialHook = None
  /\ roomUrl "https://x.io"%string "coaster"%string "ABCD"%string
     = ("https://x.io" ++ "/" ++ "coaster" ++ "/" ++ "ABCD")%string
  /\ roomUrl "https://x.io"%string (String "/"%char "coaster"%string)
       "ABCD"%string
     = roomUrl "https://x.io"%string "coaster"%string "ABCD"%string.
Proof.
  apply (copy_link_url initialHook "https://x.io"%string "coaster"%string
           "ABCD"%string true true); [discriminate |].
  intros rest; discriminate.
Defined.
